(** * Toronto turnout dashboard: the join and reconciliation layer

    A shallow embedding of [src/utils.py], [src/utils_pro.py] and
    [src/utils_mun.py]: the identifier normalizers, the schema resolver,
    the composite key builder, the turnout-percentage parser and the
    year-scoped join engines, with the properties the design document
    states about them; then the loaders of the three levels, the year
    list and the summary of the municipal page, the provincial map and
    the colour scale of [pages/3_Municipal_Map.py], with properties read
    off the code.  The loaders start from the frame the file reader
    returns; reprojection is left out, it touches no key.  A float is an
    exact rational.

    Text is a [string]: a sequence of 8-bit characters.  A character
    outside ASCII is carried by its UTF-8 bytes, which the whitespace test
    and the case mapping below leave alone. *)

From Stdlib Require Import List String Ascii ZArith QArith Bool Lia PeanoNat.
From Stdlib Require Import DecimalString DecimalZ Permutation Qround Qabs Qpower Lqa.
Import ListNotations.
Open Scope string_scope.

(** ** Python [str] operations *)

Module PyStr.

(** [str.isspace] on the ASCII range: tab, LF, VT, FF, CR, the four
    separators 0x1c..0x1f and the space.  The same set is what [\s]
    matches in a [re] pattern and what [str.strip()] removes. *)
Definition is_space (c : ascii) : bool :=
  let n := nat_of_ascii c in
  ((9 <=? n) && (n <=? 13) || (28 <=? n) && (n <=? 32))%nat.

Definition is_upper (c : ascii) : bool :=
  let n := nat_of_ascii c in ((65 <=? n) && (n <=? 90))%nat.

Definition is_digit (c : ascii) : bool :=
  let n := nat_of_ascii c in ((48 <=? n) && (n <=? 57))%nat.

Definition lower_char (c : ascii) : ascii :=
  if is_upper c then ascii_of_nat (nat_of_ascii c + 32) else c.

(** [s.lower()] *)
Fixpoint lower (s : string) : string :=
  match s with
  | EmptyString => EmptyString
  | String c s' => String (lower_char c) (lower s')
  end.

(** [s.lstrip()], [s.rstrip()], [s.strip()] *)
Fixpoint lstrip (s : string) : string :=
  match s with
  | EmptyString => EmptyString
  | String c s' => if is_space c then lstrip s' else s
  end.

Fixpoint rstrip (s : string) : string :=
  match s with
  | EmptyString => EmptyString
  | String c s' =>
      match rstrip s' with
      | EmptyString => if is_space c then EmptyString else String c EmptyString
      | r => String c r
      end
  end.

Definition strip (s : string) : string := rstrip (lstrip s).

(** [re.sub(r"\s+", " ", s)]: every maximal run of whitespace becomes one
    space.  [in_run] records that the previous character was whitespace. *)
Fixpoint collapse_from (in_run : bool) (s : string) : string :=
  match s with
  | EmptyString => EmptyString
  | String c s' =>
      if is_space c
      then (if in_run then collapse_from true s'
            else String " " (collapse_from true s'))
      else String c (collapse_from false s')
  end.

Definition collapse_ws (s : string) : string := collapse_from false s.

(** [old] is a prefix of [s] *)
Fixpoint starts_with (old s : string) : bool :=
  match old, s with
  | EmptyString, _ => true
  | String a old', String b s' => Ascii.eqb a b && starts_with old' s'
  | String _ _, EmptyString => false
  end.

(** [s.replace(old, new)] for a non-empty [old]: the occurrences are found
    left to right and do not overlap.  [skip] counts the characters of a
    matched occurrence that are still to be passed over. *)
Fixpoint replace_from (old new : string) (skip : nat) (s : string) : string :=
  match s with
  | EmptyString => EmptyString
  | String c s' =>
      match skip with
      | S k => replace_from old new k s'
      | O =>
          if starts_with old s
          then new ++ replace_from old new (String.length old - 1) s'
          else String c (replace_from old new 0 s')
      end
  end.

(** With an empty [old], Python puts [new] before every character and at
    the end. *)
Fixpoint intersperse (new s : string) : string :=
  match s with
  | EmptyString => new
  | String c s' => new ++ String c (intersperse new s')
  end.

Definition replace (old new s : string) : string :=
  match old with
  | EmptyString => intersperse new s
  | _ => replace_from old new 0 s
  end.

(** [sub in s] *)
Fixpoint contains (sub s : string) : bool :=
  starts_with sub s
  || match s with
     | EmptyString => false
     | String _ s' => contains sub s'
     end.

(** [str(n)] for an [int] *)
Definition str_of_Z (z : Z) : string := NilEmpty.string_of_int (Z.to_int z).

Definition digit_val (c : ascii) : Z := Z.of_nat (nat_of_ascii c - 48).

(** The digits of a Python integer literal in base ten: a single
    underscore may separate two digits. *)
Fixpoint int_digits (acc : Z) (after_digit : bool) (s : string) : option Z :=
  match s with
  | EmptyString => if after_digit then Some acc else None
  | String c s' =>
      if is_digit c then int_digits (10 * acc + digit_val c) true s'
      else if Ascii.eqb c "_"
           then (if after_digit then int_digits acc false s' else None)
           else None
  end.

(** [int(s)] for a [str]: surrounding whitespace and one sign are
    accepted; [None] stands for [ValueError]. *)
Definition int_of_str (s : string) : option Z :=
  match strip s with
  | String "+" r => int_digits 0 false r
  | String "-" r => option_map Z.opp (int_digits 0 false r)
  | r => int_digits 0 false r
  end.

(** What is left of [s] after a non-empty run of ['0'] that reaches the
    place where [$] matches: the end of the text, or the line feed that
    ends it. *)
Fixpoint zeros_to_end (seen : bool) (s : string) : option string :=
  match s with
  | EmptyString => if seen then Some EmptyString else None
  | String c s' =>
      if Ascii.eqb c "0" then zeros_to_end true s'
      else if seen && Ascii.eqb c "010" then
             match s' with EmptyString => Some s | _ => None end
           else None
  end.

(** [re.sub(r"\.0+$", "", s)] *)
Fixpoint sub_dot_zeros (s : string) : string :=
  match s with
  | EmptyString => EmptyString
  | String c s' =>
      if Ascii.eqb c "." then
        match zeros_to_end false s' with
        | Some rest => rest
        | None => String c (sub_dot_zeros s')
        end
      else String c (sub_dot_zeros s')
  end.

(** The first and the last character. *)
Definition starts_ws (s : string) : bool :=
  match s with
  | EmptyString => false
  | String c _ => is_space c
  end.

Fixpoint last_char (s : string) : option ascii :=
  match s with
  | EmptyString => None
  | String c s' => match s' with EmptyString => Some c | _ => last_char s' end
  end.

Definition ends_ws (s : string) : bool :=
  match last_char s with
  | Some c => is_space c
  | None => false
  end.


(** Every character is a digit; the first character is a digit. *)
Fixpoint all_digits (s : string) : bool :=
  match s with
  | EmptyString => true
  | String c s' => is_digit c && all_digits s'
  end.

Definition starts_digit (s : string) : bool :=
  match s with
  | EmptyString => false
  | String c _ => is_digit c
  end.

End PyStr.

(** ** The libraries under the program

    The program calls into shapely/GEOS for geometry and into CPython and
    pandas for the text of a float.  Their results are not computed here:
    they are the fields of an interface, and every statement below holds
    for any implementation of it. *)

Class Env := {
  geom : Type;
  geom_eq_dec : forall a b : geom, {a = b} + {a <> b};
  (** the polygonal union of a collection of geometries *)
  union_all : list geom -> geom;
  (** [g.simplify(tolerance, preserve_topology=True)]; [None] when GEOS
      raises *)
  simplify : geom -> option geom;
  (** [str(g)], the WKT text of a geometry *)
  geom_str : geom -> string;
  (** [str(x)] for a float [x] that is not NaN *)
  float_str : Q -> string;
  (** [pd.to_numeric] on one [str]; [None] when it does not parse *)
  str_to_number : string -> option Q;
  (** whether [GeoDataFrame.dissolve] raises on these groups of
      geometries *)
  dissolve_raises : list (list geom) -> bool
}.

(** ** Cells and data frames *)

Section Frames.
Context {E : Env}.

(** A cell of a data frame.  [VNone] is Python's [None], [VNaN] the float
    NaN and pandas' [<NA>]; a float is carried by the rational it stands
    for, in lowest terms. *)
Inductive value : Type :=
| VNone
| VNaN
| VInt (z : Z)
| VNum (q : Q)
| VStr (s : string)
| VGeom (g : geom).

Definition Q_eq_dec (a b : Q) : {a = b} + {a <> b}.
Proof. decide equality; [apply Pos.eq_dec | apply Z.eq_dec]. Defined.

Definition value_eq_dec (a b : value) : {a = b} + {a <> b}.
Proof.
  decide equality;
    [apply Z.eq_dec | apply Q_eq_dec | apply string_dec | apply geom_eq_dec].
Defined.

Definition value_eqb (a b : value) : bool :=
  if value_eq_dec a b then true else false.

(** [pd.isna(x)] *)
Definition isna (v : value) : bool :=
  match v with VNone | VNaN => true | _ => false end.

(** [str(x)] *)
Definition py_str (v : value) : string :=
  match v with
  | VNone => "None"
  | VNaN => "nan"
  | VInt z => PyStr.str_of_Z z
  | VNum q => float_str q
  | VStr s => s
  | VGeom g => geom_str g
  end.

(** [x == n] for an [int] [n], as a row mask: a null compares false. *)
Definition eq_int (v : value) (n : Z) : bool :=
  match v with
  | VInt z => Z.eqb z n
  | VNum q => Qeq_bool q (inject_Z n)
  | _ => false
  end.

(** A data frame: the column labels in order and the rows, each a list of
    cells in column order. *)
Record frame : Type := Frame { columns : list string; rows : list (list value) }.

Fixpoint index_of (c : string) (cols : list string) : option nat :=
  match cols with
  | [] => None
  | x :: cols' =>
      if String.eqb c x then Some O else option_map S (index_of c cols')
  end.

(** [c in df.columns] *)
Definition has_col (f : frame) (c : string) : bool :=
  match index_of c (columns f) with Some _ => true | None => false end.

Definition cell (i : nat) (r : list value) : value := nth i r VNaN.

(** [df.empty] *)
Definition is_empty (f : frame) : bool :=
  match rows f with [] => true | _ => false end.

(** [df[c]]; [None] stands for [KeyError] *)
Definition column (f : frame) (c : string) : option (list value) :=
  match index_of c (columns f) with
  | Some i => Some (map (cell i) (rows f))
  | None => None
  end.

Fixpoint set_nth (i : nat) (v : value) (r : list value) : list value :=
  match i, r with
  | _, [] => []
  | O, _ :: r' => v :: r'
  | S k, x :: r' => x :: set_nth k v r'
  end.

Fixpoint zip_with {A B C} (f : A -> B -> C) (l : list A) (m : list B) : list C :=
  match l, m with
  | a :: l', b :: m' => f a b :: zip_with f l' m'
  | _, _ => []
  end.

(** [df[c] = vals]: an existing column is overwritten, a new one is added
    at the end. *)
Definition set_column (f : frame) (c : string) (vals : list value) : frame :=
  match index_of c (columns f) with
  | Some i => Frame (columns f) (zip_with (set_nth i) vals (rows f))
  | None => Frame (columns f ++ [c])%list (zip_with (fun v r => r ++ [v])%list vals (rows f))
  end.

(** [df[mask]] with the mask computed row by row *)
Definition filter_rows (p : list value -> bool) (f : frame) : frame :=
  Frame (columns f) (filter p (rows f)).

(** [df.rename(columns={old: new})] *)
Definition rename (old new : string) (f : frame) : frame :=
  Frame (map (fun c => if String.eqb c old then new else c) (columns f)) (rows f).

Fixpoint indices_of (cs cols : list string) : option (list nat) :=
  match cs with
  | [] => Some []
  | c :: cs' =>
      match index_of c cols, indices_of cs' cols with
      | Some i, Some js => Some (i :: js)
      | _, _ => None
      end
  end.

(** [df[[c1, ..., cn]]]; [None] stands for [KeyError] *)
Definition select (cs : list string) (f : frame) : option frame :=
  match indices_of cs (columns f) with
  | Some js => Some (Frame cs (map (fun r => map (fun i => cell i r) js) (rows f)))
  | None => None
  end.

(** [df[df[c] == n]] *)
Definition filter_eq_int (c : string) (n : Z) (f : frame) : option frame :=
  match index_of c (columns f) with
  | Some i => Some (filter_rows (fun r => eq_int (cell i r) n) f)
  | None => None
  end.

End Frames.

(** ** [src/utils.py]: helpers and the loaders' cleaning steps *)

Section Utils.
Context {E : Env}.
Import PyStr.

(** [series.fillna("")] on one cell *)
Definition fillna_empty (v : value) : value :=
  if isna v then VStr "" else v.

(** The [.str] chain of [normalize_names] on one text. *)
Definition normalize_text (s : string) : string :=
  lower (collapse_ws (strip s)).

(** [normalize_names(series)] *)
Definition normalize_names (series : list value) : list value :=
  map (fun v => VStr (normalize_text (py_str (fillna_empty v)))) series.

(** [series.astype(str)] *)
Definition astype_str (series : list value) : list value :=
  map (fun v => VStr (py_str v)) series.

(** [find_col_by_keywords(cols, keywords)]; [cols = None] is Python's
    [None] argument. *)
Fixpoint find_col_in (cols : list string) (keywords : list string) : option string :=
  match cols with
  | [] => None
  | c :: cols' =>
      let low := lower (strip c) in
      if existsb (fun kw => contains (lower kw) low) keywords
      then Some c
      else find_col_in cols' keywords
  end.

Definition find_col_by_keywords (cols : option (list string))
    (keywords : list string) : option string :=
  match cols with
  | None => None
  | Some cs => find_col_in cs keywords
  end.

(** The result of [detect_join_key]: [None], a shared label, or a pair of
    labels that agree up to case. *)
Inductive detected : Type :=
| NoKey
| SameKey (key : string)
| KeyPair (gkey dkey : string).

(** [{c.lower(): c for c in cols}[key]]: among the labels with the same
    lowercase form the last one stays in the dict. *)
Definition lower_lookup (key : string) (cols : list string) : option string :=
  find (fun c => String.eqb (lower c) key) (rev cols).

Fixpoint first_some {A B} (f : A -> option B) (l : list A) : option B :=
  match l with
  | [] => None
  | a :: l' => match f a with Some b => Some b | None => first_some f l' end
  end.

Definition detect_join_key (gdf df : frame) : detected :=
  let possible := ["riding_id"; "riding_name"; "name"] in
  match find (fun key => has_col gdf key && has_col df key) possible with
  | Some key => SameKey key
  | None =>
      match first_some (fun key =>
              match lower_lookup key (columns gdf), lower_lookup key (columns df) with
              | Some g, Some d => Some (KeyPair g d)
              | _, _ => None
              end) possible with
      | Some p => p
      | None => NoKey
      end
  end.

(** [int(x)]; [None] stands for the exception it raises. *)
Definition py_int (v : value) : option Z :=
  match v with
  | VInt z => Some z
  | VNum q => Some (Z.quot (Qnum q) (Zpos (Qden q)))
  | VStr s => int_of_str s
  | _ => None
  end.

(** [_safe_str_intlike(x)] *)
Definition _safe_str_intlike (x : value) : string :=
  if isna x then ""
  else match x with
       | VInt z => str_of_Z z
       | _ => sub_dot_zeros (strip (py_str x))
       end.

(** [_safe_str(x)], local to [load_gpkg] *)
Definition _safe_str (x : value) : string :=
  if isna x then ""
  else match py_int x with
       | Some z => str_of_Z z
       | None => strip (sub_dot_zeros (py_str x))
       end.

(** [r.get(c, "")] for a row [r] of the frame [f] *)
Definition row_get (f : frame) (r : list value) (c : string) : value :=
  match index_of c (columns f) with
  | Some i => cell i r
  | None => VStr ""
  end.

(** The composite key of one row, as [load_gpkg] builds it. *)
Definition geo_key_gpkg (year riding_num : value) : string :=
  (_safe_str year ++ "__" ++ strip (py_str riding_num))%string.

(** The composite key of one row, as [load_federal_csv] builds it. *)
Definition geo_key_csv (year riding_num : value) : string :=
  (_safe_str_intlike year ++ "__" ++ strip (py_str riding_num))%string.

(** [gdf["geo_key"] = gdf.apply(lambda r: ..., axis=1)] in [load_gpkg] *)
Definition add_geo_key_gpkg (gdf : frame) : frame :=
  set_column gdf "geo_key"
    (map (fun r => VStr (geo_key_gpkg (row_get gdf r "year") (row_get gdf r "riding_num")))
         (rows gdf)).

(** [df["riding_num"].replace({"nan": None, "None": None, "none": None})]
    on one cell *)
Definition null_words_to_none (v : value) : value :=
  match v with
  | VStr s =>
      if String.eqb s "nan" || String.eqb s "None" || String.eqb s "none"
      then VNone else v
  | _ => v
  end.

(** The last lines of [load_federal_csv]: the null words of [riding_num]
    become [None], then the composite key is computed row by row.  [None]
    stands for the [KeyError] of a frame without [riding_num]. *)
Definition add_geo_key_csv (df : frame) : option frame :=
  match column df "riding_num" with
  | None => None
  | Some nums =>
      let df1 := set_column df "riding_num" (map null_words_to_none nums) in
      Some (set_column df1 "geo_key"
              (map (fun r => VStr (geo_key_csv (row_get df1 r "year")
                                               (row_get df1 r "riding_num")))
                   (rows df1)))
  end.

(** *** Turnout percentages *)

(** The longest prefix of digits of [s], and what follows it. *)
Fixpoint span_digits (s : string) : string * string :=
  match s with
  | EmptyString => (EmptyString, EmptyString)
  | String c s' =>
      if is_digit c
      then let (ds, rest) := span_digits s' in (String c ds, rest)
      else (EmptyString, s)
  end.

(** [re.search(r"([0-9]+(?:\.[0-9]+)?)", s)]: the first run of digits,
    with a fraction when a dot and a digit follow it. *)
Fixpoint first_number (s : string) : option string :=
  match s with
  | EmptyString => None
  | String c s' =>
      if is_digit c then
        let (ds, rest) := span_digits s in
        match rest with
        | String "." r =>
            match fst (span_digits r) with
            | EmptyString => Some ds
            | fs => Some (ds ++ String "." fs)%string
            end
        | _ => Some ds
        end
      else first_number s'
  end.

Fixpoint digits_value (acc : Z) (s : string) : Z :=
  match s with
  | EmptyString => acc
  | String c s' => digits_value (10 * acc + digit_val c) s'
  end.

(** The number a plain decimal text [digits] or [digits.digits] denotes;
    [None] for any other text. *)
Definition decimal_of_str (s : string) : option Q :=
  match span_digits s with
  | (EmptyString, _) => None
  | (ds, EmptyString) => Some (inject_Z (digits_value 0 ds))
  | (ds, String "." r) =>
      match span_digits r with
      | (EmptyString, _) => None
      | (fs, EmptyString) =>
          Some (Qred (Qmake (digits_value (digits_value 0 ds) fs)
                            (Pos.pow 10 (Pos.of_nat (String.length fs)))))
      | (_, String _ _) => None
      end
  | (_, String _ _) => None
  end.

(** [pd.to_numeric(x, errors="coerce")] on one cell: a plain decimal is
    computed here, any other text is left to the library. *)
Definition to_numeric (v : value) : value :=
  match v with
  | VStr s =>
      match decimal_of_str s with
      | Some q => VNum q
      | None => match str_to_number s with Some q => VNum q | None => VNaN end
      end
  | VInt _ | VNum _ => v
  | _ => VNaN
  end.

(** [.str.extract(pattern)[0]] on one cell of text: NaN without a match *)
Definition extract_number (s : string) : value :=
  match first_number s with
  | Some tok => VStr tok
  | None => VNaN
  end.

(** The cleaning of one [voter_participation_pct] cell in
    [load_federal_csv]. *)
Definition parse_pct (v : value) : value :=
  to_numeric (extract_number (replace "," "." (replace "%" "" (py_str v)))).

(** The same step on the whole column. *)
Definition clean_voter_participation_pct (series : list value) : list value :=
  map parse_pct series.

End Utils.

(** ** pandas and geopandas operations used by the join engines *)

(** The exceptions the modelled code can raise. *)
Inductive error : Type :=
| ValueError (msg : string)
| KeyError (label : string)
| AttributeError (msg : string)
| TypeError (msg : string)
| MergeError (msg : string).

(** A computation that returns or raises. *)
Inductive res (A : Type) : Type :=
| Ok (a : A)
| Raise (e : error).
Arguments Ok {A} a.
Arguments Raise {A} e.

Definition bind {A B} (m : res A) (k : A -> res B) : res B :=
  match m with
  | Ok a => k a
  | Raise e => Raise e
  end.

Notation "x <- m ;; k" := (bind m (fun x => k))
  (at level 61, m at next level, right associativity).

(** A lookup that raises [KeyError] on a missing label. *)
Definition or_key_error {A} (label : string) (o : option A) : res A :=
  match o with
  | Some a => Ok a
  | None => Raise (KeyError label)
  end.

Section Pandas.
Context {E : Env}.
Local Open Scope list_scope.

Definition number_of (v : value) : option Q :=
  match v with
  | VInt z => Some (inject_Z z)
  | VNum q => Some q
  | _ => None
  end.

(** The order in which pandas sorts keys: numbers by size, then texts by
    code point, and nulls last. *)
Definition value_leb (a b : value) : bool :=
  match number_of a, number_of b with
  | Some x, Some y => Qle_bool x y
  | Some _, None => true
  | None, Some _ => false
  | None, None =>
      match a, b with
      | VStr s, VStr t => String.leb s t
      | VStr _, _ => true
      | _, VStr _ => false
      | VGeom _, _ => true
      | _, VGeom _ => false
      | _, _ => true
      end
  end.

Fixpoint insert_sorted {A} (leb : A -> A -> bool) (x : A) (l : list A) : list A :=
  match l with
  | [] => [x]
  | y :: l' => if leb x y then x :: l else y :: insert_sorted leb x l'
  end.

(** A stable sort. *)
Definition sort_by {A} (leb : A -> A -> bool) (l : list A) : list A :=
  fold_right (insert_sorted leb) [] l.

(** [series.duplicated(keep=False).any()] *)
Fixpoint has_duplicates (ks : list value) : bool :=
  match ks with
  | [] => false
  | k :: ks' => existsb (value_eqb k) ks' || has_duplicates ks'
  end.

(** The group keys of [groupby]: the distinct keys that are not null, in
    sorted order. *)
Definition group_keys (ks : list value) : list value :=
  sort_by value_leb (nodup value_eq_dec (filter (fun k => negb (isna k)) ks)).

(** [df.groupby(key)] on the rows, [ki] being the position of [key] *)
Definition groupby (ki : nat) (rs : list (list value)) : list (value * list (list value)) :=
  map (fun k => (k, filter (fun r => value_eqb (cell ki r) k) rs))
      (group_keys (map (cell ki) rs)).

(** The geometries of a group, the null ones left out. *)
Definition geoms_of (gi : nat) (rs : list (list value)) : list geom :=
  flat_map (fun r => match cell gi r with VGeom g => [g] | _ => [] end) rs.

(** The aggregation ["first"]: the first cell of the column that is not
    null. *)
Definition first_notna (i : nat) (rs : list (list value)) : value :=
  match find (fun v => negb (isna v)) (map (cell i) rs) with
  | Some v => v
  | None => VNaN
  end.

(** [GeoDataFrame(tmp).dissolve(by=key, as_index=False)]: one row per
    group with the key, the union of the group's geometries and the first
    value of every other column.  [None] stands for any exception. *)
Definition dissolve (key : string) (tmp : frame) : option frame :=
  match index_of key (columns tmp), index_of "geometry" (columns tmp) with
  | Some ki, Some gi =>
      let groups := groupby ki (rows tmp) in
      if dissolve_raises (map (fun g => geoms_of gi (snd g)) groups) then None
      else
        let others :=
          filter (fun c => negb (String.eqb c key) && negb (String.eqb c "geometry"))
                 (columns tmp) in
        match indices_of others (columns tmp) with
        | Some ois =>
            Some (Frame (key :: "geometry" :: others)
                    (map (fun g => fst g :: VGeom (union_all (geoms_of gi (snd g)))
                                    :: map (fun i => first_notna i (snd g)) ois)
                         groups))
        | None => None
        end
  | _, _ => None
  end.

(** The [except] branch of the deduplication: per group, the first row
    with its geometry replaced by [grp.unary_union] and its key by the
    group key. *)
Definition manual_union (key : string) (view_gdf : frame) : res frame :=
  match index_of key (columns view_gdf) with
  | None => Raise (KeyError key)
  | Some ki =>
      match index_of "geometry" (columns view_gdf) with
      | None => Raise (AttributeError "no active geometry column")
      | Some gi =>
          Ok (Frame (columns view_gdf)
                (map (fun g => set_nth ki (fst g)
                                 (set_nth gi (VGeom (union_all (geoms_of gi (snd g))))
                                    (hd [] (snd g))))
                     (groupby ki (rows view_gdf))))
      end
  end.

Fixpoint remove_nth {A} (i : nat) (l : list A) : list A :=
  match i, l with
  | _, [] => []
  | O, _ :: l' => l'
  | S k, x :: l' => x :: remove_nth k l'
  end.

Definition mem (c : string) (cs : list string) : bool := existsb (String.eqb c) cs.

(** The key of a row: its cells at the positions of the [on] columns. *)
Definition key_of (ps : list nat) (r : list value) : list value :=
  map (fun i => cell i r) ps.

(** Two cells are the same merge key when they are the same number, be it
    held as an int or as a float, or both missing (pandas puts every
    missing key, [None] or [NaN], into one group), or else the same
    value. *)
Definition cell_eqb (a b : value) : bool :=
  match number_of a, number_of b with
  | Some x, Some y => Qeq_bool x y
  | None, None => (isna a && isna b) || value_eqb a b
  | _, _ => false
  end.

Fixpoint key_eqb (a b : list value) : bool :=
  match a, b with
  | [], [] => true
  | x :: a', y :: b' => cell_eqb x y && key_eqb a' b'
  | _, _ => false
  end.

Fixpoint keys_unique (ks : list (list value)) : bool :=
  match ks with
  | [] => true
  | k :: ks' => negb (existsb (key_eqb k) ks') && keys_unique ks'
  end.

(** The elements of [l] whose positions are not in [ps]. *)
Definition remove_at {A} (ps : list nat) (l : list A) : list A :=
  map snd (filter (fun p => negb (existsb (Nat.eqb (fst p)) ps))
                  (combine (seq 0 (List.length l)) l)).

(** The positions of the [on] labels; the first missing one raises. *)
Fixpoint positions (on cols : list string) : res (list nat) :=
  match on with
  | [] => Ok []
  | c :: on' =>
      i <- or_key_error c (index_of c cols) ;;
      ps <- positions on' cols ;;
      Ok (i :: ps)
  end.

(** The output rows of a left merge for one left row: one per matching
    right row, or the left row padded with nulls.  The cells of the right
    row are carried over as values; that pandas holds a right-hand column
    of integers as floats once a null comes into it is a matter of the
    column type, which a cell does not carry: the statements on a merge
    compare right-hand cells with [alike]. *)
Definition join_row (lps rps : list nat) (rrows : list (list value))
    (width : nat) (lr : list value) : list (list value) :=
  match filter (fun rr => key_eqb (key_of rps rr) (key_of lps lr)) rrows with
  | [] => [lr ++ repeat VNaN width]
  | ms => map (fun rr => lr ++ remove_at rps rr) ms
  end.

Definition not_one_to_one (side : string) : error :=
  MergeError ("Merge keys are not unique in " ++ side
              ++ " dataset; not a one-to-one merge")%string.

(** [left.merge(right, on=on, how="left")], with [validate="1:1"] when
    [one_to_one] is set.  A label other than a key that both sides carry
    gets the suffixes [_x] and [_y]. *)
Definition merge_left (one_to_one : bool) (on : list string)
    (left right : frame) : res frame :=
  lps <- positions on (columns left) ;;
  rps <- positions on (columns right) ;;
  let lunique := keys_unique (map (key_of lps) (rows left)) in
  let runique := keys_unique (map (key_of rps) (rows right)) in
  if one_to_one && negb lunique && negb runique
  then Raise (not_one_to_one "either left or right")
  else if one_to_one && negb lunique then Raise (not_one_to_one "left")
  else if one_to_one && negb runique then Raise (not_one_to_one "right")
  else
    let shared c :=
      negb (mem c on) && mem c (columns left) && mem c (columns right) in
    let lcols := map (fun c => if shared c then (c ++ "_x")%string else c)
                     (columns left) in
    let rcols := map (fun c => if shared c then (c ++ "_y")%string else c)
                     (remove_at rps (columns right)) in
    Ok (Frame (lcols ++ rcols)
          (flat_map (join_row lps rps (rows right) (List.length rcols)) (rows left))).

Fixpoint all_some {A} (l : list (option A)) : option (list A) :=
  match l with
  | [] => Some []
  | Some a :: l' => option_map (cons a) (all_some l')
  | None :: _ => None
  end.

(** [merged["geometry"] = merged["geometry"].simplify(...)] inside
    [try ... except Exception: pass]: when the column is missing, holds
    something that is not a geometry, or GEOS raises, the frame stays as
    it is. *)
Definition simplify_geometry (merged : frame) : frame :=
  match index_of "geometry" (columns merged) with
  | None => merged
  | Some gi =>
      match all_some (map (fun r => match cell gi r with
                                    | VGeom g => option_map VGeom (simplify g)
                                    | VNone => Some VNone
                                    | VNaN => Some VNaN
                                    | _ => None
                                    end) (rows merged)) with
      | Some vals => set_column merged "geometry" vals
      | None => merged
      end
  end.

Fixpoint lex_leb (a b : list value) : bool :=
  match a, b with
  | x :: a', y :: b' => if value_eqb x y then lex_leb a' b' else value_leb x y
  | _, _ => true
  end.

(** [df.sort_values(by)] *)
Definition sort_values (by_cols : list string) (df : frame) : res frame :=
  ps <- positions by_cols (columns df) ;;
  Ok (Frame (columns df)
        (sort_by (fun a b => lex_leb (key_of ps a) (key_of ps b)) (rows df))).

(** [df.groupby(id)[col].shift(1)] on rows in their given order: the value
    of the previous row of the same group, NaN for the first row of a group
    and for a null key.  [seen] lists the rows passed, the latest first. *)
Fixpoint shift_prev (seen : list (value * value)) (ids vals : list value) : list value :=
  match ids, vals with
  | i :: ids', v :: vals' =>
      (if isna i then VNaN
       else match find (fun kv => value_eqb (fst kv) i) seen with
            | Some kv => snd kv
            | None => VNaN
            end) :: shift_prev ((i, v) :: seen) ids' vals'
  | _, _ => []
  end.

(** [a - b] on cells of numeric columns; a text or a geometry raises. *)
Definition sub_value (a b : value) : res value :=
  match a, b with
  | VInt x, VInt y => Ok (VInt (x - y))
  | (VStr _ | VGeom _), _ | _, (VStr _ | VGeom _) =>
      Raise (TypeError "unsupported operand type(s) for -")
  | _, _ =>
      match number_of a, number_of b with
      | Some x, Some y => Ok (VNum (Qred (x - y)))
      | _, _ => Ok VNaN
      end
  end.

Fixpoint sub_series (a b : list value) : res (list value) :=
  match a, b with
  | x :: a', y :: b' =>
      d <- sub_value x y ;;
      ds <- sub_series a' b' ;;
      Ok (d :: ds)
  | _, _ => Ok []
  end.

End Pandas.

(** ** [src/utils.py]: [prepare_map_df] *)

Section JoinEngine.
Context {E : Env}.
Local Open Scope list_scope.
Import PyStr.

(** What a call leaves behind: its result, and the two objects the caller
    passed in as they are after the call. *)
Record outcome : Type := Outcome {
  result : res frame;
  gdf_all_after : frame;
  df_fed_after : frame
}.

(** The [try] branch of a deduplication: [view_gdf[cols]] dissolved by
    [key]; [None] when anything in it raises. *)
Definition try_dissolve (key : string) (cols : list string) (view_gdf : frame) : option frame :=
  match select cols view_gdf with
  | Some tmp => dissolve key tmp
  | None => None
  end.

(** Lines 262-278: the deduplication of the preferred path. *)
Definition dissolve_duplicates (view_gdf : frame) : res frame :=
  keys <- or_key_error "geo_key" (column view_gdf "geo_key") ;;
  if has_duplicates keys then
    match try_dissolve "geo_key" ["geo_key"; "geometry"; "year"] view_gdf with
    | Some dissolved => Ok dissolved
    | None => manual_union "geo_key" view_gdf
    end
  else Ok view_gdf.

(** Line 257: [view_gdf[view_gdf["geo_key"].astype(str).str.len() > 0]] *)
Definition drop_empty_keys (view_gdf : frame) : frame :=
  match index_of "geo_key" (columns view_gdf) with
  | Some ki =>
      filter_rows (fun r => Nat.ltb 0 (String.length (py_str (cell ki r)))) view_gdf
  | None => view_gdf
  end.

(** Lines 259-290, entered with a view that still has a row. *)
Definition preferred_merge (view_gdf df_fed : frame) (year : Z) : res frame :=
  df_year <- or_key_error "year" (filter_eq_int "year" year df_fed) ;;
  deduplicated <- dissolve_duplicates view_gdf ;;
  merged <- merge_left false ["geo_key"] deduplicated df_year ;;
  Ok (simplify_geometry merged).

(** Lines 256-290: the preferred join.  The first component is the value
    returned, if the path returns; the second is [view_gdf] as the code
    below line 290 finds it. *)
Definition preferred_join (view_gdf df_fed : frame) (year : Z)
    : option (res frame) * frame :=
  if has_col view_gdf "geo_key" && has_col df_fed "geo_key" then
    let view1 := drop_empty_keys view_gdf in
    if negb (is_empty view1)
    then (Some (preferred_merge view1 df_fed year), view1)
    else (None, view1)
  else (None, view_gdf).

(** Lines 295-299 *)
Definition preferred_keys (join_key_hint : option string) : list string :=
  match join_key_hint with
  | Some (String c h) => [String c h]
  | _ => []
  end ++ ["riding_id"; "riding_name"; "riding_num"; "name"].

(** Lines 301-315: the chosen key, the frame the local name [df_fed] is
    bound to afterwards, and whether that is still the caller's object
    ([rename] makes a new one). *)
Definition choose_join_key (view_gdf df_fed : frame) (join_key_hint : option string)
    : option string * frame * bool :=
  match find (fun key => has_col view_gdf key && has_col df_fed key)
             (preferred_keys join_key_hint) with
  | Some key => (Some key, df_fed, true)
  | None =>
      match detect_join_key view_gdf df_fed with
      | KeyPair gkey dkey =>
          if has_col df_fed dkey && negb (String.eqb gkey dkey)
          then (Some gkey, rename dkey gkey df_fed, false)
          else (Some gkey, df_fed, true)
      | SameKey key => (Some key, df_fed, true)
      | NoKey => (None, df_fed, true)
      end
  end.

(** Lines 323-328: the new content of a join key column. *)
Definition normalize_key_column (join_key : string) (series : list value) : list value :=
  if contains "name" (lower join_key)
  then normalize_names (astype_str series)
  else map (fun v => VStr (strip (py_str v))) series.

(** Lines 331-335: the mask of the rows without a usable key. *)
Definition missing_key (v : value) : bool :=
  isna v
  || Nat.eqb (String.length (py_str v)) 0
  || String.eqb (lower (py_str v)) "none".

(** Lines 340-364: the deduplication of the fallback path. *)
Definition remove_duplicate_polygons (join_key : string) (year : Z)
    (view_gdf : frame) : res frame :=
  keys <- or_key_error join_key (column view_gdf join_key) ;;
  if has_duplicates keys then
    let cols := [join_key; "geometry"]
                ++ (if has_col view_gdf "year" then ["year"] else []) in
    match try_dissolve join_key cols view_gdf with
    | Some dissolved =>
        Ok (if has_col dissolved "year" then dissolved
            else set_column dissolved "year"
                   (repeat (VInt year) (List.length (rows dissolved))))
    | None => manual_union join_key view_gdf
    end
  else Ok view_gdf.

(** Lines 379-393 and 396-410: the previous turnout per district, joined
    to the merged rows, and the difference. *)
Definition attach_delta (idcol : string) (merged df_fed : frame) (year : Z) : res frame :=
  df_sorted <- sort_values [idcol; "year"] df_fed ;;
  ids <- or_key_error idcol (column df_sorted idcol) ;;
  pcts <- or_key_error "voter_participation_pct"
            (column df_sorted "voter_participation_pct") ;;
  let df_sorted1 := set_column df_sorted "prev_participation" (shift_prev [] ids pcts) in
  current <- or_key_error "year" (filter_eq_int "year" year df_sorted1) ;;
  prev <- or_key_error idcol (select [idcol; "prev_participation"] current) ;;
  if has_col merged idcol then
    merged1 <- merge_left false [idcol] merged prev ;;
    a <- or_key_error "voter_participation_pct"
           (column merged1 "voter_participation_pct") ;;
    b <- or_key_error "prev_participation" (column merged1 "prev_participation") ;;
    d <- sub_series a b ;;
    Ok (set_column merged1 "delta_pct" d)
  else Ok merged.

(** Lines 377-410 *)
Definition delta_turnout (merged df_fed : frame) (year : Z) : res frame :=
  if has_col df_fed "voter_participation_pct" then
    if has_col df_fed "riding_id"
    then attach_delta "riding_id" merged df_fed year
    else attach_delta "riding_name" merged df_fed year
  else Ok merged.

(** Lines 330-420, after both key columns are normalized. *)
Definition fallback_merge (join_key : string) (view_gdf df_fed : frame) (year : Z) : res frame :=
  ki <- or_key_error join_key (index_of join_key (columns view_gdf)) ;;
  let view1 := filter_rows (fun r => negb (missing_key (cell ki r))) view_gdf in
  if is_empty view1 then Ok view1
  else
    view2 <- remove_duplicate_polygons join_key year view1 ;;
    df_year <- or_key_error "year" (filter_eq_int "year" year df_fed) ;;
    merged <- merge_left false [join_key] view2 df_year ;;
    if is_empty merged then Ok merged
    else
      merged1 <- delta_turnout merged df_fed year ;;
      Ok (simplify_geometry merged1).

(** Lines 295-420: the fallback join.  The second component is the
    caller's turnout object after the call: the assignment
    [df_fed[join_key] = ...] writes into it unless [df_fed] was rebound to
    a renamed copy before. *)
Definition fallback_join (view_gdf df_fed : frame) (year : Z)
    (join_key_hint : option string) : res frame * frame :=
  match choose_join_key view_gdf df_fed join_key_hint with
  | (None, _, _) => (Raise (ValueError "No valid join key found."), df_fed)
  | (Some join_key, df_local, aliased) =>
      match column view_gdf join_key with
      | None => (Raise (KeyError join_key), df_fed)
      | Some gkeys =>
          let view1 := set_column view_gdf join_key
                         (normalize_key_column join_key gkeys) in
          match column df_local join_key with
          | None => (Raise (KeyError join_key), df_fed)
          | Some dkeys =>
              let df1 := set_column df_local join_key
                           (normalize_key_column join_key dkeys) in
              (fallback_merge join_key view1 df1 year,
               if aliased then df1 else df_fed)
          end
      end
  end.

(** Lines 242-243: [election_year] is renamed to [year] when there is no
    [year]; the renamed frame is a new object. *)
Definition normalize_year_naming (gdf_all : frame) : frame :=
  if has_col gdf_all "election_year" && negb (has_col gdf_all "year")
  then rename "election_year" "year" gdf_all
  else gdf_all.

(** [prepare_map_df(gdf_all, df_fed, year, join_key_hint)] *)
Definition prepare_map_df (gdf_all df_fed : frame) (year : Z)
    (join_key_hint : option string) : outcome :=
  match filter_eq_int "year" year (normalize_year_naming gdf_all) with
  | None => Outcome (Raise (ValueError "GPKG missing 'year' column.")) gdf_all df_fed
  | Some view_gdf =>
      if is_empty view_gdf then Outcome (Ok view_gdf) gdf_all df_fed
      else
        match preferred_join view_gdf df_fed year with
        | (Some r, _) => Outcome r gdf_all df_fed
        | (None, view1) =>
            let (r, df_after) := fallback_join view1 df_fed year join_key_hint in
            Outcome r gdf_all df_after
        end
  end.

End JoinEngine.

(** ** [src/utils_pro.py]: the district-name normalizer *)

Module Provincial.
Import PyStr.

(** U+2014 and U+2013 in UTF-8 *)
Definition em_dash : string := String "226" (String "128" (String "148" "")).
Definition en_dash : string := String "226" (String "128" (String "147" "")).

(** The chain of [normalize_one] on a [str]. *)
Definition normalize_str (x : string) : string :=
  replace en_dash "-" (replace em_dash "-" (replace "  " " " (lower (strip x)))).

(** [normalize_one(x)]: anything that is not a [str] gives the empty
    text. *)
Definition normalize_one {E : Env} (x : value) : string :=
  match x with
  | VStr s => normalize_str s
  | _ => ""
  end.

End Provincial.

(** ** [src/utils_mun.py]: the municipal year join *)

Section Municipal.
Context {E : Env}.
Local Open Scope list_scope.

(** [df[c] = f(df[c])] cell by cell *)
Definition map_column (c : string) (f : value -> value) (df : frame) : res frame :=
  series <- or_key_error c (column df c) ;;
  Ok (set_column df c (map f series)).

(** [df.dropna(subset=cols)] *)
Definition dropna (cols : list string) (df : frame) : res frame :=
  ps <- positions cols (columns df) ;;
  Ok (filter_rows (fun r => forallb (fun i => negb (isna (cell i r))) ps) df).

(** [series.astype(int)] on one cell of a numeric column without nulls: a
    float is cut towards zero. *)
Definition as_int (v : value) : value :=
  match v with
  | VNum q => VInt (Z.quot (Qnum q) (Zpos (Qden q)))
  | _ => v
  end.

(** [prepare_municipal_year_gdf(year, geom_gdf, turnout_df)] *)
Definition prepare_municipal_year_gdf (year : Z) (geom_gdf turnout_df : frame) : res frame :=
  g0 <- or_key_error "Year" (filter_eq_int "Year" year geom_gdf) ;;
  t0 <- or_key_error "Year" (filter_eq_int "Year" year turnout_df) ;;
  g1 <- map_column "Ward" to_numeric g0 ;;
  t1 <- map_column "Ward" to_numeric t0 ;;
  g2 <- map_column "Sub" to_numeric g1 ;;
  t2 <- map_column "Sub" to_numeric t1 ;;
  g3 <- dropna ["Ward"; "Sub"] g2 ;;
  t3 <- dropna ["Ward"; "Sub"] t2 ;;
  g4 <- map_column "Ward" as_int g3 ;;
  g5 <- map_column "Sub" as_int g4 ;;
  t4 <- map_column "Ward" as_int t3 ;;
  t5 <- map_column "Sub" as_int t4 ;;
  t_cols <- or_key_error "PctVoted"
              (select ["Year"; "Ward"; "Sub"; "PctVoted"] t5) ;;
  merge_left true ["Year"; "Ward"; "Sub"] g5 t_cols.

(** One side of the join as the merge receives it (lines 124-138): the
    rows of the year, both key columns made numeric, the rows with a null
    key dropped, the keys cast to [int]. *)
Definition year_side (year : Z) (df : frame) : res frame :=
  df0 <- or_key_error "Year" (filter_eq_int "Year" year df) ;;
  df1 <- map_column "Ward" to_numeric df0 ;;
  df2 <- map_column "Sub" to_numeric df1 ;;
  df3 <- dropna ["Ward"; "Sub"] df2 ;;
  df4 <- map_column "Ward" as_int df3 ;;
  map_column "Sub" as_int df4.

(** The [(Year, Ward, Sub)] keys of a frame, one per row; [None] when a
    key column is missing. *)
Definition municipal_keys (df : frame) : option (list (list value)) :=
  match positions ["Year"; "Ward"; "Sub"] (columns df) with
  | Ok ps => Some (map (key_of ps) (rows df))
  | Raise _ => None
  end.

End Municipal.

(** ** A small implementation of the library interface

    Geometries are lists of grid cells and their union is the
    concatenation.  With [raises] unset, [dissolve] and the simplification
    never raise; with [raises] set, both always do.  The frames below serve
    to run the model. *)

Module Grid.

#[local] Open Scope list_scope.

Definition grid_env (raises : bool) : Env := {|
  geom := list nat;
  geom_eq_dec := list_eq_dec Nat.eq_dec;
  union_all := fun gs => List.concat gs;
  simplify := fun g => if raises then None else Some g;
  geom_str := fun _ => "POLYGON";
  float_str := fun _ => "0.0";
  str_to_number := fun _ => None;
  dissolve_raises := fun _ => raises
|}.

Definition grid : Env := grid_env false.
Definition raising : Env := grid_env true.

(** A geometry cell made of the given grid cells. *)
Definition cells {raises : bool} (g : list nat) : @value (grid_env raises) :=
  @VGeom (grid_env raises) g.

(** The sources of the design's scenario, as the loaders leave them: two
    polygons keyed [2015__42], a district of 2015 without turnout, and
    rows of another year. *)
Definition keyed_gdf (raises : bool) : @frame (grid_env raises) :=
  Frame ["year"; "riding_num"; "geo_key"; "geometry"]
        [[VInt 2015; VStr "42"; VStr "2015__42"; cells [1%nat]];
         [VInt 2015; VStr "7"; VStr "2015__7"; cells [3%nat]];
         [VInt 2015; VStr "42"; VStr "2015__42"; cells [2%nat]];
         [VInt 2011; VStr "7"; VStr "2011__7"; cells [3%nat]]].

Definition keyed_df (raises : bool) : @frame (grid_env raises) :=
  Frame ["year"; "riding_num"; "voter_participation_pct"; "geo_key"]
        [[VInt 2015; VStr "42"; VNum (612 # 10); VStr "2015__42"];
         [VInt 2011; VStr "42"; VNum (600 # 10); VStr "2011__42"]].

(** The rows of 2015 of [keyed_gdf]. *)
Definition keyed_view (raises : bool) : @frame (grid_env raises) :=
  Frame ["year"; "riding_num"; "geo_key"; "geometry"]
        [[VInt 2015; VStr "42"; VStr "2015__42"; cells [1%nat]];
         [VInt 2015; VStr "7"; VStr "2015__7"; cells [3%nat]];
         [VInt 2015; VStr "42"; VStr "2015__42"; cells [2%nat]]].

(** [keyed_view] after a [dissolve] that returns, and after the manual
    union. *)
Definition keyed_dissolved : @frame grid :=
  Frame ["geo_key"; "geometry"; "year"]
        [[VStr "2015__42"; cells [1%nat; 2%nat]; VInt 2015];
         [VStr "2015__7"; cells [3%nat]; VInt 2015]].

Definition keyed_unioned : @frame raising :=
  Frame ["year"; "riding_num"; "geo_key"; "geometry"]
        [[VInt 2015; VStr "42"; VStr "2015__42"; cells [1%nat; 2%nat]];
         [VInt 2015; VStr "7"; VStr "2015__7"; cells [3%nat]]].

(** Municipal sources: subdivision 2 of ward 1 has no turnout row. *)
Definition mun_gdf : @frame grid :=
  Frame ["Year"; "Ward"; "Sub"; "geometry"]
        [[VInt 2018; VInt 1; VInt 1; cells [1%nat]];
         [VInt 2018; VInt 1; VStr "2"; cells [2%nat]];
         [VInt 2014; VInt 1; VInt 1; cells [1%nat]]].

Definition mun_df : @frame grid :=
  Frame ["Year"; "Ward"; "Sub"; "PctVoted"]
        [[VInt 2018; VInt 1; VInt 1; VNum (1 # 2)];
         [VInt 2018; VInt 3; VInt 1; VNum (1 # 3)]].

(** The same turnout with the row of ward 3 twice. *)
Definition mun_df_repeated : @frame grid :=
  Frame ["Year"; "Ward"; "Sub"; "PctVoted"]
        [[VInt 2018; VInt 1; VInt 1; VNum (1 # 2)];
         [VInt 2018; VInt 3; VInt 1; VNum (1 # 3)];
         [VInt 2018; VInt 3; VInt 1; VNum (1 # 3)]].

(** Geometry with the same key twice, in rows whose ward is no number. *)
Definition mun_gdf_unnumbered : @frame grid :=
  Frame ["Year"; "Ward"; "Sub"; "geometry"]
        [[VInt 2018; VStr "x"; VInt 1; cells [1%nat]];
         [VInt 2018; VStr "x"; VInt 1; cells [2%nat]];
         [VInt 2018; VInt 1; VInt 1; cells [3%nat]]].

(** Frames that did not go through the loaders: a name column with
    capitals and stray spaces, and no composite key. *)
Definition named_gdf : @frame grid :=
  Frame ["year"; "riding_name"; "geometry"]
        [[VInt 2015; VStr "Toronto Centre"; cells [1%nat]];
         [VInt 2015; VStr "Davenport"; cells [2%nat]]].

Definition named_df : @frame grid :=
  Frame ["year"; "riding_name"; "voter_participation_pct"]
        [[VInt 2015; VStr "Toronto  Centre "; VNum (612 # 10)];
         [VInt 2011; VStr "Toronto  Centre "; VNum (600 # 10)]].

(** [named_df] after the fallback join wrote the normalized names back. *)
Definition named_df_written : @frame grid :=
  Frame ["year"; "riding_name"; "voter_participation_pct"]
        [[VInt 2015; VStr "toronto centre"; VNum (612 # 10)];
         [VInt 2011; VStr "toronto centre"; VNum (600 # 10)]].

(** A geometry source without a year column, and a turnout source that
    shares [riding_id] with it. *)
Definition yearless_gdf : @frame grid :=
  Frame ["riding_id"; "geometry"] [[VInt 42; cells [1%nat]]].

Definition id_df : @frame grid :=
  Frame ["year"; "riding_id"; "voter_participation_pct"]
        [[VInt 2015; VInt 42; VNum (612 # 10)]].

(** Sources with no label in common but [year]. *)
Definition unkeyed_gdf : @frame grid :=
  Frame ["year"; "district"; "geometry"] [[VInt 2015; VStr "a"; cells [1%nat]]].

Definition unkeyed_df : @frame grid :=
  Frame ["year"; "riding"; "voter_participation_pct"]
        [[VInt 2015; VStr "a"; VNum (612 # 10)]].

End Grid.

(** ** Vocabulary of the statements *)

Section Vocabulary.
Context {E : Env}.
Local Open Scope list_scope.

(** [sub] occurs somewhere in [s]. *)
Definition occurs_in (sub s : string) : Prop :=
  exists before after, s = (before ++ sub ++ after)%string.


(** [s] holds a digit. *)
Definition has_digit (s : string) : bool :=
  existsb PyStr.is_digit (list_ascii_of_string s).

(** The candidate join keys of the fallback path. *)
Definition candidate_keys : list string :=
  ["riding_id"; "riding_name"; "riding_num"; "name"].

(** Both frames carry the label [key]; both carry a label that is [key]
    up to case. *)
Definition shared_label (gdf df : frame) (key : string) : bool :=
  has_col gdf key && has_col df key.

Definition shared_ignoring_case (gdf df : frame) (key : string) : bool :=
  existsb (fun c => String.eqb (PyStr.lower c) key) (columns gdf)
  && existsb (fun c => String.eqb (PyStr.lower c) key) (columns df).

(** Every row has one cell per column. *)
Definition rectangular (f : frame) : Prop :=
  Forall (fun r => List.length r = List.length (columns f)) (rows f).

(** The geometries of the rows of [f] whose [key] cell is [k]. *)
Definition group_geoms (key : string) (f : frame) (k : value) : list geom :=
  match index_of key (columns f), index_of "geometry" (columns f) with
  | Some ki, Some gi =>
      geoms_of gi (filter (fun r => value_eqb (cell ki r) k) (rows f))
  | _, _ => []
  end.

(** The cell [a] holds what the cell [b] holds, as pandas hands it on:
    the same value; or a null for a null; or, where the column is held in
    64-bit floats, the number of [b] as such a float, which is within one
    part in [2^50] of it (a float carries 53 bits; a cast rounds to the
    nearest one, the parser of decimals may be a few units in the last
    place off). *)
Definition alike (a b : value) : Prop :=
  a = b
  \/ (isna a = true /\ isna b = true)
  \/ exists x y, number_of a = Some x /\ number_of b = Some y
                 /\ (Qabs (x - y) * inject_Z (2 ^ 50) <= Qabs y)%Q.

(** Two cells are the same join key: the same value, two missing values,
    or the same number. *)
Definition same_key (a b : value) : Prop :=
  a = b
  \/ (isna a = true /\ isna b = true)
  \/ exists x y, number_of a = Some x /\ number_of b = Some y /\ (x == y)%Q.

(** *** The turnout percentage, in the words of the design *)


(** A run of decimal digits, at least one. *)
Definition digit_run (s : string) : Prop :=
  s <> EmptyString /\ PyStr.all_digits s = true.

(** The number a run of digits denotes in positional notation. *)
Fixpoint run_value (s : string) : Z :=
  match s with
  | EmptyString => 0
  | String c s' =>
      (Z.of_nat (nat_of_ascii c) - 48) * 10 ^ Z.of_nat (String.length s')
      + run_value s'
  end.

(** The first numeric token of [s] denotes [q]: after a stretch without
    digits comes the longest run of digits [ds], and either a dot and the
    longest run of digits [fs] follow it, and [q] is [ds.fs]; or no dot
    with a digit follows it, and [q] is [ds]. *)
Definition first_token_value (s : string) (q : Q) : Prop :=
  exists pre ds post,
    s = (pre ++ ds ++ post)%string
    /\ has_digit pre = false
    /\ digit_run ds
    /\ ((PyStr.starts_digit post = false
         /\ (forall r, post = String "." r -> PyStr.starts_digit r = false)
         /\ q == inject_Z (run_value ds))
        \/ exists fs rest,
             post = String "." (fs ++ rest)
             /\ digit_run fs
             /\ PyStr.starts_digit rest = false
             /\ q == inject_Z (run_value ds)
                     + inject_Z (run_value fs)
                       / inject_Z (10 ^ Z.of_nat (String.length fs))).


(** [ts] holds the elements of [l] that satisfy [P], in the order of [l]. *)
Inductive picked {A : Type} (P : A -> Prop) : list A -> list A -> Prop :=
| picked_nil : picked P [] []
| picked_take x l ts : P x -> picked P l ts -> picked P (x :: l) (x :: ts)
| picked_skip x l ts : ~ P x -> picked P l ts -> picked P (x :: l) ts.

(** The list [t] without its element at position [k]. *)
Definition without {A : Type} (k : nat) (t : list A) : list A :=
  firstn k t ++ skipn (S k) t.

(** What a left merge on one key makes of the left row [l]: [l] followed
    by the cells, the key left out, of each right row that has the key of
    [l], in the order of the right frame; or, where no right row has it,
    [l] followed by [width] nulls. *)
Definition left_block (lk rk width : nat) (right : list (list value))
    (l : list value) (block : list (list value)) : Prop :=
  exists ts,
    picked (fun t => same_key (cell rk t) (cell lk l)) right ts
    /\ block = match ts with
               | [] => [l ++ repeat VNaN width]
               | _ => map (fun t => l ++ without rk t) ts
               end.

(** The output row [m] delivers the merged row [e], whose first [n]
    cells are the left row: as many cells; the left cells as they are;
    the right cells alike; and at the place [gi] of the geometry column
    of the output the geometry of [e] or its simplification. *)
Definition delivered (gi : option nat) (n : nat) (m e : list value) : Prop :=
  List.length m = List.length e
  /\ forall i,
       (Some i = gi ->
        cell i m = cell i e
        \/ exists g g', cell i e = VGeom g /\ simplify g = Some g'
                         /\ cell i m = VGeom g')
       /\ (Some i <> gi ->
           ((i < n)%nat -> cell i m = cell i e)
           /\ ((n <= i)%nat -> alike (cell i m) (cell i e))).

(** The labels of a merge on [key]: those of the left frame, then those
    of the right frame without its key column (at [rk]); a label other
    than the key that both frames carry comes with [_x] and [_y]. *)
Definition merged_labels (key : string) (rk : nat) (lcols rcols : list string)
    : list string :=
  let both c := negb (String.eqb c key) && mem c lcols && mem c rcols in
  map (fun c => if both c then (c ++ "_x")%string else c) lcols
  ++ map (fun c => if both c then (c ++ "_y")%string else c) (without rk rcols).

(** The output row [o] of the municipal join is the geometry row [gr]
    followed by the [PctVoted] of the only row of [t] with its
    [(Year, Ward, Sub)] key, or by a null when [t] has no such row. *)
Definition joined_row (g t : frame) (o gr : list value) : Prop :=
  match positions ["Year"; "Ward"; "Sub"] (columns g),
        positions ["Year"; "Ward"; "Sub"] (columns t),
        index_of "PctVoted" (columns t) with
  | Ok gps, Ok tps, Some pi =>
      match filter (fun tr => key_eqb (key_of tps tr) (key_of gps gr)) (rows t) with
      | [] => o = gr ++ [VNaN]
      | [tr] => o = gr ++ [cell pi tr]
      | _ => False
      end
  | _, _, _ => False
  end.

End Vocabulary.

(** ** [src/utils.py]: the loaders after the file is read

    [load_gpkg] and [load_federal_csv] are modelled from the frame that
    [gpd.read_file] (with the reference system set) or [pd.read_csv]
    returns. *)

Section Loaders.
Context {E : Env}.
Local Open Scope list_scope.
Import PyStr.

(** The results of a list of computations, or the first exception. *)
Fixpoint all_ok {A} (l : list (res A)) : res (list A) :=
  match l with
  | [] => Ok []
  | m :: l' =>
      a <- m ;;
      rest <- all_ok l' ;;
      Ok (a :: rest)
  end.

(** The integers a 64-bit signed integer holds. *)
Definition in_int64 (z : Z) : bool :=
  ((- 2 ^ 63 <=? z) && (z <? 2 ^ 63))%Z.

(** [series.astype("Int64")] on one cell of a numeric column: a float
    with a fraction cannot be cast, nor can a number outside the 64-bit
    range (which [to_numeric] holds as a [uint64] or as a float); a null
    becomes [<NA>]. *)
Definition as_Int64 (v : value) : res value :=
  match v with
  | VInt z =>
      if in_int64 z then Ok v
      else Raise (TypeError "cannot safely cast non-equivalent uint64 to int64")
  | VNum q =>
      if Z.eqb (Z.rem (Qnum q) (Zpos (Qden q))) 0
         && in_int64 (Z.quot (Qnum q) (Zpos (Qden q)))
      then Ok (VInt (Z.quot (Qnum q) (Zpos (Qden q))))
      else Raise (TypeError "cannot safely cast non-equivalent float64 to int64")
  | _ => Ok VNaN
  end.

(** [df[c] = pd.to_numeric(df[c], errors="coerce").astype("Int64")] *)
Definition to_Int64_column (c : string) (df : frame) : res frame :=
  series <- or_key_error c (column df c) ;;
  vals <- all_ok (map (fun v => as_Int64 (to_numeric v)) series) ;;
  Ok (set_column df c vals).

(** [series.astype(str).str.strip().str.replace(r"\.0+$", "", regex=True)] *)
Definition id_text (series : list value) : list value :=
  map (fun v => VStr (sub_dot_zeros (strip (py_str v)))) series.

(** [df[c] = None] *)
Definition set_none (c : string) (df : frame) : frame :=
  set_column df c (repeat VNone (List.length (rows df))).

Definition id_candidates : list string :=
  ["riding_num"; "feduid"; "fed_id"; "fednum"; "fed_num"; "ed_id"; "ed_num"].

Definition name_candidates : list string :=
  ["riding_name"; "fedname"; "enname"; "fedename";
   "ed_namee"; "ed_name_en"; "ed_name_e"; "ename"].

(** Line 89: [gdf.columns = gdf.columns.str.strip().str.lower()] *)
Definition normalize_labels (gdf : frame) : frame :=
  Frame (map (fun c => lower (strip c)) (columns gdf)) (rows gdf).

(** Lines 96-108: a missing [riding_num] is rebuilt from the first alias
    present, or set to [None]. *)
Definition rebuild_riding_num (gdf : frame) : res frame :=
  if has_col gdf "riding_num" then Ok gdf
  else match find (has_col gdf) id_candidates with
       | Some id_col =>
           series <- or_key_error id_col (column gdf id_col) ;;
           Ok (set_column gdf "riding_num" (id_text series))
       | None => Ok (set_none "riding_num" gdf)
       end.

(** Lines 111-117 *)
Definition map_riding_name (gdf : frame) : res frame :=
  if has_col gdf "riding_name" then Ok gdf
  else match find (has_col gdf) name_candidates with
       | Some name_col =>
           series <- or_key_error name_col (column gdf name_col) ;;
           Ok (set_column gdf "riding_name" series)
       | None => Ok (set_none "riding_name" gdf)
       end.

(** Lines 120-121 and 205-206 *)
Definition ensure_year_numeric (df : frame) : res frame :=
  if has_col df "year" then to_Int64_column "year" df else Ok df.

(** [load_gpkg], lines 88-137 *)
Definition load_gpkg (read : frame) : res frame :=
  let gdf := normalize_year_naming (normalize_labels read) in
  gdf1 <- rebuild_riding_num gdf ;;
  gdf2 <- map_riding_name gdf1 ;;
  gdf3 <- ensure_year_numeric gdf2 ;;
  Ok (add_geo_key_gpkg gdf3).

(** The roles [load_federal_csv] looks for, with their keywords, in the
    order of lines 152-183. *)
Definition roles : list (list string * string) :=
  [ (["year"], "year");
    (["province"; "prov"], "province");
    (["electoral district name"; "riding"; "circonscription"; "district"],
     "riding_name");
    (["electoral district number"; "num"; "numero"; "number"], "riding_num");
    (["population"], "population");
    (["electors";
      String "195" (String "131" (String "194" (String "169" "lecteurs")))],
     "electors");
    (["voter turnout"; "participation"], "voter_participation_pct");
    (["elected candidate"], "elected_candidate") ].

(** The dict [col_map] as a list of its assignments, the latest first: a
    label found for two roles keeps the later one.  [if c:] skips the
    empty label. *)
Definition build_col_map (raw_cols : list string) : list (string * string) :=
  fold_left
    (fun col_map role =>
       match find_col_by_keywords (Some raw_cols) (fst role) with
       | Some (String a c) => (String a c, snd role) :: col_map
       | _ => col_map
       end)
    roles [].

(** [df.rename(columns=col_map)] *)
Definition rename_by (col_map : list (string * string)) (df : frame) : frame :=
  Frame (map (fun c => match find (fun kv => String.eqb (fst kv) c) col_map with
                       | Some kv => snd kv
                       | None => c
                       end) (columns df))
        (rows df).

(** [re.sub(r"\s+", "_", s)] *)
Fixpoint underscore_runs (in_run : bool) (s : string) : string :=
  match s with
  | EmptyString => EmptyString
  | String c s' =>
      if is_space c
      then (if in_run then underscore_runs true s'
            else String "_" (underscore_runs true s'))
      else String c (underscore_runs false s')
  end.

(** Lines 189-190 *)
Definition clean_riding_name (df : frame) : res frame :=
  if has_col df "riding_name"
  then series <- or_key_error "riding_name" (column df "riding_name") ;;
       Ok (set_column df "riding_name" (normalize_names series))
  else Ok df.

(** Lines 193-202: the id column is cleaned; without one it is made from
    the name; without a name the code prints a warning and goes on. *)
Definition clean_riding_num (df : frame) : res frame :=
  if has_col df "riding_num"
  then series <- or_key_error "riding_num" (column df "riding_num") ;;
       Ok (set_column df "riding_num" (id_text series))
  else if has_col df "riding_name"
       then series <- or_key_error "riding_name" (column df "riding_name") ;;
            Ok (set_column df "riding_num"
                  (map (fun v => VStr (underscore_runs false (py_str v)))
                       (normalize_names series)))
       else Ok df.

(** Lines 209-219 *)
Definition clean_turnout (df : frame) : res frame :=
  if has_col df "voter_participation_pct"
  then series <- or_key_error "voter_participation_pct"
                   (column df "voter_participation_pct") ;;
       Ok (set_column df "voter_participation_pct"
             (clean_voter_participation_pct series))
  else Ok df.

(** [load_federal_csv], lines 148-228 *)
Definition load_federal_csv (read : frame) : res frame :=
  let df := rename_by (build_col_map (columns read)) read in
  df1 <- clean_riding_name df ;;
  df2 <- clean_riding_num df1 ;;
  df3 <- ensure_year_numeric df2 ;;
  df4 <- clean_turnout df3 ;;
  or_key_error "riding_num" (add_geo_key_csv df4).

End Loaders.

(** ** [src/utils_mun.py]: loaders, years and summary *)

Section MunicipalTools.
Context {E : Env}.
Local Open Scope list_scope.

(** [for col in cols: if col in df.columns: df[col] = pd.to_numeric(...)] *)
Fixpoint numeric_where_present (cols : list string) (df : frame) : res frame :=
  match cols with
  | [] => Ok df
  | c :: cols' =>
      df1 <- (if has_col df c then map_column c to_numeric df else Ok df) ;;
      numeric_where_present cols' df1
  end.

(** Lines 42-50 and 73-81, the same in both loaders: the key columns made
    numeric, the rows with a null key dropped, the keys cast to [int]. *)
Definition normalize_keys (df : frame) : res frame :=
  df1 <- numeric_where_present ["Year"; "Ward"; "Sub"] df ;;
  df2 <- dropna ["Year"; "Ward"; "Sub"] df1 ;;
  df3 <- map_column "Year" as_int df2 ;;
  df4 <- map_column "Ward" as_int df3 ;;
  map_column "Sub" as_int df4.

(** [load_municipal_geometries], lines 42-50: the frame before it is
    reprojected. *)
Definition load_municipal_geometries (read : frame) : res frame :=
  normalize_keys read.

(** [load_municipal_turnout], lines 73-86 *)
Definition load_municipal_turnout (read : frame) : res frame :=
  df <- normalize_keys read ;;
  if has_col df "PctVoted" then map_column "PctVoted" to_numeric df else Ok df.

(** [int(x)] on the cells of [series.astype(int)] *)
Definition int_cell (v : value) : res Z :=
  match py_int v with
  | Some z => Ok z
  | None =>
      match v with
      | VStr _ => Raise (ValueError "invalid literal for int() with base 10")
      | _ => Raise (TypeError "int() argument must be a string or a real number")
      end
  end.

(** [sorted(df["Year"].dropna().astype(int).unique())] *)
Definition sorted_years (df : frame) : res (list Z) :=
  series <- or_key_error "Year" (column df "Year") ;;
  ints <- all_ok (map int_cell (filter (fun v => negb (isna v)) series)) ;;
  Ok (sort_by Z.leb (nodup Z.eq_dec ints)).

(** [get_available_years(turnout_df, gdf)]; [None] is Python's [None]. *)
Definition get_available_years (turnout_df gdf : option frame) : res (list Z) :=
  match turnout_df with
  | Some t =>
      if has_col t "Year" then sorted_years t
      else match gdf with
           | Some g => if has_col g "Year" then sorted_years g else Ok []
           | None => Ok []
           end
  | None =>
      match gdf with
      | Some g => if has_col g "Year" then sorted_years g else Ok []
      | None => Ok []
      end
  end.

(** The dict [compute_turnout_summary] returns. *)
Record summary : Type := Summary {
  summary_n : nat;
  summary_mean : option Q;
  summary_min : option Q;
  summary_max : option Q
}.

(** The numbers of a series without nulls; a text or a geometry makes the
    reductions raise. *)
Definition number_cell (v : value) : res Q :=
  match number_of v with
  | Some q => Ok q
  | None => Raise (TypeError "unsupported operand type(s)")
  end.

Definition Qsum (l : list Q) : Q := fold_right Qplus 0 l.

Definition Qleast (x : Q) (l : list Q) : Q :=
  fold_left (fun m y => if Qle_bool m y then m else y) l x.

Definition Qgreatest (x : Q) (l : list Q) : Q :=
  fold_left (fun m y => if Qle_bool y m then m else y) l x.

(** [compute_turnout_summary(df_year)] *)
Definition compute_turnout_summary (df_year : frame) : res summary :=
  let nothing := Summary (List.length (rows df_year)) None None None in
  match column df_year "PctVoted" with
  | None => Ok nothing
  | Some pct =>
      match filter (fun v => negb (isna v)) pct with
      | [] => Ok nothing
      | v :: vs =>
          x <- number_cell v ;;
          xs <- all_ok (map number_cell vs) ;;
          Ok (Summary (S (List.length xs))
                (Some (Qsum (x :: xs) / inject_Z (Z.of_nat (S (List.length xs)))))
                (Some (Qleast x xs))
                (Some (Qgreatest x xs)))
      end
  end.

End MunicipalTools.

(** ** 64-bit floats

    A float is carried by the rational it denotes.  Each operation of the
    program on floats gives the float nearest to the exact result, ties
    to the even one, as IEEE 754 has it; the range is not bounded above
    (no infinity). *)

Module Float64.

(** The integer nearest to [x], the even one of two that are as near. *)
Definition rne (x : Q) : Z :=
  let f := Qfloor x in
  match Qcompare (x - inject_Z f) (1 # 2) with
  | Lt => f
  | Gt => (f + 1)%Z
  | Eq => if Z.even f then f else (f + 1)%Z
  end.

(** [floor(log2 x)] for a positive [x] *)
Definition ilog2 (x : Q) : Z :=
  let e := (Z.log2 (Qnum x) - Z.log2 (Zpos (Qden x)))%Z in
  if Qle_bool (2 ^ e) x then e else (e - 1)%Z.

(** The float nearest to a positive [x]: 53 bits from the leading one,
    or down to [2^-1074] for a subnormal. *)
Definition round_pos (x : Q) : Q :=
  let e := Z.max (ilog2 x) (-1022) in
  let u := 2 ^ (e - 52) in
  Qred (inject_Z (rne (x / u)) * u).

(** The 64-bit float nearest to [x], ties to even; the range is not
    bounded above. *)
Definition round64 (x : Q) : Q :=
  match Qnum x with
  | Z0 => 0
  | Zpos _ => round_pos x
  | Zneg _ => - round_pos (- x)
  end.

End Float64.

(** ** [pages/3_Municipal_Map.py]: the colour of a subdivision *)

Section Colours.
Context {E : Env}.
Local Open Scope list_scope.

(** [int(x)] for a float *)
Definition trunc (x : Q) : Z := Z.quot (Qnum x) (Zpos (Qden x)).

(** [x + y], [x - y], [x * y] and [x / y] on floats *)
Definition fadd (x y : Q) : Q := Float64.round64 (x + y).
Definition fsub (x y : Q) : Q := Float64.round64 (x - y).
Definition fmul (x y : Q) : Q := Float64.round64 (x * y).
Definition fdiv (x y : Q) : Q := Float64.round64 (x / y).

(** [min(x, 1)] and [max(0, y)] as Python evaluates them *)
Definition at_most_one (x : Q) : Q := if Qle_bool x 1 then x else 1.
Definition at_least_zero (y : Q) : Q := if Qle_bool y 0 then 0 else y.

(** One channel of the interpolation: [int(a + (b - a) * t)], the
    difference of the two integers exact, the product and the sum
    rounded. *)
Definition blend (a b : Z) (t : Q) : Z :=
  trunc (fadd (inject_Z a) (fmul (inject_Z (b - a)) t)).

(** The colour of a turnout [p] that is a float. *)
Definition colour_of_ratio (p : Q) : list Z :=
  let p1 := fmul p 100 in
  let ratio := at_least_zero (at_most_one (fdiv p1 100)) in
  if Qle_bool (1 # 2) ratio
  then let t := fdiv (fsub ratio (1 # 2)) (1 # 2) in
       [blend 158 49 t; blend 202 130 t; blend 225 189 t]
  else let t := fdiv ratio (1 # 2) in
       [blend 222 158 t; blend 235 202 t; blend 247 225 t].

(** [turnout_to_color(p)]; the figure of a cell is taken as the float the
    cell holds. *)
Definition turnout_to_color (p : value) : res (list Z) :=
  if isna p then Ok [210; 210; 210]%Z
  else match number_of p with
       | Some x => Ok (colour_of_ratio (Float64.round64 x))
       | None => Raise (TypeError "unsupported operand type(s)")
       end.

End Colours.

(** ** [src/utils_pro.py]: dashes and the provincial join *)

Section ProvincialTools.
Context {E : Env}.
Local Open Scope list_scope.
Import PyStr.

(** The mis-decoded em and en dashes: a-circumflex, the euro sign, and a
    right or left double quotation mark, in UTF-8. *)
Definition em_dash_garbled : string :=
  String "195" (String "162" (String "226" (String "130" (String "172"
    (String "226" (String "128" (String "157" "")))))))%string.
Definition en_dash_garbled : string :=
  String "195" (String "162" (String "226" (String "130" (String "172"
    (String "226" (String "128" (String "156" "")))))))%string.

(** [clean_dashes(x)] *)
Definition clean_dashes (x : value) : value :=
  match x with
  | VStr s =>
      VStr (strip (replace "--" Provincial.em_dash
                     (replace en_dash_garbled Provincial.en_dash
                        (replace em_dash_garbled Provincial.em_dash s))))
  | _ => x
  end.

(** The list [toronto_districts] after line 63. *)
Definition toronto_districts : list string :=
  map Provincial.normalize_str
    ["beaches-east york"; "davenport"; "don valley east"; "don valley west";
     "don valley north"; "eglinton-lawrence"; "etobicoke centre";
     "etobicoke north"; "etobicoke-lakeshore"; "humber river-black creek";
     "parkdale-high park"; "scarborough centre"; "scarborough-agincourt";
     "scarborough-guildwood"; "scarborough north"; "scarborough-rouge park";
     "scarborough southwest"; "spadina-fort york"; "toronto-st. paul's";
     "toronto centre"; "toronto-danforth"; "university-rosedale";
     "willowdale"; "york centre"; "york south-weston"].

(** The output rows of [merge(left_on=..., right_on=..., how="left")] for
    one left row: the right key column stays in the output.  As in
    [join_row], the cells of the right row are carried over as values. *)
Definition join_row_on (li ri : nat) (rrows : list (list value))
    (width : nat) (lr : list value) : list (list value) :=
  match filter (fun rr => cell_eqb (cell ri rr) (cell li lr)) rrows with
  | [] => [lr ++ repeat VNaN width]
  | ms => map (fun rr => lr ++ rr) ms
  end.

(** [left.merge(right, left_on=lkey, right_on=rkey, how="left")] for two
    different labels *)
Definition merge_left_on (lkey rkey : string) (left right : frame) : res frame :=
  li <- or_key_error lkey (index_of lkey (columns left)) ;;
  ri <- or_key_error rkey (index_of rkey (columns right)) ;;
  let shared c := mem c (columns left) && mem c (columns right) in
  let lcols := map (fun c => if shared c then (c ++ "_x")%string else c)
                   (columns left) in
  let rcols := map (fun c => if shared c then (c ++ "_y")%string else c)
                   (columns right) in
  Ok (Frame (lcols ++ rcols)
        (flat_map (join_row_on li ri (rows right) (List.length rcols)) (rows left))).

(** [series.isin(toronto_districts)] on one cell *)
Definition in_toronto (v : value) : bool :=
  match v with
  | VStr s => mem s toronto_districts
  | _ => false
  end.

(** Lines 72-73: the results of the year, the district number made
    numeric. [prov_all] is the CSV after [clean_dashes] went over its two
    name columns. *)
Definition year_results (prov_all : frame) (year : Z) : res frame :=
  df <- or_key_error "year" (filter_eq_int "year" year prov_all) ;;
  map_column "ElectoralDistrictNumber" to_numeric df.

(** Lines 76-85: the shapes with a numeric [ED_ID] and a [name_clean]
    column, those of Toronto only. *)
Definition toronto_shapes (gdf_prov : frame) : res frame :=
  gdf <- map_column "ED_ID" to_numeric gdf_prov ;;
  names <- or_key_error "ENGLISH_NA" (column gdf "ENGLISH_NA") ;;
  let gdf1 := set_column gdf "name_clean"
                (map (fun v => VStr (Provincial.normalize_one v)) names) in
  ni <- or_key_error "name_clean" (index_of "name_clean" (columns gdf1)) ;;
  Ok (filter_rows (fun r => in_toronto (cell ni r)) gdf1).

(** [get_provincial_map(year)], with the two frames the module reads at
    import time as arguments. *)
Definition get_provincial_map (prov_all gdf_prov : frame) (year : Z) : res frame :=
  df <- year_results prov_all year ;;
  gdf <- toronto_shapes gdf_prov ;;
  merge_left_on "ED_ID" "ElectoralDistrictNumber" gdf df.

End ProvincialTools.

(** ** Vocabulary of the statements on the loaders and tools *)

Section MoreVocabulary.
Context {E : Env}.
Local Open Scope list_scope.

(** The row [r] with [h] applied to its cell at position [i]. *)
Definition update_cell (i : nat) (h : value -> value) (r : list value) : list value :=
  set_nth i (h (cell i r)) r.

(** Every cell of the series is an [int]; a number or a null; an [int]
    or a null. *)
Definition all_int (series : list value) : Prop :=
  Forall (fun v => exists z, v = VInt z) series.

(** The three key columns of a municipal frame hold ints only. *)
Definition int_keys (df : frame) : Prop :=
  forall c, In c ["Year"; "Ward"; "Sub"] ->
            exists series, column df c = Some series /\ all_int series.

(** The list is strictly increasing. *)
Fixpoint increasing (l : list Z) : Prop :=
  match l with
  | [] => True
  | x :: l' => match l' with
               | [] => True
               | y :: _ => (x < y)%Z
               end /\ increasing l'
  end.

(** A year cell as both federal loaders leave it: an [Int64] or a null. *)
Definition loader_year (v : value) : Prop :=
  isna v = true \/ exists z, v = VInt z.

End MoreVocabulary.

(** ** Vocabulary of the statements on [replace] *)

(** The texts [q] and [n] differ at a place both have. *)
Fixpoint clash (q n : string) : bool :=
  match q, n with
  | String a q', String b n' => negb (Ascii.eqb a b) || clash q' n'
  | _, _ => false
  end.

(** Every non-empty end of [q] clashes with [n]; [p] clashes with every
    non-empty end of [n]. *)
Fixpoint ends_clash (q n : string) : bool :=
  match q with
  | EmptyString => true
  | String _ q' => clash q n && ends_clash q' n
  end.

Fixpoint clash_ends (p n : string) : bool :=
  match n with
  | EmptyString => true
  | String _ n' => clash p n && clash_ends p n'
  end.

(** Wherever [p] starts in [s], [old] starts too. *)
Fixpoint guarded (old p s : string) : bool :=
  (PyStr.starts_with old s || negb (PyStr.starts_with p s))
  && match s with
     | EmptyString => true
     | String _ s' => guarded old p s'
     end.

(** The insertion of [new] for [old] can neither complete nor begin an
    occurrence of [p]. *)
Definition inert (new p : string) : bool := ends_clash p new && clash_ends p new.

(** ** Sources as the readers return them *)

Module Raw.
Import Grid.

#[local] Open Scope list_scope.

(** A geometry file before [load_gpkg]: labels with case and blanks, the
    year under [Election_Year], ids under [FEDNUM]. *)
Definition raw_gpkg : @frame grid :=
  Frame [" Election_Year"; "FEDNUM"; "ED_NAMEE "; "geometry"]
        [[VInt 2015; VInt 42; VStr "Toronto Centre"; cells [1%nat]];
         [VStr "2015"; VInt 7; VStr "Davenport"; cells [3%nat]];
         [VNaN; VInt 42; VStr "Toronto Centre"; cells [2%nat]]].

(** A results file before [load_federal_csv], read with [dtype=str]. *)
Definition raw_csv : @frame grid :=
  Frame ["Election Year"; "Electoral District Name";
         "Electoral District Number"; "Voter Turnout (%)"]
        [[VStr "2015"; VStr "Toronto  Centre"; VStr "42"; VStr "61,2 %"];
         [VStr "2011"; VStr "Davenport"; VStr "7.0"; VNaN]].

(** A results file without a riding column. *)
Definition raw_csv_unnamed : @frame grid :=
  Frame ["Province"; "Population"]
        [[VStr "Ontario"; VStr "100"]].

(** Municipal files before the loaders. *)
Definition raw_mun_gpkg : @frame grid :=
  Frame ["Year"; "Ward"; "Sub"; "geometry"]
        [[VInt 2018; VInt 1; VStr "1"; cells [1%nat]];
         [VInt 2018; VInt 1; VNum (2 # 1); cells [2%nat]];
         [VInt 2018; VNaN; VInt 3; cells [3%nat]];
         [VInt 2014; VInt 1; VInt 1; cells [1%nat]]].

Definition raw_mun_csv : @frame grid :=
  Frame ["Year"; "Ward"; "Sub"; "PctVoted"]
        [[VStr "2018"; VStr "1"; VStr "1"; VStr "0.5"];
         [VStr "2014"; VStr "1"; VStr "1"; VStr "n/a"];
         [VStr "2018"; VStr "x"; VStr "1"; VStr "0.25"]].

Definition raw_mun_wardless : @frame grid :=
  Frame ["Year"; "Sub"] [[VInt 2018; VInt 1]].

(** Provincial files: results of two years, shapes of three districts. *)
Definition prov_results : @frame grid :=
  Frame ["year"; "ElectoralDistrictNumber"; "ElectoralDistrictNameEnglish"]
        [[VInt 2022; VStr "18"; VStr "Davenport"];
         [VInt 2018; VStr "18"; VStr "Davenport"];
         [VInt 2022; VStr "82"; VStr "Ottawa Centre"]].

Definition prov_shapes : @frame grid :=
  Frame ["ED_ID"; "ENGLISH_NA"; "geometry"]
        [[VInt 18; VStr "Davenport"; cells [1%nat]];
         [VInt 82; VStr "Ottawa Centre"; cells [2%nat]];
         [VInt 112; VStr " Toronto Centre"; cells [3%nat]]].

(** [raw_gpkg] and [raw_csv] as the federal loaders return them. *)
Definition loaded_gpkg : @frame grid :=
  Frame ["year"; "fednum"; "ed_namee"; "geometry"; "riding_num"; "riding_name";
         "geo_key"]
        [[VInt 2015; VInt 42; VStr "Toronto Centre"; cells [1%nat];
          VStr "42"; VStr "Toronto Centre"; VStr "2015__42"];
         [VInt 2015; VInt 7; VStr "Davenport"; cells [3%nat];
          VStr "7"; VStr "Davenport"; VStr "2015__7"];
         [VNaN; VInt 42; VStr "Toronto Centre"; cells [2%nat];
          VStr "42"; VStr "Toronto Centre"; VStr "__42"]].

Definition loaded_csv : @frame grid :=
  Frame ["year"; "riding_name"; "riding_num"; "voter_participation_pct"; "geo_key"]
        [[VInt 2015; VStr "toronto centre"; VStr "42"; VNum (306 # 5);
          VStr "2015__42"];
         [VInt 2011; VStr "davenport"; VStr "7"; VNaN; VStr "2011__7"]].

(** The rows of 2015 of [loaded_gpkg], and what the join makes of them. *)
Definition loaded_view : @frame grid :=
  Frame (columns loaded_gpkg) (firstn 2 (rows loaded_gpkg)).

Definition loaded_merged : @frame grid :=
  Frame ["year_x"; "fednum"; "ed_namee"; "geometry"; "riding_num_x";
         "riding_name_x"; "geo_key"; "year_y"; "riding_name_y"; "riding_num_y";
         "voter_participation_pct"]
        [[VInt 2015; VInt 42; VStr "Toronto Centre"; cells [1%nat]; VStr "42";
          VStr "Toronto Centre"; VStr "2015__42"; VInt 2015;
          VStr "toronto centre"; VStr "42"; VNum (306 # 5)];
         [VInt 2015; VInt 7; VStr "Davenport"; cells [3%nat]; VStr "7";
          VStr "Davenport"; VStr "2015__7"; VNaN; VNaN; VNaN; VNaN]].

(** The municipal files as the loaders return them. *)
Definition loaded_mun_gpkg : @frame grid :=
  Frame ["Year"; "Ward"; "Sub"; "geometry"]
        [[VInt 2018; VInt 1; VInt 1; cells [1%nat]];
         [VInt 2018; VInt 1; VInt 2; cells [2%nat]];
         [VInt 2014; VInt 1; VInt 1; cells [1%nat]]].

Definition loaded_mun_csv : @frame grid :=
  Frame ["Year"; "Ward"; "Sub"; "PctVoted"]
        [[VInt 2018; VInt 1; VInt 1; VNum (1 # 2)];
         [VInt 2014; VInt 1; VInt 1; VNaN]].

(** The provincial map of 2022 for [prov_results] and [prov_shapes]. *)
Definition prov_map : @frame grid :=
  Frame ["ED_ID"; "ENGLISH_NA"; "geometry"; "name_clean"; "year";
         "ElectoralDistrictNumber"; "ElectoralDistrictNameEnglish"]
        [[VInt 18; VStr "Davenport"; cells [1%nat]; VStr "davenport";
          VInt 2022; VNum 18; VStr "Davenport"];
         [VInt 112; VStr " Toronto Centre"; cells [3%nat]; VStr "toronto centre";
          VNaN; VNaN; VNaN]].

End Raw.

(** * Properties *)

(** ** Text operations *)

Module PyStrFacts.
Import PyStr.

Ltac by_cases_on_char c :=
  destruct c as [[] [] [] [] [] [] [] []]; reflexivity.



Lemma is_digit_lower_char c : is_digit (lower_char c) = is_digit c.
Proof. by_cases_on_char c. Qed.







Lemma lstrip_fixed s : starts_ws s = false -> lstrip s = s.
Proof. destruct s as [|c s]; simpl; [trivial|]. now intros ->. Qed.

Lemma rstrip_fixed s : ends_ws s = false -> rstrip s = s.
Proof.
  unfold ends_ws. induction s as [|c s IH]; [trivial|].
  destruct s as [|d s]; cbn [last_char]; intros H.
  - simpl. now rewrite H.
  - cbn [rstrip]. cbn [rstrip] in IH. rewrite (IH H). reflexivity.
Qed.

Lemma starts_ws_lstrip s : starts_ws (lstrip s) = false.
Proof.
  induction s as [|c s IH]; simpl; [reflexivity|].
  destruct (is_space c) eqn:Hc; [exact IH | simpl; exact Hc].
Qed.

Lemma starts_ws_rstrip s : starts_ws s = false -> starts_ws (rstrip s) = false.
Proof.
  destruct s as [|c s]; simpl; [trivial|]. intros Hc.
  destruct (rstrip s); simpl; rewrite ?Hc; simpl; trivial.
Qed.

Lemma ends_ws_rstrip s : ends_ws (rstrip s) = false.
Proof.
  unfold ends_ws. induction s as [|c s IH]; simpl; [reflexivity|].
  destruct (rstrip s) as [|d r] eqn:Hr.
  - destruct (is_space c) eqn:Hc; simpl; [reflexivity | exact Hc].
  - change (last_char (String c (String d r))) with (last_char (String d r)).
    exact IH.
Qed.






End PyStrFacts.

(** ** The identifier normalizers *)

Section NormalizerFacts.
Context {E : Env}.
Import PyStr PyStrFacts.

Lemma strip_shape s : starts_ws (strip s) = false /\ ends_ws (strip s) = false.
Proof.
  unfold strip. split.
  - apply starts_ws_rstrip, starts_ws_lstrip.
  - apply ends_ws_rstrip.
Qed.

Lemma strip_fixed s : starts_ws s = false -> ends_ws s = false -> strip s = s.
Proof.
  intros Hs He. unfold strip. rewrite (lstrip_fixed s Hs). now apply rstrip_fixed.
Qed.



(** Null cells normalize to the empty text. *)
Lemma normalize_names_null :
  normalize_names [VNone; VNaN] = [VStr ""; VStr ""].
Proof. reflexivity. Qed.

(** C5 (the provincial normalizer): [normalize_one] is not idempotent.  On
    a name with three spaces in a row its single pass over pairs of spaces
    leaves two of them, which a second application reduces to one. *)
Theorem normalize_one_three_spaces :
  Provincial.normalize_one (VStr "a   b") = "a  b"
  /\ Provincial.normalize_one (VStr (Provincial.normalize_one (VStr "a   b"))) = "a b"
  /\ Provincial.normalize_one (VStr (Provincial.normalize_one (VStr "a   b")))
     <> Provincial.normalize_one (VStr "a   b").
Proof. repeat split; try reflexivity. discriminate. Qed.

End NormalizerFacts.

(** ** The schema resolver *)

Section ResolverFacts.
Context {E : Env}.
Import PyStr.
Local Open Scope list_scope.

Lemma starts_with_spec sub s :
  starts_with sub s = true <-> exists after, s = (sub ++ after)%string.
Proof.
  revert s; induction sub as [|a sub IH]; intros s; simpl.
  - split; [intros _; now exists s | trivial].
  - destruct s as [|b s].
    + split; [discriminate | intros [after H]; discriminate].
    + rewrite andb_true_iff, Ascii.eqb_eq, IH. split.
      * intros [-> [after ->]]. now exists after.
      * intros [after H]. injection H as -> ->. split; [trivial | now exists after].
Qed.

Lemma contains_spec sub s : contains sub s = true <-> occurs_in sub s.
Proof.
  unfold occurs_in. induction s as [|c s IH].
  - cbn [contains]. rewrite orb_false_r, starts_with_spec. split.
    + intros [after H]. now exists EmptyString, after.
    + intros [[|b before] [after H]]; [now exists after|discriminate].
  - cbn [contains]. rewrite orb_true_iff, starts_with_spec, IH. split.
    + intros [[after H] | [before [after H]]].
      * now exists EmptyString, after.
      * exists (String c before), after. simpl. now rewrite H.
    + intros [[|b before] [after H]].
      * left. now exists after.
      * right. simpl in H. injection H as -> ->. now exists before, after.
Qed.




(** On the headers of a turnout file, with two labels that match: the
    earlier column wins, whatever the order of the keywords. *)
Example find_col_by_keywords_tie :
  find_col_by_keywords (Some ["Province"; "Participation (%)"; "Voter Turnout %"])
      ["voter turnout"; "participation"] = Some "Participation (%)"
  /\ find_col_by_keywords (Some ["Province"; "Participation (%)"; "Voter Turnout %"])
      ["participation"; "voter turnout"] = Some "Participation (%)".
Proof. split; reflexivity. Qed.

End ResolverFacts.

(** ** The turnout-percentage parser *)

Section PercentFacts.
Context {E : Env}.
Import PyStr.
Local Open Scope list_scope.

Lemma has_digit_cons c s : has_digit (String c s) = is_digit c || has_digit s.
Proof. reflexivity. Qed.



Lemma span_digits_app ds rest :
  all_digits ds = true -> starts_digit rest = false ->
  span_digits (ds ++ rest)%string = (ds, rest).
Proof.
  intros Hd Hr. induction ds as [|c ds IH]; simpl.
  - destruct rest as [|r rest]; simpl in *; [reflexivity | now rewrite Hr].
  - simpl in Hd. apply andb_prop in Hd as [Hc Hd]. now rewrite Hc, (IH Hd).
Qed.











(** The first numeric token denotes one number only. *)
Lemma digit_run_split ds post ds' post' :
  all_digits ds = true -> starts_digit post = false ->
  all_digits ds' = true -> starts_digit post' = false ->
  (ds ++ post)%string = (ds' ++ post')%string -> ds = ds' /\ post = post'.
Proof.
  intros Hd Hp Hd' Hp' H.
  pose proof (span_digits_app ds post Hd Hp) as H1.
  pose proof (span_digits_app ds' post' Hd' Hp') as H2.
  rewrite H in H1. rewrite H1 in H2. now injection H2.
Qed.

Lemma prefix_split pre t pre' t' :
  has_digit pre = false -> starts_digit t = true ->
  has_digit pre' = false -> starts_digit t' = true ->
  (pre ++ t)%string = (pre' ++ t')%string -> pre = pre' /\ t = t'.
Proof.
  revert pre'. induction pre as [|c pre IH]; intros [|c' pre'] Hp Ht Hp' Ht' H; simpl in H.
  - auto.
  - subst t. simpl in Ht. rewrite has_digit_cons in Hp'.
    apply orb_false_elim in Hp' as [Hc _]. congruence.
  - subst t'. simpl in Ht'. rewrite has_digit_cons in Hp.
    apply orb_false_elim in Hp as [Hc _]. congruence.
  - injection H as -> H. rewrite has_digit_cons in Hp, Hp'.
    apply orb_false_elim in Hp as [_ Hp]. apply orb_false_elim in Hp' as [_ Hp'].
    destruct (IH pre' Hp Ht Hp' Ht' H) as [-> ->]. auto.
Qed.

Lemma starts_digit_run ds post : digit_run ds -> starts_digit (ds ++ post)%string = true.
Proof.
  intros [Hne Hd]. destruct ds as [|c ds]; [congruence|].
  simpl in *. now apply andb_prop in Hd as [Hc _].
Qed.

Lemma first_token_value_unique s q q' :
  first_token_value s q -> first_token_value s q' -> q == q'.
Proof.
  intros (pre & ds & post & Hs & Hp & Hrun & Hcase)
         (pre' & ds' & post' & Hs' & Hp' & Hrun' & Hcase').
  rewrite Hs in Hs'.
  destruct (prefix_split _ _ _ _ Hp (starts_digit_run ds post Hrun)
              Hp' (starts_digit_run ds' post' Hrun') Hs') as [-> Heq].
  assert (Hpost : starts_digit post = false).
  { destruct Hcase as [[H _] | (fs & rest & -> & _)]; [exact H | reflexivity]. }
  assert (Hpost' : starts_digit post' = false).
  { destruct Hcase' as [[H _] | (fs & rest & -> & _)]; [exact H | reflexivity]. }
  destruct (digit_run_split ds post ds' post' (proj2 Hrun) Hpost (proj2 Hrun') Hpost' Heq)
    as [-> ->].
  destruct Hcase as [(_ & Hno & Hq) | (fs & rest & Hpo & Hf & Hr & Hq)];
    destruct Hcase' as [(_ & Hno' & Hq') | (fs' & rest' & Hpo' & Hf' & Hr' & Hq')].
  - now rewrite Hq, Hq'.
  - exfalso. specialize (Hno _ Hpo'). rewrite (starts_digit_run fs' rest' Hf') in Hno.
    discriminate.
  - exfalso. specialize (Hno' _ Hpo). rewrite (starts_digit_run fs rest Hf) in Hno'.
    discriminate.
  - rewrite Hpo in Hpo'. injection Hpo' as Hpo'.
    destruct (digit_run_split fs rest fs' rest' (proj2 Hf) Hr (proj2 Hf') Hr' Hpo')
      as [-> ->].
    now rewrite Hq, Hq'.
Qed.

End PercentFacts.

(** ** The composite key *)

Section KeyFacts.
Context {E : Env}.
Import PyStr.
Local Open Scope list_scope.

(** A missing year gives an empty first component, in both loaders. *)
Lemma geo_key_missing_year (riding_num : value) :
  geo_key_csv VNaN riding_num = ("__" ++ strip (py_str riding_num))%string
  /\ geo_key_gpkg VNaN riding_num = ("__" ++ strip (py_str riding_num))%string.
Proof. split; reflexivity. Qed.

(** C3 (the district id): a missing id does not normalize to the empty
    text.  [str(None)] is the text [None], so the key of year 2015 with a
    missing id is [2015__None] in both loaders; [load_federal_csv] even
    turns the null words into [None] just before it builds that key. *)
Theorem geo_key_missing_id :
  geo_key_csv (VInt 2015) VNone = "2015__None"
  /\ geo_key_gpkg (VInt 2015) VNone = "2015__None"
  /\ add_geo_key_csv (Frame ["year"; "riding_num"] [[VInt 2015; VStr "nan"]])
     = Some (Frame ["year"; "riding_num"; "geo_key"]
               [[VInt 2015; VNone; VStr "2015__None"]]).
Proof. repeat split. Qed.

End KeyFacts.

(** ** [prepare_map_df]: what is raised, returned and written *)

Section EngineFacts.
Context {E : Env}.
Import PyStr.
Local Open Scope list_scope.

Lemma rows_normalize_year_naming gdf : rows (normalize_year_naming gdf) = rows gdf.
Proof. unfold normalize_year_naming. now destruct (_ && _). Qed.

Lemma has_col_index f c : has_col f c = true -> exists i, index_of c (columns f) = Some i.
Proof. unfold has_col. destruct (index_of c (columns f)); [eauto | discriminate]. Qed.

Lemma filter_nothing {A} (p : A -> bool) l :
  (forall x, In x l -> p x = false) -> filter p l = [].
Proof.
  induction l as [|x l IH]; simpl; [trivial|]. intros H.
  rewrite (H x (or_introl eq_refl)). apply IH. intros y Hy. apply H. now right.
Qed.

Lemma filter_eq_int_columns c n f v :
  filter_eq_int c n f = Some v -> columns v = columns f.
Proof.
  unfold filter_eq_int. destruct (index_of c (columns f)); [|discriminate].
  now intros [= <-].
Qed.

(** The geometry object of the caller is never written: the engine works
    on the renamed frame and on the filtered copy. *)
Lemma prepare_map_df_keeps_gdf_all gdf_all df_fed year hint :
  gdf_all_after (prepare_map_df gdf_all df_fed year hint) = gdf_all.
Proof.
  unfold prepare_map_df.
  destruct (filter_eq_int _ _ _) as [view|]; [|reflexivity].
  destruct (is_empty view); [reflexivity|].
  destruct (preferred_join view df_fed year) as [[r|] view1]; [reflexivity|].
  now destruct (fallback_join view1 df_fed year hint).
Qed.

(** When the preferred join returns, the turnout object of the caller is
    as it was. *)
Lemma preferred_join_keeps_df_fed gdf_all df_fed year hint view r :
  filter_eq_int "year" year (normalize_year_naming gdf_all) = Some view ->
  fst (preferred_join view df_fed year) = Some r ->
  df_fed_after (prepare_map_df gdf_all df_fed year hint) = df_fed.
Proof.
  intros Hv Hp. unfold prepare_map_df. rewrite Hv.
  destruct (is_empty view); [reflexivity|].
  destruct (preferred_join view df_fed year) as [[r'|] view1]; [reflexivity|].
  discriminate.
Qed.

(** C8 (the turnout source): on the fallback path the call writes the
    normalized join key into the caller's [df_fed].  With a name column
    that holds capitals and stray spaces, the object the caller passed in
    holds other texts after the call. *)
Theorem fallback_join_writes_df_fed :
  df_fed_after (prepare_map_df Grid.named_gdf Grid.named_df 2015 None)
  = Grid.named_df_written
  /\ Grid.named_df_written <> Grid.named_df.
Proof. split; [vm_compute; reflexivity | discriminate]. Qed.

(** C9: when the geometry source has a year column ([election_year]
    counts) and none of its rows is of the requested year, the call
    returns the empty view, a frame with the columns of the source and no
    row, and writes nothing. *)
Theorem prepare_map_df_empty_year gdf_all df_fed year hint :
  has_col (normalize_year_naming gdf_all) "year" = true ->
  (forall r, In r (rows gdf_all) ->
             eq_int (row_get (normalize_year_naming gdf_all) r "year") year = false) ->
  result (prepare_map_df gdf_all df_fed year hint)
  = Ok (Frame (columns (normalize_year_naming gdf_all)) [])
  /\ df_fed_after (prepare_map_df gdf_all df_fed year hint) = df_fed
  /\ gdf_all_after (prepare_map_df gdf_all df_fed year hint) = gdf_all.
Proof.
  intros Hy Hnone. apply has_col_index in Hy as [i Hi].
  unfold prepare_map_df, filter_eq_int. rewrite Hi.
  unfold filter_rows, is_empty. cbn [rows columns].
  rewrite filter_nothing; [auto|].
  intros r Hr. rewrite rows_normalize_year_naming in Hr.
  specialize (Hnone r Hr). unfold row_get in Hnone. now rewrite Hi in Hnone.
Qed.

Lemma columns_drop_empty_keys view : columns (drop_empty_keys view) = columns view.
Proof. unfold drop_empty_keys. now destruct (index_of _ _). Qed.

Lemma preferred_join_columns view df year :
  columns (snd (preferred_join view df year)) = columns view.
Proof.
  unfold preferred_join. destruct (_ && _); [|reflexivity].
  destruct (negb _); apply columns_drop_empty_keys.
Qed.

Lemma has_col_columns f g c : columns f = columns g -> has_col f c = has_col g c.
Proof. unfold has_col. now intros ->. Qed.

Lemma lower_lookup_some key cols c :
  lower_lookup key cols = Some c ->
  existsb (fun x => String.eqb (lower x) key) cols = true.
Proof.
  unfold lower_lookup. intros H. apply find_some in H as [Hin Hc].
  apply existsb_exists. exists c. split; [now apply in_rev | exact Hc].
Qed.

Lemma find_none_on {A} (p : A -> bool) l :
  (forall x, In x l -> p x = false) -> find p l = None.
Proof.
  induction l as [|x l IH]; simpl; [trivial|]. intros H.
  rewrite (H x (or_introl eq_refl)). apply IH. intros y Hy. apply H. now right.
Qed.

Lemma detect_join_key_none gdf df :
  (forall key, In key candidate_keys ->
     shared_label gdf df key = false /\ shared_ignoring_case gdf df key = false) ->
  detect_join_key gdf df = NoKey.
Proof.
  intros H. unfold detect_join_key.
  rewrite find_none_on.
  2:{ intros key Hk. apply H. unfold candidate_keys. simpl in *. intuition. }
  assert (Hci : forall key, In key candidate_keys ->
            match lower_lookup key (columns gdf), lower_lookup key (columns df) with
            | Some g, Some d => Some (KeyPair g d)
            | _, _ => None
            end = None).
  { intros key Hk. destruct (H key Hk) as [_ Hc]. unfold shared_ignoring_case in Hc.
    destruct (lower_lookup key (columns gdf)) as [g|] eqn:Hg; [|reflexivity].
    destruct (lower_lookup key (columns df)) as [d|] eqn:Hd; [|reflexivity].
    apply lower_lookup_some in Hg, Hd. rewrite Hg, Hd in Hc. discriminate. }
  cbn [first_some].
  rewrite (Hci "riding_id"), (Hci "riding_name"), (Hci "name");
    unfold candidate_keys; simpl; auto.
Qed.

(** C4 (as amended): on the fallback path, when the hint, if there is one,
    is not a label of both sides and no candidate key is a label of both
    sides, by exact match or up to case, the call raises [ValueError] with
    the message [No valid join key found.], and writes nothing. *)
Theorem no_join_key_raises gdf_all df_fed year hint view :
  filter_eq_int "year" year (normalize_year_naming gdf_all) = Some view ->
  is_empty view = false ->
  fst (preferred_join view df_fed year) = None ->
  (forall h, hint = Some h -> shared_label view df_fed h = false) ->
  (forall key, In key candidate_keys ->
     shared_label view df_fed key = false
     /\ shared_ignoring_case view df_fed key = false) ->
  result (prepare_map_df gdf_all df_fed year hint)
  = Raise (ValueError "No valid join key found.")
  /\ df_fed_after (prepare_map_df gdf_all df_fed year hint) = df_fed.
Proof.
  intros Hv Hne Hp Hh Hk. unfold prepare_map_df. rewrite Hv, Hne.
  pose proof (preferred_join_columns view df_fed year) as Hcols.
  destruct (preferred_join view df_fed year) as [[r|] view1]; [discriminate|].
  cbn [snd] in Hcols.
  assert (Hshared : forall key, shared_label view1 df_fed key = shared_label view df_fed key).
  { intros key. unfold shared_label. now rewrite (has_col_columns view1 view key Hcols). }
  unfold fallback_join, choose_join_key.
  rewrite find_none_on.
  - rewrite detect_join_key_none; [split; reflexivity|].
    intros key Hin. destruct (Hk key Hin) as [H1 H2]. split.
    + now rewrite Hshared.
    + unfold shared_ignoring_case in *. now rewrite Hcols.
  - intros key Hin. fold (shared_label view1 df_fed key). rewrite Hshared.
    unfold preferred_keys in Hin. apply in_app_or in Hin as [Hin | Hin].
    + destruct hint as [[|c h]|]; try contradiction.
      destruct Hin as [<- | []]. now apply Hh.
    + now apply Hk.
Qed.

End EngineFacts.

(** ** Lists, cells and frames *)

Section FrameFacts.
Context {E : Env}.
Local Open Scope list_scope.

Lemma value_eqb_eq a b : value_eqb a b = true <-> a = b.
Proof. unfold value_eqb. destruct (value_eq_dec a b); split; congruence. Qed.

Lemma value_eqb_refl a : value_eqb a a = true.
Proof. now apply value_eqb_eq. Qed.

Lemma index_of_lt c cols i : index_of c cols = Some i -> (i < List.length cols)%nat.
Proof.
  revert i; induction cols as [|x cols IH]; intros i; simpl; [discriminate|].
  destruct (String.eqb c x).
  - intros [= <-]. lia.
  - destruct (index_of c cols) as [j|]; [|discriminate].
    intros [= <-]. specialize (IH j eq_refl). lia.
Qed.

Lemma index_of_inj a b cols i :
  index_of a cols = Some i -> index_of b cols = Some i -> a = b.
Proof.
  revert i; induction cols as [|x cols IH]; intros i; simpl; [discriminate|].
  destruct (String.eqb a x) eqn:Ha, (String.eqb b x) eqn:Hb.
  - apply String.eqb_eq in Ha, Hb. congruence.
  - intros [= <-]. destruct (index_of b cols); discriminate.
  - destruct (index_of a cols); [|discriminate]. intros [= <-]. discriminate.
  - destruct (index_of a cols) as [j|]; [|discriminate].
    destruct (index_of b cols) as [k|]; [|discriminate].
    intros [= <-] [= ->]. now apply (IH j).
Qed.

Lemma index_of_head c cols : index_of c (c :: cols) = Some 0%nat.
Proof. simpl. now rewrite String.eqb_refl. Qed.

Lemma index_of_second a c cols : c <> a -> index_of c (a :: c :: cols) = Some 1%nat.
Proof.
  intros H. simpl. rewrite String.eqb_refl.
  destruct (String.eqb c a) eqn:Hc; [apply String.eqb_eq in Hc; contradiction | reflexivity].
Qed.

Lemma length_set_nth i v r : List.length (set_nth i v r) = List.length r.
Proof.
  revert i; induction r as [|x r IH]; intros [|i]; simpl; auto.
Qed.

Lemma cell_set_nth_eq i v r : (i < List.length r)%nat -> cell i (set_nth i v r) = v.
Proof.
  unfold cell. revert i; induction r as [|x r IH]; intros [|i]; simpl; try lia; auto.
  intros H. apply IH. lia.
Qed.

Lemma cell_set_nth_ne i j v r : i <> j -> cell j (set_nth i v r) = cell j r.
Proof.
  unfold cell. revert i j; induction r as [|x r IH]; intros [|i] [|j]; simpl; auto;
    try congruence.
Qed.

Lemma cell_app_l i (r t : list value) : (i < List.length r)%nat -> cell i (r ++ t) = cell i r.
Proof. intros H. unfold cell. now apply app_nth1. Qed.

Lemma cell_notna_lt i r : isna (cell i r) = false -> (i < List.length r)%nat.
Proof.
  unfold cell. intros H. destruct (Nat.lt_ge_cases i (List.length r)) as [|Hge]; [trivial|].
  rewrite (nth_overflow r VNaN Hge) in H. discriminate.
Qed.

(** The stable sort rearranges its input. *)
Lemma insert_sorted_perm {A} (leb : A -> A -> bool) x l :
  Permutation (insert_sorted leb x l) (x :: l).
Proof.
  induction l as [|y l IH]; simpl; [reflexivity|].
  destruct (leb x y); [reflexivity|].
  rewrite IH. apply perm_swap.
Qed.

Lemma sort_by_perm {A} (leb : A -> A -> bool) l : Permutation (sort_by leb l) l.
Proof.
  unfold sort_by. induction l as [|x l IH]; simpl; [reflexivity|].
  rewrite insert_sorted_perm. now constructor.
Qed.

Lemma has_duplicates_false ks : has_duplicates ks = false <-> NoDup ks.
Proof.
  induction ks as [|k ks IH]; simpl.
  - split; [constructor | trivial].
  - rewrite orb_false_iff, IH. split.
    + intros [Hk Hn]. constructor; [|exact Hn].
      intros Hin. assert (existsb (value_eqb k) ks = true); [|congruence].
      apply existsb_exists. exists k. split; [exact Hin | apply value_eqb_refl].
    + intros H. inversion H as [|? ? Hk Hn]; subst. split; [|exact Hn].
      destruct (existsb (value_eqb k) ks) eqn:Hex; [|reflexivity].
      apply existsb_exists in Hex as [x [Hin Hx]].
      apply value_eqb_eq in Hx. subst x. contradiction.
Qed.

Lemma group_keys_NoDup ks : NoDup (group_keys ks).
Proof.
  unfold group_keys.
  apply (Permutation_NoDup (Permutation_sym (sort_by_perm _ _))), NoDup_nodup.
Qed.

Lemma group_keys_In ks k : In k (group_keys ks) <-> In k ks /\ isna k = false.
Proof.
  unfold group_keys. split.
  - intros H. apply (Permutation_in _ (sort_by_perm _ _)) in H.
    apply nodup_In, filter_In in H as [Hin Hk].
    split; [exact Hin | now apply negb_true_iff].
  - intros [Hin Hk]. apply (Permutation_in _ (Permutation_sym (sort_by_perm _ _))).
    apply nodup_In, filter_In. split; [exact Hin | now apply negb_true_iff].
Qed.

Lemma groupby_keys ki rs : map fst (groupby ki rs) = group_keys (map (cell ki) rs).
Proof. unfold groupby. rewrite map_map. simpl. apply map_id. Qed.

Lemma groupby_In ki rs g :
  In g (groupby ki rs) ->
  In (fst g) (group_keys (map (cell ki) rs))
  /\ snd g = filter (fun r => value_eqb (cell ki r) (fst g)) rs.
Proof.
  unfold groupby. intros H. apply in_map_iff in H as [k [<- Hk]]. auto.
Qed.

End FrameFacts.

(** ** The deduplication step *)

Section DedupFacts.
Context {E : Env}.
Local Open Scope list_scope.

Lemma column_at f c i : index_of c (columns f) = Some i -> column f c = Some (map (cell i) (rows f)).
Proof. unfold column. now intros ->. Qed.

Lemma row_get_at f r c i : index_of c (columns f) = Some i -> row_get f r c = cell i r.
Proof. unfold row_get. now intros ->. Qed.

Lemma geoms_of_projection ki gi js k rs :
  geoms_of 1 (filter (fun x => value_eqb (cell 0 x) k)
                     (map (fun r => map (fun i => cell i r) (ki :: gi :: js)) rs))
  = geoms_of gi (filter (fun x => value_eqb (cell ki x) k) rs).
Proof.
  unfold geoms_of. induction rs as [|r rs IH]; [reflexivity|].
  cbn [map filter]. change (cell 0 (cell ki r :: cell gi r :: map (fun i => cell i r) js))
    with (cell ki r).
  destruct (value_eqb (cell ki r) k); [|exact IH].
  cbn [flat_map]. f_equal. exact IH.
Qed.

(** What a successful [dissolve] returns: the sorted group keys in the
    first column and the union of each group in the second. *)
Lemma try_dissolve_spec key rest view out :
  key <> "geometry" ->
  try_dissolve key (key :: "geometry" :: rest) view = Some out ->
  exists ki gi others,
    index_of key (columns view) = Some ki
    /\ index_of "geometry" (columns view) = Some gi
    /\ columns out = key :: "geometry" :: others
    /\ others = filter (fun c => negb (String.eqb c key) && negb (String.eqb c "geometry"))
                       (key :: "geometry" :: rest)
    /\ map (cell 0) (rows out) = group_keys (map (cell ki) (rows view))
    /\ Forall (fun r => cell 1 r
                        = VGeom (union_all (geoms_of gi
                             (filter (fun x => value_eqb (cell ki x) (cell 0 r)) (rows view)))))
              (rows out).
Proof.
  intros Hkey. unfold try_dissolve, select. cbn [indices_of].
  destruct (index_of key (columns view)) as [ki|]; [|discriminate].
  destruct (index_of "geometry" (columns view)) as [gi|]; [|discriminate].
  destruct (indices_of rest (columns view)) as [js|]; [|discriminate].
  unfold dissolve. cbn [columns rows].
  rewrite index_of_head, (index_of_second key "geometry" rest (not_eq_sym Hkey)).
  destruct (dissolve_raises _); [discriminate|].
  destruct (indices_of _ _) as [ois|]; [|discriminate].
  intros [= <-]. exists ki, gi. eexists. repeat split; cbn [columns rows].
  - rewrite map_map. cbn [cell nth]. change (fun x : value * list (list value) => fst x)
      with (@fst value (list (list value))).
    rewrite groupby_keys, map_map. reflexivity.
  - apply Forall_forall. intros r Hr. apply in_map_iff in Hr as [g [<- Hg]].
    apply groupby_In in Hg as [_ Hg]. rewrite Hg.
    change (cell 1 (?a :: ?b :: ?c)) with b. change (cell 0 (?a :: ?c)) with a.
    do 2 f_equal. exact (geoms_of_projection ki gi js (fst g) (rows view)).
Qed.

Lemma group_head_in ki rs g :
  In g (groupby ki rs) ->
  In (hd [] (snd g)) rs /\ cell ki (hd [] (snd g)) = fst g.
Proof.
  intros Hg. apply groupby_In in Hg as [Hk Hs].
  apply group_keys_In in Hk as [Hin _]. apply in_map_iff in Hin as [r0 [Hr0 Hin]].
  assert (Hf : In r0 (snd g)).
  { rewrite Hs. apply filter_In. split; [exact Hin | now apply value_eqb_eq]. }
  destruct (snd g) as [|r1 grp] eqn:Hgrp; [contradiction|].
  assert (H1 : In r1 (filter (fun r => value_eqb (cell ki r) (fst g)) rs))
    by (rewrite <- Hs; now left).
  apply filter_In in H1 as [H1 H2]. apply value_eqb_eq in H2. now split.
Qed.

(** What the manual union returns: the same, with the columns of the
    view. *)
Lemma manual_union_spec key view out :
  rectangular view -> key <> "geometry" ->
  manual_union key view = Ok out ->
  exists ki gi,
    index_of key (columns view) = Some ki
    /\ index_of "geometry" (columns view) = Some gi
    /\ columns out = columns view
    /\ map (cell ki) (rows out) = group_keys (map (cell ki) (rows view))
    /\ Forall (fun r => cell gi r
                        = VGeom (union_all (geoms_of gi
                             (filter (fun x => value_eqb (cell ki x) (cell ki r)) (rows view)))))
              (rows out).
Proof.
  intros Hrect Hkey. unfold manual_union.
  destruct (index_of key (columns view)) as [ki|] eqn:Hki; [|discriminate].
  destruct (index_of "geometry" (columns view)) as [gi|] eqn:Hgi; [|discriminate].
  intros [= <-]. exists ki, gi. cbn [columns rows].
  assert (Hne : ki <> gi).
  { intros ->. apply Hkey. exact (index_of_inj _ _ _ _ Hki Hgi). }
  assert (Hlen : forall g, In g (groupby ki (rows view)) ->
            (ki < List.length (hd [] (snd g)))%nat /\ (gi < List.length (hd [] (snd g)))%nat).
  { intros g Hg. apply group_head_in in Hg as [Hin _].
    unfold rectangular in Hrect. rewrite Forall_forall in Hrect.
    rewrite (Hrect _ Hin). split; eapply index_of_lt; eassumption. }
  assert (Hcell : forall g, In g (groupby ki (rows view)) ->
            cell ki (set_nth ki (fst g)
                       (set_nth gi (VGeom (union_all (geoms_of gi (snd g)))) (hd [] (snd g))))
            = fst g).
  { intros g Hg. apply cell_set_nth_eq. rewrite length_set_nth. now apply Hlen. }
  repeat split; trivial.
  - rewrite map_map, <- groupby_keys. apply map_ext_in. exact Hcell.
  - apply Forall_forall. intros r Hr. apply in_map_iff in Hr as [g [<- Hg]].
    rewrite (Hcell g Hg), (cell_set_nth_ne ki gi) by exact Hne.
    rewrite cell_set_nth_eq by now apply Hlen.
    apply groupby_In in Hg as [_ Hg]. now rewrite <- Hg.
Qed.

Lemma try_dissolve_has_year key view d :
  key <> "geometry" ->
  try_dissolve key [key; "geometry"; "year"] view = Some d ->
  has_col d "year" = true.
Proof.
  intros Hkey Ht.
  destruct (try_dissolve_spec key ["year"] view d Hkey Ht)
    as (ki & gi & others & _ & _ & Hcols & Hoth & _).
  unfold has_col. rewrite Hcols, Hoth. cbn [filter].
  rewrite String.eqb_refl. cbn [negb andb].
  rewrite andb_false_r.
  change (String.eqb "year" "geometry") with false. cbn [negb]. rewrite andb_true_r.
  cbn [index_of].
  destruct (String.eqb "year" key) eqn:Hy; [reflexivity|].
  change (String.eqb "year" "geometry") with false. cbn [negb filter index_of].
  now rewrite String.eqb_refl.
Qed.

Lemma dissolve_duplicates_fallback_form view year :
  has_col view "year" = true ->
  dissolve_duplicates view = remove_duplicate_polygons "geo_key" year view.
Proof.
  intros Hy. unfold dissolve_duplicates, remove_duplicate_polygons. rewrite Hy.
  destruct (column view "geo_key") as [ks|]; [|reflexivity]. cbn [or_key_error bind app].
  destruct (has_duplicates ks); [|reflexivity].
  destruct (try_dissolve _ _ view) as [d|] eqn:Ht; [|reflexivity].
  rewrite (try_dissolve_has_year "geo_key" view d); [reflexivity | discriminate | exact Ht].
Qed.

Lemma remove_duplicate_polygons_spec key year view out :
  rectangular view -> key <> "geometry" -> has_col view "year" = true ->
  remove_duplicate_polygons key year view = Ok out ->
  exists before_keys after_keys,
    column view key = Some before_keys
    /\ column out key = Some after_keys
    /\ NoDup after_keys
    /\ List.length (nodup value_eq_dec after_keys) = List.length (rows out)
    /\ (forall k, isna k = false -> (In k before_keys <-> In k after_keys))
    /\ (has_duplicates before_keys = false -> out = view)
    /\ (has_duplicates before_keys = true ->
        forall r, In r (rows out) ->
          row_get out r "geometry"
          = VGeom (union_all (group_geoms key view (row_get out r key)))).
Proof.
  intros Hrect Hkey Hy. unfold remove_duplicate_polygons. rewrite Hy.
  destruct (column view key) as [ks|] eqn:Hcol; [|discriminate].
  cbn [or_key_error bind app].
  assert (Hks : forall ki, index_of key (columns view) = Some ki ->
                           ks = map (cell ki) (rows view)).
  { intros ki Hki. rewrite (column_at _ _ _ Hki) in Hcol. congruence. }
  destruct (has_duplicates ks) eqn:Hdup.
  - assert (Hgroups : forall ko go ki gi,
              index_of key (columns view) = Some ki ->
              index_of "geometry" (columns view) = Some gi ->
              index_of key (columns out) = Some ko ->
              index_of "geometry" (columns out) = Some go ->
              map (cell ko) (rows out) = group_keys (map (cell ki) (rows view)) ->
              Forall (fun r => cell go r
                        = VGeom (union_all (geoms_of gi
                            (filter (fun x => value_eqb (cell ki x) (cell ko r)) (rows view)))))
                     (rows out) ->
              exists before_keys after_keys,
                Some ks = Some before_keys
                /\ column out key = Some after_keys
                /\ NoDup after_keys
                /\ List.length (nodup value_eq_dec after_keys) = List.length (rows out)
                /\ (forall k, isna k = false -> (In k before_keys <-> In k after_keys))
                /\ (has_duplicates before_keys = false -> out = view)
                /\ (has_duplicates before_keys = true ->
                    forall r, In r (rows out) ->
                      row_get out r "geometry"
                      = VGeom (union_all (group_geoms key view (row_get out r key))))).
    { intros ko go ki gi Hki Hgi Hko Hgo Hkeys Hgeo.
      exists ks, (group_keys ks). rewrite (Hks ki Hki) in *.
      split; [reflexivity|]. split; [rewrite (column_at _ _ _ Hko); congruence|].
      split; [apply group_keys_NoDup|].
      split.
      { rewrite (nodup_fixed_point _ (group_keys_NoDup _)), <- Hkeys. apply length_map. }
      split.
      { intros k Hk. rewrite group_keys_In. tauto. }
      split; [congruence|]. intros _ r Hr.
      rewrite (row_get_at _ _ _ _ Hgo), (row_get_at _ _ _ _ Hko).
      unfold group_geoms. rewrite Hki, Hgi.
      rewrite Forall_forall in Hgeo. now apply Hgeo. }
    destruct (try_dissolve key _ view) as [d|] eqn:Ht.
    + rewrite (try_dissolve_has_year key view d Hkey Ht). intros [= <-].
      destruct (try_dissolve_spec key ["year"] view d Hkey Ht)
        as (ki & gi & others & Hki & Hgi & Hcols & _ & Hkeys & Hgeo).
      apply (Hgroups 0%nat 1%nat ki gi); trivial; rewrite Hcols.
      * apply index_of_head.
      * apply index_of_second. congruence.
    + intros Hm.
      destruct (manual_union_spec key view out Hrect Hkey Hm)
        as (ki & gi & Hki & Hgi & Hcols & Hkeys & Hgeo).
      apply (Hgroups ki gi ki gi); trivial; now rewrite Hcols.
  - intros [= <-]. exists ks, ks. apply has_duplicates_false in Hdup as Hnd.
    repeat split; trivial; try tauto.
    + rewrite (nodup_fixed_point _ Hnd).
      unfold column in Hcol. destruct (index_of key (columns view)); [|discriminate].
      injection Hcol as <-. apply length_map.
    + congruence.
Qed.

(** C2: after the deduplication step of either path, whether [dissolve]
    returned or raised, the key column holds every key once: the number of
    distinct keys is the number of rows, and the keys that are not null
    are those of the input.  When the input had a repeated key, the
    geometry of every row is the union of the input geometries with the
    key of that row; when it had none, the step leaves the view as it
    is. *)
Theorem deduplication_one_row_per_key key year view out :
  rectangular view -> key <> "geometry" -> has_col view "year" = true ->
  (key = "geo_key" /\ dissolve_duplicates view = Ok out)
  \/ remove_duplicate_polygons key year view = Ok out ->
  exists before_keys after_keys,
    column view key = Some before_keys
    /\ column out key = Some after_keys
    /\ NoDup after_keys
    /\ List.length (nodup value_eq_dec after_keys) = List.length (rows out)
    /\ (forall k, isna k = false -> (In k before_keys <-> In k after_keys))
    /\ (has_duplicates before_keys = false -> out = view)
    /\ (has_duplicates before_keys = true ->
        forall r, In r (rows out) ->
          row_get out r "geometry"
          = VGeom (union_all (group_geoms key view (row_get out r key)))).
Proof.
  intros Hrect Hkey Hy [[-> Hd] | Hr].
  - rewrite (dissolve_duplicates_fallback_form view year Hy) in Hd.
    now apply (remove_duplicate_polygons_spec "geo_key" year).
  - now apply (remove_duplicate_polygons_spec key year).
Qed.

End DedupFacts.

(** ** The left merge and the simplification *)

Section MergeFacts.
Context {E : Env}.
Local Open Scope list_scope.

Lemma join_row_prefix lps rps rrows width lr m :
  In m (join_row lps rps rrows width lr) -> exists tail, m = lr ++ tail.
Proof.
  unfold join_row. destruct (filter _ rrows) as [|t ms].
  - intros [<- | []]. eauto.
  - intros H. apply in_map_iff in H as [rr [<- _]]. eauto.
Qed.

Lemma join_row_nonempty lps rps rrows width lr :
  (1 <= List.length (join_row lps rps rrows width lr))%nat.
Proof.
  unfold join_row. destruct (filter _ rrows) as [|t ms]; simpl; lia.
Qed.

Lemma join_row_unmatched lps rps rrows width lr :
  (forall rr, In rr rrows -> key_eqb (key_of rps rr) (key_of lps lr) = false) ->
  join_row lps rps rrows width lr = [lr ++ repeat VNaN width].
Proof.
  intros H. unfold join_row. now rewrite filter_nothing.
Qed.

Lemma length_flat_map_ge {A B} (f : A -> list B) l :
  (forall x, 1 <= List.length (f x))%nat ->
  (List.length l <= List.length (flat_map f l))%nat.
Proof.
  intros H. induction l as [|x l IH]; simpl; [lia|].
  rewrite length_app. specialize (H x). lia.
Qed.

(** The shape of a left merge without validation. *)
Lemma merge_left_spec on left right merged :
  merge_left false on left right = Ok merged ->
  exists lps rps,
    positions on (columns left) = Ok lps
    /\ positions on (columns right) = Ok rps
    /\ rows merged
       = flat_map (join_row lps rps (rows right)
                     (List.length (remove_at rps (columns right)))) (rows left)
    /\ columns merged
       = map (fun c => if negb (mem c on) && mem c (columns left) && mem c (columns right)
                       then (c ++ "_x")%string else c) (columns left)
         ++ map (fun c => if negb (mem c on) && mem c (columns left) && mem c (columns right)
                          then (c ++ "_y")%string else c) (remove_at rps (columns right)).
Proof.
  unfold merge_left.
  destruct (positions on (columns left)) as [lps|]; [|discriminate].
  destruct (positions on (columns right)) as [rps|]; [|discriminate].
  cbn [bind andb]. intros [= <-]. exists lps, rps. cbn [rows columns].
  rewrite length_map. auto.
Qed.

Lemma positions_single key cols i :
  index_of key cols = Some i -> positions [key] cols = Ok [i].
Proof. intros H. cbn [positions]. now rewrite H. Qed.

Lemma all_some_length {A} (l : list (option A)) vals :
  all_some l = Some vals -> List.length vals = List.length l.
Proof.
  revert vals; induction l as [|[a|] l IH]; intros vals; simpl; try discriminate.
  - now intros [= <-].
  - destruct (all_some l) as [vs|]; [|discriminate].
    intros [= <-]. simpl. now rewrite (IH vs eq_refl).
Qed.

Lemma zip_set_nth_rows gi vals (rs : list (list value)) :
  List.length vals = List.length rs ->
  Forall2 (fun m' m => forall i, i <> gi -> cell i m' = cell i m)
          (zip_with (set_nth gi) vals rs) rs.
Proof.
  revert vals; induction rs as [|r rs IH]; intros [|v vals]; simpl; try discriminate.
  - constructor.
  - intros [= H]. constructor; [|now apply IH].
    intros i Hi. apply cell_set_nth_ne. congruence.
Qed.

(** The simplification keeps the columns and the rows, and changes no
    cell outside the geometry column. *)
Lemma simplify_geometry_spec merged :
  columns (simplify_geometry merged) = columns merged
  /\ Forall2 (fun m' m => forall i, Some i <> index_of "geometry" (columns merged) ->
                                    cell i m' = cell i m)
             (rows (simplify_geometry merged)) (rows merged).
Proof.
  assert (Hsame : Forall2 (fun m' m : list value =>
             forall i, Some i <> index_of "geometry" (columns merged) -> cell i m' = cell i m)
             (rows merged) (rows merged)).
  { induction (rows merged); constructor; auto. }
  unfold simplify_geometry.
  destruct (index_of "geometry" (columns merged)) as [gi|] eqn:Hgi; [|auto].
  destruct (all_some _) as [vals|] eqn:Hv; [|auto].
  unfold set_column. rewrite Hgi. cbn [columns rows]. split; [reflexivity|].
  apply all_some_length in Hv. rewrite length_map in Hv.
  eapply Forall2_impl; [|apply (zip_set_nth_rows gi vals (rows merged) Hv)].
  intros a b H i Hi. apply H. congruence.
Qed.

Lemma Forall2_right_in {A B} (R : A -> B -> Prop) l l' b :
  Forall2 R l l' -> In b l' -> exists a, In a l /\ R a b.
Proof.
  induction 1 as [|x y l l' Hxy _ IH]; [intros []|].
  intros [<- | Hin].
  - exists x. split; [now left | exact Hxy].
  - destruct (IH Hin) as [a [Ha Hr]]. exists a. split; [now right | exact Hr].
Qed.

Lemma Forall2_left_in {A B} (R : A -> B -> Prop) l l' a :
  Forall2 R l l' -> In a l -> exists b, In b l' /\ R a b.
Proof.
  induction 1 as [|x y l l' Hxy _ IH]; [intros []|].
  intros [<- | Hin].
  - exists y. split; [now left | exact Hxy].
  - destruct (IH Hin) as [b [Hb Hr]]. exists b. split; [now right | exact Hr].
Qed.

Lemma cell_eqb_same_key a b : cell_eqb a b = true <-> same_key a b.
Proof.
  unfold cell_eqb, same_key. split.
  - destruct (number_of a) as [x|] eqn:Ha, (number_of b) as [y|] eqn:Hb;
      try discriminate.
    + intros H. apply Qeq_bool_iff in H. right. right. eauto.
    + rewrite orb_true_iff, andb_true_iff, value_eqb_eq. tauto.
  - intros [-> | [[Hna Hnb] | (x & y & Ha & Hb & Hxy)]].
    + destruct (number_of b); [apply Qeq_bool_iff; reflexivity|].
      rewrite value_eqb_refl. apply orb_true_r.
    + destruct a, b; try discriminate; reflexivity.
    + rewrite Ha, Hb. now apply Qeq_bool_iff.
Qed.

Lemma alike_refl a : alike a a.
Proof. now left. Qed.

Lemma picked_filter {A} (P : A -> Prop) (p : A -> bool) l :
  (forall x, p x = true <-> P x) -> picked P l (filter p l).
Proof.
  intros Hp. induction l as [|x l IH]; simpl; [constructor|].
  destruct (p x) eqn:Hx.
  - constructor; [now apply Hp | exact IH].
  - apply picked_skip; [|exact IH]. intros HP. apply Hp in HP. congruence.
Qed.

Lemma remove_at_after {A} (j s : nat) (t : list A) :
  (j < s)%nat ->
  map snd (filter (fun p => negb (existsb (Nat.eqb (fst p)) [j]))
             (combine (seq s (List.length t)) t)) = t.
Proof.
  revert s. induction t as [|x t IH]; intros s Hs; [reflexivity|].
  cbn [List.length seq combine filter fst existsb].
  destruct (Nat.eqb_spec s j); [lia|]. cbn [orb negb map snd]. f_equal. apply IH. lia.
Qed.

Lemma remove_at_from {A} (j s : nat) (t : list A) :
  (s <= j)%nat ->
  map snd (filter (fun p => negb (existsb (Nat.eqb (fst p)) [j]))
             (combine (seq s (List.length t)) t)) = without (j - s) t.
Proof.
  unfold without. revert s. induction t as [|x t IH]; intros s Hs.
  - cbn. now rewrite firstn_nil.
  - cbn [List.length seq combine filter fst existsb].
    destruct (Nat.eqb_spec s j) as [->|Hne].
    + cbn [orb negb]. rewrite Nat.sub_diag. cbn [firstn skipn app].
      apply remove_at_after. lia.
    + cbn [orb negb map snd]. replace (j - s)%nat with (S (j - S s)) by lia.
      cbn [firstn skipn app]. f_equal. apply IH. lia.
Qed.

(** Removing one position is leaving it out. *)
Lemma remove_at_single {A} (k : nat) (t : list A) : remove_at [k] t = without k t.
Proof.
  unfold remove_at. rewrite (remove_at_from k 0 t) by lia. now rewrite Nat.sub_0_r.
Qed.

Lemma length_without {A} (k : nat) (t : list A) :
  (k < List.length t)%nat -> List.length (without k t) = (List.length t - 1)%nat.
Proof.
  intros H. unfold without. rewrite length_app, length_firstn, length_skipn. lia.
Qed.

(** The rows a left merge on one key makes of one left row are its
    block. *)
Lemma join_row_block lk rk width right l :
  left_block lk rk width right l (join_row [lk] [rk] right width l).
Proof.
  unfold left_block, join_row.
  exists (filter (fun rr => key_eqb (key_of [rk] rr) (key_of [lk] l)) right).
  split.
  - apply picked_filter. intros t. cbn [key_of map key_eqb].
    rewrite andb_true_r. apply cell_eqb_same_key.
  - destruct (filter _ right) as [|t ts]; [reflexivity|].
    apply map_ext. intros rr. now rewrite remove_at_single.
Qed.

Lemma Forall2_concat_split {A B} (R : A -> B -> Prop) xs (bs : list (list B)) :
  Forall2 R xs (List.concat bs) ->
  exists xss, xs = List.concat xss /\ Forall2 (Forall2 R) xss bs.
Proof.
  revert xs. induction bs as [|b bs IH]; intros xs H; simpl in H.
  - inversion H. exists []. split; [reflexivity | constructor].
  - apply Forall2_app_inv_r in H as (x1 & x2 & H1 & H2 & ->).
    destruct (IH _ H2) as (xss & -> & Hx).
    exists (x1 :: xss). split; [reflexivity | now constructor].
Qed.

Lemma Forall2_map_right {A B C} (R : C -> B -> Prop) (f : A -> B) l xs :
  Forall2 R xs (map f l) -> Forall2 (fun a x => R x (f a)) l xs.
Proof.
  revert xs. induction l as [|a l IH]; intros xs H; simpl in H; inversion H; subst.
  - constructor.
  - constructor; [assumption | now apply IH].
Qed.

(** Simplification touches the geometry cell of each row and nothing
    else. *)
Lemma simplify_geometry_cells merged :
  columns (simplify_geometry merged) = columns merged
  /\ Forall2 (fun m e =>
       List.length m = List.length e
       /\ forall i,
            (Some i = index_of "geometry" (columns merged) ->
             cell i m = cell i e
             \/ exists g g', cell i e = VGeom g /\ simplify g = Some g'
                              /\ cell i m = VGeom g')
            /\ (Some i <> index_of "geometry" (columns merged) ->
                cell i m = cell i e))
       (rows (simplify_geometry merged)) (rows merged).
Proof.
  assert (Hsame : Forall2 (fun m e : list value =>
       List.length m = List.length e
       /\ forall i,
            (Some i = index_of "geometry" (columns merged) ->
             cell i m = cell i e
             \/ exists g g', cell i e = VGeom g /\ simplify g = Some g'
                              /\ cell i m = VGeom g')
            /\ (Some i <> index_of "geometry" (columns merged) ->
                cell i m = cell i e))
       (rows merged) (rows merged)).
  { induction (rows merged); constructor; auto. }
  unfold simplify_geometry.
  destruct (index_of "geometry" (columns merged)) as [gi|] eqn:Hgi; [|auto].
  destruct (all_some _) as [vals|] eqn:Hv; [|auto].
  unfold set_column. rewrite Hgi. cbn [columns rows]. split; [reflexivity|].
  clear Hsame. revert vals Hv. induction (rows merged) as [|r rs IH]; intros vals Hv.
  - simpl in Hv. injection Hv as <-. constructor.
  - cbn [map all_some] in Hv.
    destruct (match cell gi r with
              | VGeom g => option_map VGeom (simplify g)
              | VNone => Some VNone
              | VNaN => Some VNaN
              | _ => None
              end) as [v|] eqn:Hcell; [|discriminate].
    destruct (all_some _) as [vs|] eqn:Hvs; [|discriminate].
    cbn [option_map] in Hv. injection Hv as <-. cbn [zip_with]. constructor.
    + split; [apply length_set_nth|]. intros i. split.
      * intros [= ->].
        destruct (Nat.lt_ge_cases gi (List.length r)) as [Hlt|Hge].
        -- rewrite cell_set_nth_eq by exact Hlt.
           destruct (cell gi r) as [| | | | |g] eqn:Hc; try discriminate.
           ++ injection Hcell as <-. now left.
           ++ injection Hcell as <-. now left.
           ++ destruct (simplify g) as [g'|] eqn:Hs; [|discriminate].
              injection Hcell as <-. right. eauto.
        -- left. unfold cell. rewrite !nth_overflow; trivial.
           now rewrite length_set_nth.
      * intros Hne. apply cell_set_nth_ne. congruence.
    + now apply IH.
Qed.

End MergeFacts.

(** ** The preferred join *)

Section PreferredFacts.
Context {E : Env}.
Local Open Scope list_scope.

Lemma rectangular_sub f f' :
  rectangular f ->
  List.length (columns f') = List.length (columns f) ->
  (forall r, In r (rows f') -> In r (rows f)) ->
  rectangular f'.
Proof.
  unfold rectangular. rewrite !Forall_forall. intros H Hc Hr r Hin.
  rewrite Hc. apply H, Hr, Hin.
Qed.

Lemma rectangular_year_view gdf_all year view :
  rectangular gdf_all ->
  filter_eq_int "year" year (normalize_year_naming gdf_all) = Some view ->
  rectangular view.
Proof.
  intros Hrect Hv. apply (rectangular_sub gdf_all); [exact Hrect| |].
  - rewrite (filter_eq_int_columns _ _ _ _ Hv). unfold normalize_year_naming.
    destruct (_ && _); [|reflexivity]. unfold rename. cbn [columns]. apply length_map.
  - unfold filter_eq_int in Hv. destruct (index_of _ _); [|discriminate].
    injection Hv as <-. cbn [rows filter_rows]. intros r Hr.
    apply filter_In in Hr as [Hr _]. now rewrite rows_normalize_year_naming in Hr.
Qed.

Lemma drop_empty_keys_rows view r :
  In r (rows (drop_empty_keys view)) <->
  In r (rows view)
  /\ (has_col view "geo_key" = true -> py_str (row_get view r "geo_key") <> EmptyString).
Proof.
  unfold drop_empty_keys, has_col, row_get.
  destruct (index_of "geo_key" (columns view)) as [ki|].
  - cbn [rows filter_rows]. rewrite filter_In. split.
    + intros [Hr Hl]. split; [exact Hr|]. intros _ He. rewrite He in Hl. discriminate.
    + intros [Hr Hl]. split; [exact Hr|].
      destruct (py_str (cell ki r)); [now contradiction Hl | reflexivity].
  - split; [intros H; split; [exact H | discriminate] | tauto].
Qed.

Lemma dissolve_duplicates_ok view :
  has_col view "geo_key" = true -> has_col view "geometry" = true ->
  exists d, dissolve_duplicates view = Ok d.
Proof.
  intros Hk Hg. unfold dissolve_duplicates.
  apply has_col_index in Hk as [ki Hki]. apply has_col_index in Hg as [gi Hgi].
  rewrite (column_at _ _ _ Hki). cbn [or_key_error bind].
  destruct (has_duplicates _); [|eauto].
  destruct (try_dissolve _ _ _); [eauto|].
  unfold manual_union. rewrite Hki, Hgi. eauto.
Qed.

Lemma suffix_x_not_geo_key c : (c ++ "_x")%string <> "geo_key".
Proof.
  intros H.
  do 5 (destruct c as [|? c]; [discriminate H|]; simpl in H; injection H as _ H).
  destruct c as [|? c]; [discriminate H|]. simpl in H. injection H as _ H.
  destruct c as [|? c]; [discriminate H|]. simpl in H. injection H as _ H.
  destruct c; discriminate H.
Qed.

Lemma index_of_map_app key (f : string -> string) cols more i :
  (forall c, In c cols -> String.eqb key (f c) = String.eqb key c) ->
  index_of key cols = Some i ->
  index_of key (map f cols ++ more) = Some i.
Proof.
  revert i; induction cols as [|c cols IH]; intros i Hf; [discriminate|].
  cbn [map app index_of]. rewrite (Hf c (or_introl eq_refl)).
  destruct (String.eqb key c); [trivial|].
  destruct (index_of key cols) as [j|]; [|discriminate].
  intros [= <-]. rewrite (IH j); [reflexivity | | reflexivity].
  intros x Hx. apply Hf. now right.
Qed.

(** The key column keeps its place in the merged frame. *)
Lemma merged_key_position left right merged ko :
  merge_left false ["geo_key"] left right = Ok merged ->
  index_of "geo_key" (columns left) = Some ko ->
  index_of "geo_key" (columns merged) = Some ko.
Proof.
  intros Hm Hko. destruct (merge_left_spec _ _ _ _ Hm) as (lps & rps & _ & _ & _ & Hc).
  rewrite Hc. apply index_of_map_app; [|exact Hko].
  intros c _. destruct (String.eqb "geo_key" c) eqn:Hc'.
  - apply String.eqb_eq in Hc'. subst c. reflexivity.
  - destruct (_ && _); [|exact Hc'].
    destruct (String.eqb "geo_key" (c ++ "_x")) eqn:Hx; [|reflexivity].
    apply String.eqb_eq in Hx. symmetry in Hx. now apply suffix_x_not_geo_key in Hx.
Qed.

Lemma cell_app_nulls j (g : list value) n :
  (List.length g <= j)%nat -> cell j (g ++ repeat VNaN n) = VNaN.
Proof.
  intros H. unfold cell. rewrite app_nth2 by lia.
  destruct (Nat.lt_ge_cases (j - List.length g) n) as [Hlt|Hge].
  - now rewrite nth_repeat_lt.
  - apply nth_overflow. now rewrite repeat_length.
Qed.

(** C1 (as amended): on the preferred path the call returns the left
    merge of the deduplicated geometry of the year with the turnout of
    the year on [geo_key], its geometry simplified where that succeeds.
    The result has at least as many rows as the deduplicated geometry;
    every key of the year's geometry that is neither null nor empty is
    the key of a row of the result; its labels are those of the geometry
    followed by those of the turnout without the key, a shared label with
    [_x] and [_y]; and its rows are, for each deduplicated geometry row in
    turn, that row followed by the cells of each turnout row of the year
    that has its key, in the order of the turnout, or by nulls where no
    turnout row has it. *)
Theorem preferred_join_keeps_geometry gdf_all df_fed year hint view :
  rectangular gdf_all ->
  filter_eq_int "year" year (normalize_year_naming gdf_all) = Some view ->
  has_col view "geo_key" = true ->
  has_col df_fed "geo_key" = true ->
  has_col df_fed "year" = true ->
  has_col view "geometry" = true ->
  is_empty (drop_empty_keys view) = false ->
  exists deduplicated df_year out lk rk blocks,
    dissolve_duplicates (drop_empty_keys view) = Ok deduplicated
    /\ filter_eq_int "year" year df_fed = Some df_year
    /\ result (prepare_map_df gdf_all df_fed year hint) = Ok out
    /\ (List.length (rows deduplicated) <= List.length (rows out))%nat
    /\ (forall r, In r (rows view) ->
          isna (row_get view r "geo_key") = false ->
          py_str (row_get view r "geo_key") <> EmptyString ->
          exists m, In m (rows out)
                    /\ row_get out m "geo_key" = row_get view r "geo_key")
    /\ index_of "geo_key" (columns deduplicated) = Some lk
    /\ index_of "geo_key" (columns df_year) = Some rk
    /\ columns out
       = merged_labels "geo_key" rk (columns deduplicated) (columns df_year)
    /\ rows out = List.concat blocks
    /\ Forall2 (fun l block =>
         exists expected,
           left_block lk rk (List.length (columns df_year) - 1) (rows df_year)
                      l expected
           /\ Forall2 (delivered (index_of "geometry" (columns out)) (List.length l))
                      block expected)
         (rows deduplicated) blocks.
Proof.
  intros Hrect Hv Hgk Hdk Hdy Hgeo Hne.
  pose proof (rectangular_year_view _ _ _ Hrect Hv) as Hrv.
  set (view1 := drop_empty_keys view) in *.
  assert (Hc1 : columns view1 = columns view) by apply columns_drop_empty_keys.
  assert (Hrows1 : forall r, In r (rows view1) -> In r (rows view)).
  { intros r Hr. now apply drop_empty_keys_rows in Hr. }
  assert (Hr1 : rectangular view1).
  { apply (rectangular_sub view); [exact Hrv | now rewrite Hc1 | exact Hrows1]. }
  assert (Hy1 : has_col view1 "year" = true).
  { rewrite (has_col_columns view1 view _ Hc1). unfold has_col.
    rewrite (filter_eq_int_columns _ _ _ _ Hv).
    unfold filter_eq_int in Hv. now destruct (index_of "year" _). }
  assert (Hview_ne : is_empty view = false).
  { unfold is_empty in *. destruct (rows view) as [|r0 rs] eqn:Hrs; [|reflexivity].
    destruct (rows view1) as [|r1 rs1] eqn:Hrs1; [discriminate|].
    exfalso. apply (Hrows1 r1). now left. }
  destruct (dissolve_duplicates_ok view1) as [dd Hdd];
    [now rewrite (has_col_columns view1 view _ Hc1)
    |now rewrite (has_col_columns view1 view _ Hc1)|].
  destruct (has_col_index _ _ Hdy) as [yi Hyi].
  assert (Hfy : filter_eq_int "year" year df_fed
                = Some (filter_rows (fun r => eq_int (cell yi r) year) df_fed)).
  { unfold filter_eq_int. now rewrite Hyi. }
  set (df_year := filter_rows (fun r => eq_int (cell yi r) year) df_fed) in *.
  pose proof Hdd as Hspec.
  rewrite (dissolve_duplicates_fallback_form view1 year Hy1) in Hspec.
  apply (remove_duplicate_polygons_spec "geo_key" year view1 dd Hr1) in Hspec;
    [|discriminate|exact Hy1].
  destruct Hspec as (bk & ak & Hbk & Hak & _ & _ & Hiff & _ & _).
  assert (Hko : exists ko, index_of "geo_key" (columns dd) = Some ko).
  { unfold column in Hak. destruct (index_of "geo_key" (columns dd)); [eauto|discriminate]. }
  destruct Hko as [ko Hko].
  destruct (has_col_index _ _ Hdk) as [ri Hri].
  assert (Hri' : index_of "geo_key" (columns df_year) = Some ri) by exact Hri.
  assert (Hm : exists merged, merge_left false ["geo_key"] dd df_year = Ok merged).
  { unfold merge_left. rewrite (positions_single _ _ _ Hko).
    cbn [bind]. rewrite (positions_single _ _ _ Hri'). cbn [bind andb]. eauto. }
  destruct Hm as [merged Hm].
  assert (Hres : result (prepare_map_df gdf_all df_fed year hint)
                 = Ok (simplify_geometry merged)).
  { unfold prepare_map_df. rewrite Hv, Hview_ne. unfold preferred_join.
    rewrite Hgk, Hdk. cbn [andb]. fold view1. rewrite Hne. cbn [negb result].
    unfold preferred_merge. rewrite Hfy. cbn [or_key_error bind].
    rewrite Hdd. cbn [bind]. now rewrite Hm. }
  destruct (merge_left_spec _ _ _ _ Hm) as (lps & rps & Hlps & Hrps & Hrows & Hcols).
  rewrite (positions_single _ _ _ Hko) in Hlps. injection Hlps as <-.
  rewrite (positions_single _ _ _ Hri') in Hrps. injection Hrps as <-.
  destruct (simplify_geometry_cells merged) as [Hsc Hsr].
  set (out := simplify_geometry merged) in *.
  rewrite remove_at_single in Hrows, Hcols.
  assert (Hwidth : List.length (without ri (columns df_year))
                   = (List.length (columns df_year) - 1)%nat).
  { apply length_without. exact (index_of_lt _ _ _ Hri'). }
  rewrite Hwidth in Hrows.
  set (width := (List.length (columns df_year) - 1)%nat) in *.
  assert (Hout_key : index_of "geo_key" (columns out) = Some ko).
  { rewrite Hsc. exact (merged_key_position _ _ _ _ Hm Hko). }
  rewrite flat_map_concat_map in Hrows. rewrite Hrows in Hsr.
  destruct (Forall2_concat_split _ _ _ Hsr) as (blocks & Hout & Hblocks).
  apply Forall2_map_right in Hblocks.
  assert (Hdeliver : Forall2 (fun l block =>
            Forall2 (delivered (index_of "geometry" (columns out)) (List.length l))
                    block (join_row [ko] [ri] (rows df_year) width l))
            (rows dd) blocks).
  { eapply Forall2_impl; [|exact Hblocks]. intros l block Hb.
    eapply Forall2_impl; [|exact Hb]. intros m e [Hlen Hcells].
    split; [exact Hlen|]. intros i. rewrite Hsc. split.
    - apply Hcells.
    - intros Hi. split; intros _; [|left]; now apply Hcells. }
  assert (Hrow : forall g, In g (rows dd) -> (ko < List.length g)%nat ->
            exists m, In m (rows out) /\ cell ko m = cell ko g).
  { intros g Hg Hlt.
    destruct (Forall2_left_in _ _ _ _ Hdeliver Hg) as (block & Hbin & Hb).
    destruct (join_row [ko] [ri] (rows df_year) width g) as [|e es] eqn:Hjr.
    { pose proof (join_row_nonempty [ko] [ri] (rows df_year) width g) as Hn.
      rewrite Hjr in Hn. simpl in Hn. lia. }
    assert (Hin0 : In e (join_row [ko] [ri] (rows df_year) width g))
      by (rewrite Hjr; now left).
    destruct (join_row_prefix _ _ _ _ _ _ Hin0) as [tail Htail].
    inversion Hb as [|m e' ms es' [_ Hme] _ Heq1 Heq2]; subst.
    exists m. split.
    - rewrite Hout. apply in_concat. exists (m :: ms). split; [exact Hbin | now left].
    - destruct (Hme ko) as [_ Hk].
      assert (Hng : Some ko <> index_of "geometry" (columns out)).
      { intros Heq. symmetry in Heq.
        pose proof (index_of_inj _ _ _ _ Hout_key Heq). discriminate. }
      destruct (Hk Hng) as [Hleft _]. rewrite (Hleft Hlt). now apply cell_app_l. }
  exists dd, df_year, out, ko, ri, blocks.
  split; [exact Hdd|]. split; [exact Hfy|]. split; [exact Hres|].
  split; [|split; [|split; [exact Hko|split; [exact Hri'|split; [|split; [exact Hout|]]]]]].
  - rewrite Hout.
    clear - Hdeliver. induction Hdeliver as [|l b ls bs Hlb _ IH]; simpl; [lia|].
    rewrite length_app. apply Forall2_length in Hlb.
    pose proof (join_row_nonempty [ko] [ri] (rows df_year) width l). lia.
  - intros r Hr Hna Hstr.
    destruct (has_col_index _ _ Hgk) as [ki Hki].
    rewrite (row_get_at view r "geo_key" ki) in * by exact Hki.
    assert (Hin1 : In r (rows view1)).
    { apply drop_empty_keys_rows. split; [exact Hr|]. intros _.
      now rewrite (row_get_at view r "geo_key" ki) by exact Hki. }
    assert (Hki1 : index_of "geo_key" (columns view1) = Some ki) by now rewrite Hc1.
    rewrite (column_at _ _ _ Hki1) in Hbk. injection Hbk as <-.
    rewrite (column_at _ _ _ Hko) in Hak. injection Hak as <-.
    assert (Hink : In (cell ki r) (map (cell ko) (rows dd))).
    { apply (Hiff _ Hna). apply in_map_iff. eauto. }
    apply in_map_iff in Hink as [g [Hgk' Hg]].
    destruct (Hrow g Hg) as [m [Hmin Hcell]].
    { apply cell_notna_lt. now rewrite Hgk'. }
    exists m. split; [exact Hmin|].
    rewrite (row_get_at out m "geo_key" ko) by exact Hout_key.
    now rewrite <- Hgk'.
  - rewrite Hsc, Hcols. unfold merged_labels. f_equal; apply map_ext; intros c;
      cbn [mem existsb]; now rewrite orb_false_r.
  - eapply Forall2_impl; [|exact Hdeliver]. intros l block Hb.
    exists (join_row [ko] [ri] (rows df_year) width l).
    split; [apply join_row_block | exact Hb].
Qed.

End PreferredFacts.

(** ** The municipal year join *)

Section MunicipalFacts.
Context {E : Env}.
Local Open Scope list_scope.

Lemma cell_eqb_join x y z :
  cell_eqb x z = true -> cell_eqb y z = true -> cell_eqb x y = true.
Proof.
  unfold cell_eqb.
  destruct (number_of x) as [a|], (number_of y) as [b|], (number_of z) as [c|];
    try discriminate.
  - rewrite !Qeq_bool_iff. intros H1 H2. now rewrite H1, H2.
  - rewrite !orb_true_iff, !andb_true_iff, !value_eqb_eq.
    intros [[Hx Hz] | ->] [[Hy Hz'] | ->]; auto.
Qed.

Lemma key_eqb_join a b k :
  key_eqb a k = true -> key_eqb b k = true -> key_eqb a b = true.
Proof.
  revert b k; induction a as [|x a IH]; intros [|y b] [|z k]; simpl;
    try discriminate; trivial.
  rewrite !andb_true_iff. intros [H1 H2] [H3 H4]. split.
  - exact (cell_eqb_join x y z H1 H3).
  - exact (IH b k H2 H4).
Qed.

(** With unique keys on the right, a left key matches at most one row. *)
Lemma unique_keys_match_once (key : list value -> list value) rrows k :
  keys_unique (map key rrows) = true ->
  (List.length (filter (fun rr => key_eqb (key rr) k) rrows) <= 1)%nat.
Proof.
  induction rrows as [|r rrows IH]; simpl; [lia|].
  rewrite andb_true_iff, negb_true_iff. intros [Hr Hu].
  destruct (key_eqb (key r) k) eqn:Hk; [|now apply IH].
  rewrite filter_nothing; [simpl; lia|].
  intros rr Hin. destruct (key_eqb (key rr) k) eqn:Hrr; [|reflexivity].
  assert (existsb (key_eqb (key r)) (map key rrows) = true); [|congruence].
  apply existsb_exists. exists (key rr). split; [now apply in_map|].
  exact (key_eqb_join _ _ _ Hk Hrr).
Qed.

Lemma map_column_spec c f df df' :
  map_column c f df = Ok df' ->
  exists i, index_of c (columns df) = Some i /\ columns df' = columns df.
Proof.
  unfold map_column, column, set_column.
  destruct (index_of c (columns df)) as [i|]; [|discriminate].
  cbn [or_key_error bind]. intros [= <-]. eauto.
Qed.

Lemma dropna_columns cols df df' : dropna cols df = Ok df' -> columns df' = columns df.
Proof.
  unfold dropna. destruct (positions cols (columns df)); [|discriminate].
  cbn [bind]. now intros [= <-].
Qed.

Ltac step H :=
  match type of H with
  | bind ?m _ = Ok _ =>
      let x := fresh "f" in
      let e := fresh "Hstep" in
      destruct m as [x|] eqn:e; [cbn [bind] in H | discriminate H]
  end.

Ltac replay :=
  repeat match goal with
         | H : ?m = Ok _ |- context [bind ?m _] => rewrite H; cbn [bind]
         end.

Lemma year_side_columns year df d :
  year_side year df = Ok d ->
  columns d = columns df
  /\ exists yi wi si, positions ["Year"; "Ward"; "Sub"] (columns d) = Ok [yi; wi; si].
Proof.
  unfold year_side. intros H. repeat step H.
  assert (Hc0 : columns f = columns df).
  { unfold or_key_error in Hstep. destruct (filter_eq_int "Year" year df) eqn:Hf;
      [|discriminate]. injection Hstep as <-. exact (filter_eq_int_columns _ _ _ _ Hf). }
  assert (Hy : exists yi, index_of "Year" (columns df) = Some yi).
  { unfold or_key_error, filter_eq_int in Hstep.
    destruct (index_of "Year" (columns df)); [eauto | discriminate]. }
  destruct (map_column_spec _ _ _ _ Hstep0) as [wi [Hwi Hc1]].
  destruct (map_column_spec _ _ _ _ Hstep1) as [si [Hsi Hc2]].
  pose proof (dropna_columns _ _ _ Hstep2) as Hc3.
  destruct (map_column_spec _ _ _ _ Hstep3) as [_ [_ Hc4]].
  destruct (map_column_spec _ _ _ _ H) as [_ [_ Hc5]].
  assert (Hc : columns d = columns df) by congruence.
  split; [exact Hc|]. destruct Hy as [yi Hyi].
  exists yi, wi, si. rewrite Hc. cbn [positions].
  rewrite Hyi. rewrite <- Hc0, Hwi. rewrite <- Hc1, Hsi. reflexivity.
Qed.

Lemma positions_three a b c cols ps :
  positions [a; b; c] cols = Ok ps ->
  exists i j k, ps = [i; j; k] /\ index_of a cols = Some i
                /\ index_of b cols = Some j /\ index_of c cols = Some k.
Proof.
  cbn [positions].
  destruct (index_of a cols) as [i|]; [|discriminate].
  destruct (index_of b cols) as [j|]; [|discriminate].
  destruct (index_of c cols) as [k|]; [|discriminate].
  cbn [or_key_error bind]. intros [= <-]. now exists i, j, k.
Qed.

Lemma filter_map_comm {A B} (p : B -> bool) (f : A -> B) l :
  filter p (map f l) = map f (filter (fun x => p (f x)) l).
Proof.
  induction l as [|x l IH]; simpl; [reflexivity|].
  destruct (p (f x)); simpl; now rewrite IH.
Qed.

Lemma Forall2_flat_map_single {A B} (R : B -> A -> Prop) (f : A -> list B) l :
  (forall x, In x l -> exists o, f x = [o] /\ R o x) ->
  Forall2 R (flat_map f l) l.
Proof.
  induction l as [|x l IH]; intros H; simpl; [constructor|].
  destruct (H x (or_introl eq_refl)) as [o [-> Ho]]. simpl.
  constructor; [exact Ho|]. apply IH. intros y Hy. apply H. now right.
Qed.

(** The join is the validated merge of the two aligned sides. *)
Lemma prepare_municipal_as_sides year geom_gdf turnout_df g t :
  year_side year geom_gdf = Ok g ->
  year_side year turnout_df = Ok t ->
  prepare_municipal_year_gdf year geom_gdf turnout_df
  = (t_cols <- or_key_error "PctVoted" (select ["Year"; "Ward"; "Sub"; "PctVoted"] t) ;;
     merge_left true ["Year"; "Ward"; "Sub"] g t_cols).
Proof.
  unfold year_side. intros Hg Ht. repeat step Hg. repeat step Ht.
  unfold prepare_municipal_year_gdf. replay. reflexivity.
Qed.

Lemma prepare_municipal_sides_ok year geom_gdf turnout_df out :
  prepare_municipal_year_gdf year geom_gdf turnout_df = Ok out ->
  exists g t, year_side year geom_gdf = Ok g /\ year_side year turnout_df = Ok t.
Proof.
  unfold prepare_municipal_year_gdf. intros H. repeat step H.
  unfold year_side. replay. eauto.
Qed.

(** C10: the merge is validated as one-to-one on [(Year, Ward, Sub)].
    With both sides aligned as the code aligns them, a repeated key on
    either side makes the call raise (a merge error when the turnout side
    has [PctVoted]); when the call returns, the keys of both sides are
    unique and the output has one row per geometry row, in order: that row
    followed by the [PctVoted] of the only turnout row with its key, or by
    a null.  A call that returns has both sides aligned. *)
Theorem municipal_join_one_to_one year geom_gdf turnout_df :
  (forall g t,
      year_side year geom_gdf = Ok g ->
      year_side year turnout_df = Ok t ->
      exists gk tk,
        municipal_keys g = Some gk
        /\ municipal_keys t = Some tk
        /\ (keys_unique gk = false \/ keys_unique tk = false ->
            exists e, prepare_municipal_year_gdf year geom_gdf turnout_df = Raise e
                      /\ (has_col t "PctVoted" = true -> exists msg, e = MergeError msg))
        /\ (forall out,
              prepare_municipal_year_gdf year geom_gdf turnout_df = Ok out ->
              keys_unique gk = true /\ keys_unique tk = true
              /\ Forall2 (joined_row g t) (rows out) (rows g)))
  /\ (forall out,
        prepare_municipal_year_gdf year geom_gdf turnout_df = Ok out ->
        exists g t, year_side year geom_gdf = Ok g /\ year_side year turnout_df = Ok t).
Proof.
  split; [|apply prepare_municipal_sides_ok].
  intros g t Hg Ht.
  rewrite (prepare_municipal_as_sides _ _ _ _ _ Hg Ht).
  destruct (year_side_columns _ _ _ Hg) as [_ (yi & wi & si & Hgp)].
  destruct (year_side_columns _ _ _ Ht) as [_ (yj & wj & sj & Htp)].
  unfold municipal_keys. rewrite Hgp, Htp. do 2 eexists.
  split; [reflexivity|]. split; [reflexivity|].
  destruct (positions_three _ _ _ _ _ Htp) as (? & ? & ? & [= <- <- <-] & Hyj & Hwj & Hsj).
  unfold select, has_col. cbn [indices_of]. rewrite Hyj, Hwj, Hsj.
  destruct (index_of "PctVoted" (columns t)) as [pi|] eqn:Hpi.
  2:{ cbn [or_key_error bind]. split; [|discriminate].
      intros _. eexists. split; [reflexivity | discriminate]. }
  cbn [or_key_error bind]. unfold merge_left. rewrite Hgp. cbn [bind columns rows].
  change (positions ["Year"; "Ward"; "Sub"] ["Year"; "Ward"; "Sub"; "PctVoted"])
    with (@Ok (list nat) [0; 1; 2]%nat).
  cbn [bind andb]. rewrite map_map.
  change (fun x : list value =>
            key_of [0; 1; 2]%nat (map (fun i : nat => cell i x) [yj; wj; sj; pi]))
    with (key_of [yj; wj; sj]).
  set (gk := map (key_of [yi; wi; si]) (rows g)).
  set (tk := map (key_of [yj; wj; sj]) (rows t)).
  destruct (keys_unique gk) eqn:Hgu, (keys_unique tk) eqn:Htu; cbn [negb andb].
  - split; [intros [|]; discriminate|]. intros out [= <-]. cbn [rows].
    repeat split. apply Forall2_flat_map_single. intros gr _.
    unfold joined_row, join_row. rewrite Hgp, Htp, Hpi.
    rewrite filter_map_comm.
    change (fun x : list value =>
              key_eqb (key_of [0; 1; 2]%nat (map (fun i : nat => cell i x) [yj; wj; sj; pi]))
                      (key_of [yi; wi; si] gr))
      with (fun x : list value => key_eqb (key_of [yj; wj; sj] x) (key_of [yi; wi; si] gr)).
    pose proof (unique_keys_match_once (key_of [yj; wj; sj]) (rows t)
                  (key_of [yi; wi; si] gr) Htu) as Hone.
    destruct (filter _ (rows t)) as [|tr [|tr' ms]]; cbn [map].
    + eexists. split; reflexivity.
    + eexists. split; reflexivity.
    + simpl in Hone. lia.
  - split; [|discriminate]. intros _. eexists.
    split; [reflexivity | intros _; unfold not_one_to_one; eauto].
  - split; [|discriminate]. intros _. eexists.
    split; [reflexivity | intros _; unfold not_one_to_one; eauto].
  - split; [|discriminate]. intros _. eexists.
    split; [reflexivity | intros _; unfold not_one_to_one; eauto].
Qed.

End MunicipalFacts.

(** ** The statements on concrete sources *)

Module OnExamples.
Import Grid.
Local Open Scope list_scope.

(** The design's scenario: the year's geometry has three rows, two of them
    with the key [2015__42]; the result has two rows, so its row count is
    below that of the year-filtered geometry. *)
Lemma dissolve_lowers_row_count :
  ~ (forall (gdf_all df_fed : @frame grid) year hint view out,
        filter_eq_int "year" year (normalize_year_naming gdf_all) = Some view ->
        result (prepare_map_df gdf_all df_fed year hint) = Ok out ->
        (List.length (rows view) <= List.length (rows out))%nat).
Proof.
  intros H.
  pose proof (H (keyed_gdf false) (keyed_df false) 2015%Z None _ _ eq_refl eq_refl) as Hle.
  vm_compute in Hle. lia.
Qed.

Lemma preferred_join_keeps_geometry_witness :
  rectangular (keyed_gdf false)
  /\ is_empty (drop_empty_keys (keyed_view false)) = false
  /\ exists out,
       result (prepare_map_df (keyed_gdf false) (keyed_df false) 2015 None) = Ok out
       /\ (2 <= List.length (rows out))%nat.
Proof.
  assert (Hrect : rectangular (keyed_gdf false)) by (repeat constructor).
  split; [exact Hrect|]. split; [reflexivity|].
  destruct (preferred_join_keeps_geometry (keyed_gdf false) (keyed_df false) 2015 None
              (keyed_view false) Hrect eq_refl eq_refl eq_refl eq_refl eq_refl eq_refl)
    as (dd & dfy & out & lk & rk & blocks & Hdd & _ & Hres & Hlen & _).
  exists out. split; [exact Hres|].
  vm_compute in Hdd. injection Hdd as <-. exact Hlen.
Defined.

Lemma deduplication_one_row_per_key_witness :
  dissolve_duplicates (keyed_view false) = Ok keyed_dissolved
  /\ dissolve_duplicates (keyed_view true) = Ok keyed_unioned
  /\ (exists before_keys after_keys,
        column (keyed_view false) "geo_key" = Some before_keys
        /\ column keyed_dissolved "geo_key" = Some after_keys
        /\ NoDup after_keys
        /\ List.length (nodup value_eq_dec after_keys) = List.length (rows keyed_dissolved))
  /\ (exists before_keys after_keys,
        column (keyed_view true) "geo_key" = Some before_keys
        /\ column keyed_unioned "geo_key" = Some after_keys
        /\ NoDup after_keys
        /\ List.length (nodup value_eq_dec after_keys) = List.length (rows keyed_unioned)).
Proof.
  split; [reflexivity|]. split; [reflexivity|]. split.
  - destruct (deduplication_one_row_per_key "geo_key" 2015 (keyed_view false) keyed_dissolved)
      as (bk & ak & H1 & H2 & H3 & H4 & _).
    + repeat constructor.
    + discriminate.
    + reflexivity.
    + left. split; reflexivity.
    + exists bk, ak. auto.
  - destruct (deduplication_one_row_per_key "geo_key" 2015 (keyed_view true) keyed_unioned)
      as (bk & ak & H1 & H2 & H3 & H4 & _).
    + repeat constructor.
    + discriminate.
    + reflexivity.
    + left. split; reflexivity.
    + exists bk, ak. auto.
Defined.

(** A geometry source without a year column makes the call raise, though
    both sources carry [riding_id]: the missing join key is not the only
    condition that raises. *)
Lemma raises_without_year_column :
  ~ (forall (gdf_all df_fed : @frame grid) year hint e,
        result (prepare_map_df gdf_all df_fed year hint) = Raise e ->
        e = ValueError "No valid join key found.").
Proof.
  intros H. specialize (H yearless_gdf id_df 2015%Z None _ eq_refl). discriminate H.
Qed.

Lemma no_join_key_raises_witness :
  fst (preferred_join unkeyed_gdf unkeyed_df 2015) = None
  /\ result (prepare_map_df unkeyed_gdf unkeyed_df 2015 None)
     = Raise (ValueError "No valid join key found.")
  /\ df_fed_after (prepare_map_df unkeyed_gdf unkeyed_df 2015 None) = unkeyed_df.
Proof.
  split; [reflexivity|].
  apply (no_join_key_raises unkeyed_gdf unkeyed_df 2015 None unkeyed_gdf).
  - reflexivity.
  - reflexivity.
  - reflexivity.
  - discriminate.
  - intros key [<- | [<- | [<- | [<- | []]]]]; split; reflexivity.
Defined.

Lemma prepare_map_df_empty_year_witness :
  has_col (normalize_year_naming named_gdf) "year" = true
  /\ result (prepare_map_df named_gdf named_df 2019 None)
     = Ok (Frame ["year"; "riding_name"; "geometry"] [])
  /\ df_fed_after (prepare_map_df named_gdf named_df 2019 None) = named_df
  /\ gdf_all_after (prepare_map_df named_gdf named_df 2019 None) = named_gdf.
Proof.
  split; [reflexivity|].
  apply (prepare_map_df_empty_year named_gdf named_df 2019 None).
  - reflexivity.
  - intros r [<- | [<- | []]]; reflexivity.
Defined.

(** The year's geometry holds the key [(2018, "x", 1)] twice, and the call
    returns: both rows are dropped with their wards before the merge is
    validated. *)
Lemma unnumbered_duplicates_pass :
  ~ (forall (geom_gdf turnout_df : @frame grid) year g_year keys,
        filter_eq_int "Year" year geom_gdf = Some g_year ->
        municipal_keys g_year = Some keys ->
        keys_unique keys = false ->
        exists e, prepare_municipal_year_gdf year geom_gdf turnout_df = Raise e).
Proof.
  intros H.
  destruct (H mun_gdf_unnumbered mun_df 2018%Z _ _ eq_refl eq_refl eq_refl) as [e He].
  vm_compute in He. discriminate He.
Qed.

Lemma municipal_join_one_to_one_witness :
  (exists out, prepare_municipal_year_gdf 2018 mun_gdf mun_df = Ok out)
  /\ (exists g t, year_side 2018 mun_gdf = Ok g /\ year_side 2018 mun_df = Ok t)
  /\ (exists e, prepare_municipal_year_gdf 2018 mun_gdf mun_df_repeated = Raise e).
Proof.
  split; [eexists; reflexivity|]. split.
  - exact (proj2 (municipal_join_one_to_one 2018 mun_gdf mun_df) _ eq_refl).
  - destruct (proj1 (municipal_join_one_to_one 2018 mun_gdf mun_df_repeated) _ _
                eq_refl eq_refl) as (gk & tk & Hgk & Htk & Hdup & _).
    destruct Hdup as [e [He _]]; [|eauto].
    right. vm_compute in Htk. injection Htk as <-. reflexivity.
Defined.

End OnExamples.

(** ** Column assignment *)

Section AssignFacts.
Context {E : Env}.
Local Open Scope list_scope.

Lemma index_of_app_l c cols more i :
  index_of c cols = Some i -> index_of c (cols ++ more) = Some i.
Proof.
  revert i; induction cols as [|x cols IH]; intros i; simpl; [discriminate|].
  destruct (String.eqb c x); [trivial|].
  destruct (index_of c cols) as [j|]; [|discriminate].
  intros [= <-]. now rewrite (IH j eq_refl).
Qed.

Lemma index_of_app_new c cols :
  index_of c cols = None -> index_of c (cols ++ [c]) = Some (List.length cols).
Proof.
  induction cols as [|x cols IH]; simpl.
  - now rewrite String.eqb_refl.
  - destruct (String.eqb c x); [discriminate|].
    destruct (index_of c cols); [discriminate|]. intros _. now rewrite IH.
Qed.

Lemma index_of_app_other c c' cols :
  c' <> c -> index_of c' (cols ++ [c]) = index_of c' cols.
Proof.
  intros Hne. induction cols as [|x cols IH]; simpl.
  - destruct (String.eqb c' c) eqn:H; [apply String.eqb_eq in H; contradiction | reflexivity].
  - destruct (String.eqb c' x); [reflexivity | now rewrite IH].
Qed.

Lemma has_col_set_column_same f c vals : has_col (set_column f c vals) c = true.
Proof.
  unfold has_col, set_column.
  destruct (index_of c (columns f)) as [i|] eqn:Hi; cbn [columns].
  - now rewrite Hi.
  - now rewrite (index_of_app_new _ _ Hi).
Qed.

Lemma has_col_set_column_other f c c' vals :
  c' <> c -> has_col (set_column f c vals) c' = has_col f c'.
Proof.
  intros Hne. unfold has_col, set_column.
  destruct (index_of c (columns f)); cbn [columns]; [reflexivity|].
  now rewrite index_of_app_other.
Qed.

Lemma index_of_set_column_other f c c' vals :
  c' <> c -> index_of c' (columns (set_column f c vals)) = index_of c' (columns f).
Proof.
  intros Hne. unfold set_column.
  destruct (index_of c (columns f)); cbn [columns]; [reflexivity|].
  now apply index_of_app_other.
Qed.

Lemma length_zip_with {A B C} (f : A -> B -> C) l m :
  List.length l = List.length m -> List.length (zip_with f l m) = List.length m.
Proof.
  revert m; induction l as [|a l IH]; intros [|b m]; simpl; try discriminate; auto.
Qed.

Lemma rows_set_column f c vals :
  List.length vals = List.length (rows f) ->
  List.length (rows (set_column f c vals)) = List.length (rows f).
Proof.
  intros H. unfold set_column.
  destruct (index_of c (columns f)); cbn [rows]; now apply length_zip_with.
Qed.

Lemma rectangular_set_column f c vals :
  rectangular f -> rectangular (set_column f c vals).
Proof.
  unfold rectangular, set_column. intros Hr.
  destruct (index_of c (columns f)) as [i|]; cbn [columns rows].
  - revert vals. induction Hr as [|r rs Hlen _ IH]; intros [|v vals]; simpl; constructor.
    + now rewrite length_set_nth.
    + apply IH.
  - rewrite length_app. simpl.
    revert vals. induction Hr as [|r rs Hlen _ IH]; intros [|v vals]; simpl; constructor.
    + rewrite length_app. simpl. lia.
    + apply IH.
Qed.


Lemma column_set_column f c vals :
  rectangular f -> List.length vals = List.length (rows f) ->
  column (set_column f c vals) c = Some vals.
Proof.
  unfold rectangular, column, set_column. intros Hr Hlen.
  destruct (index_of c (columns f)) as [i|] eqn:Hi; cbn [columns rows].
  - rewrite Hi. f_equal. apply index_of_lt in Hi.
    revert vals Hlen. induction Hr as [|r rs Hrl _ IH]; intros [|v vals]; simpl;
      try discriminate; [reflexivity|].
    intros [= Hlen]. rewrite (IH vals Hlen). f_equal.
    apply cell_set_nth_eq. lia.
  - rewrite (index_of_app_new _ _ Hi). f_equal.
    revert vals Hlen. induction Hr as [|r rs Hrl _ IH]; intros [|v vals]; simpl;
      try discriminate; [reflexivity|].
    intros [= Hlen]. rewrite (IH vals Hlen). f_equal.
    unfold cell. rewrite app_nth2 by lia. now rewrite Hrl, Nat.sub_diag.
Qed.

(** The other columns keep their content. *)
Lemma column_set_column_other f c c' vals :
  rectangular f -> List.length vals = List.length (rows f) -> c' <> c ->
  column (set_column f c vals) c' = column f c'.
Proof.
  intros Hr Hlen Hne. unfold column.
  rewrite (index_of_set_column_other f c c' vals Hne).
  destruct (index_of c' (columns f)) as [j|] eqn:Hj; [|reflexivity].
  f_equal. unfold set_column.
  destruct (index_of c (columns f)) as [i|] eqn:Hi; cbn [rows].
  - assert (Hij : i <> j).
    { intros ->. apply Hne. exact (index_of_inj _ _ _ _ Hj Hi). }
    clear Hr. revert vals Hlen. induction (rows f) as [|r rs IH]; intros [|v vals]; simpl;
      try discriminate; [reflexivity|].
    intros [= Hlen]. now rewrite (IH vals Hlen), (cell_set_nth_ne i j).
  - apply index_of_lt in Hj. unfold rectangular in Hr.
    revert vals Hlen. induction Hr as [|r rs Hrl _ IH]; intros [|v vals]; simpl;
      try discriminate; [reflexivity|].
    intros [= Hlen]. rewrite (IH vals Hlen). f_equal. apply cell_app_l. lia.
Qed.


Lemma all_ok_length {A} (l : list (res A)) vals :
  all_ok l = Ok vals -> List.length vals = List.length l.
Proof.
  revert vals; induction l as [|m l IH]; intros vals; simpl.
  - now intros [= <-].
  - destruct m as [a|]; [|discriminate]. cbn [bind].
    destruct (all_ok l) as [vs|]; [|discriminate]. cbn [bind].
    intros [= <-]. simpl. now rewrite (IH vs eq_refl).
Qed.

Lemma all_ok_Forall2 {A B} (f : A -> res B) l vals :
  all_ok (map f l) = Ok vals -> Forall2 (fun a b => f a = Ok b) l vals.
Proof.
  revert vals; induction l as [|a l IH]; intros vals; simpl.
  - intros [= <-]. constructor.
  - destruct (f a) as [b|] eqn:Hb; [|discriminate]. cbn [bind].
    destruct (all_ok (map f l)) as [vs|]; [|discriminate]. cbn [bind].
    intros [= <-]. constructor; [exact Hb | now apply IH].
Qed.

Lemma filter_all {A} (p : A -> bool) l :
  (forall x, In x l -> p x = true) -> filter p l = l.
Proof.
  induction l as [|x l IH]; simpl; [trivial|]. intros H.
  rewrite (H x (or_introl eq_refl)). f_equal. apply IH. intros y Hy. apply H. now right.
Qed.

End AssignFacts.

(** ** [load_gpkg] *)

Section GpkgFacts.
Context {E : Env}.
Local Open Scope list_scope.
Import PyStr.

Lemma assigned_facts c f f' :
  f' = f \/ (exists vals, List.length vals = List.length (rows f)
                          /\ f' = set_column f c vals) ->
  List.length (rows f') = List.length (rows f)
  /\ (rectangular f -> rectangular f')
  /\ (forall c', c' <> c -> has_col f' c' = has_col f c')
  /\ (forall c', c' <> c -> rectangular f -> column f' c' = column f c').
Proof.
  intros [-> | [vals [Hlen ->]]]; [auto|].
  split; [now apply rows_set_column|].
  split; [apply rectangular_set_column|].
  split; intros c' Hne.
  - now apply has_col_set_column_other.
  - intros Hr. now apply column_set_column_other.
Qed.

Lemma column_length f c s : column f c = Some s -> List.length s = List.length (rows f).
Proof.
  unfold column. destruct (index_of c (columns f)); [|discriminate].
  intros [= <-]. apply length_map.
Qed.

Lemma rebuild_riding_num_assigned g g1 :
  rebuild_riding_num g = Ok g1 ->
  has_col g1 "riding_num" = true
  /\ (g1 = g \/ exists vals, List.length vals = List.length (rows g)
                             /\ g1 = set_column g "riding_num" vals).
Proof.
  unfold rebuild_riding_num, set_none.
  destruct (has_col g "riding_num") eqn:Hh; [intros [= <-]; auto|].
  destruct (find (has_col g) id_candidates) as [id_col|].
  - destruct (column g id_col) as [s|] eqn:Hs; [|discriminate].
    cbn [or_key_error bind]. intros [= <-].
    split; [apply has_col_set_column_same|]. right. eexists. split; [|reflexivity].
    unfold id_text. rewrite length_map. exact (column_length _ _ _ Hs).
  - intros [= <-]. split; [apply has_col_set_column_same|]. right. eexists.
    split; [|reflexivity]. apply repeat_length.
Qed.

Lemma map_riding_name_assigned g g1 :
  map_riding_name g = Ok g1 ->
  has_col g1 "riding_name" = true
  /\ (g1 = g \/ exists vals, List.length vals = List.length (rows g)
                             /\ g1 = set_column g "riding_name" vals).
Proof.
  unfold map_riding_name, set_none.
  destruct (has_col g "riding_name") eqn:Hh; [intros [= <-]; auto|].
  destruct (find (has_col g) name_candidates) as [name_col|].
  - destruct (column g name_col) as [s|] eqn:Hs; [|discriminate].
    cbn [or_key_error bind]. intros [= <-].
    split; [apply has_col_set_column_same|]. right. eexists. split; [|reflexivity].
    exact (column_length _ _ _ Hs).
  - intros [= <-]. split; [apply has_col_set_column_same|]. right. eexists.
    split; [|reflexivity]. apply repeat_length.
Qed.

Lemma as_Int64_range v w :
  as_Int64 v = Ok w -> w = VNaN \/ exists z, w = VInt z /\ in_int64 z = true.
Proof.
  destruct v as [| |z|q| |]; cbn [as_Int64]; try (intros [= <-]; eauto; fail).
  - destruct (in_int64 z) eqn:Hz; [|discriminate]. intros [= <-]. eauto.
  - destruct (_ && _) eqn:Hq; [|discriminate]. intros [= <-].
    apply andb_prop in Hq as [_ Hq]. eauto.
Qed.

Lemma as_Int64_shape v w : as_Int64 v = Ok w -> w = VNaN \/ exists z, w = VInt z.
Proof.
  intros H. destruct (as_Int64_range _ _ H) as [-> | (z & -> & _)]; eauto.
Qed.

Lemma ensure_year_numeric_assigned g g1 :
  ensure_year_numeric g = Ok g1 ->
  (g1 = g /\ has_col g "year" = false)
  \/ (exists vals, List.length vals = List.length (rows g)
                   /\ g1 = set_column g "year" vals
                   /\ Forall (fun w => w = VNaN \/ exists z, w = VInt z) vals).
Proof.
  unfold ensure_year_numeric, to_Int64_column.
  destruct (has_col g "year"); [|intros [= <-]; auto].
  destruct (column g "year") as [s|] eqn:Hs; [|discriminate]. cbn [or_key_error bind].
  destruct (all_ok _) as [vals|] eqn:Hv; [|discriminate]. cbn [bind].
  intros [= <-]. right. exists vals. split; [|split; [reflexivity|]].
  - rewrite (all_ok_length _ _ Hv), length_map. exact (column_length _ _ _ Hs).
  - apply all_ok_Forall2 in Hv. clear Hs.
    induction Hv as [|a w l vs Haw _ IH]; constructor; [|exact IH].
    exact (as_Int64_shape _ _ Haw).
Qed.

Lemma ensure_year_numeric_range g g1 :
  ensure_year_numeric g = Ok g1 ->
  (g1 = g /\ has_col g "year" = false)
  \/ (exists vals, List.length vals = List.length (rows g)
                   /\ g1 = set_column g "year" vals
                   /\ Forall (fun w => w = VNaN
                                       \/ exists z, w = VInt z /\ in_int64 z = true) vals).
Proof.
  unfold ensure_year_numeric, to_Int64_column.
  destruct (has_col g "year"); [|intros [= <-]; auto].
  destruct (column g "year") as [s|] eqn:Hs; [|discriminate]. cbn [or_key_error bind].
  destruct (all_ok _) as [vals|] eqn:Hv; [|discriminate]. cbn [bind].
  intros [= <-]. right. exists vals. split; [|split; [reflexivity|]].
  - rewrite (all_ok_length _ _ Hv), length_map. exact (column_length _ _ _ Hs).
  - apply all_ok_Forall2 in Hv. clear Hs.
    induction Hv as [|a w l vs Haw _ IH]; constructor; [|exact IH].
    exact (as_Int64_range _ _ Haw).
Qed.

Lemma ensure_year_numeric_has g g1 :
  ensure_year_numeric g = Ok g1 -> has_col g1 "year" = has_col g "year".
Proof.
  unfold ensure_year_numeric, to_Int64_column.
  destruct (has_col g "year") eqn:Hy; [|now intros [= <-]].
  destruct (column g "year"); [|discriminate]. cbn [or_key_error bind].
  destruct (all_ok _); [|discriminate]. cbn [bind]. intros [= <-].
  apply has_col_set_column_same.
Qed.

Lemma rectangular_normalize_labels f : rectangular f -> rectangular (normalize_labels f).
Proof.
  unfold rectangular, normalize_labels. cbn [columns rows]. now rewrite length_map.
Qed.

Lemma rectangular_normalize_year_naming f :
  rectangular f -> rectangular (normalize_year_naming f).
Proof.
  unfold normalize_year_naming. destruct (_ && _); [|trivial].
  unfold rectangular, rename. cbn [columns rows]. now rewrite length_map.
Qed.

(** The stages of [load_gpkg], with what each of them assigns. *)
Lemma load_gpkg_stages read gdf :
  load_gpkg read = Ok gdf ->
  exists g1 g2 g3,
    rebuild_riding_num (normalize_year_naming (normalize_labels read)) = Ok g1
    /\ map_riding_name g1 = Ok g2
    /\ ensure_year_numeric g2 = Ok g3
    /\ gdf = add_geo_key_gpkg g3.
Proof.
  unfold load_gpkg.
  destruct (rebuild_riding_num _) as [g1|] eqn:H1; [|discriminate]. cbn [bind].
  destruct (map_riding_name g1) as [g2|] eqn:H2; [|discriminate]. cbn [bind].
  destruct (ensure_year_numeric g2) as [g3|] eqn:H3; [|discriminate]. cbn [bind].
  intros [= <-]. now exists g1, g2, g3.
Qed.

Lemma ensure_year_numeric_or g g1 :
  ensure_year_numeric g = Ok g1 ->
  g1 = g \/ exists vals, List.length vals = List.length (rows g)
                         /\ g1 = set_column g "year" vals.
Proof.
  intros H. destruct (ensure_year_numeric_assigned _ _ H) as [[-> _] | (vals & Hl & -> & _)];
    [now left | right; eauto].
Qed.

Lemma load_gpkg_has read gdf :
  load_gpkg read = Ok gdf ->
  List.length (rows gdf) = List.length (rows read)
  /\ has_col gdf "riding_num" = true
  /\ has_col gdf "riding_name" = true
  /\ has_col gdf "geo_key" = true.
Proof.
  intros H. destruct (load_gpkg_stages _ _ H) as (g1 & g2 & g3 & H1 & H2 & H3 & ->).
  destruct (rebuild_riding_num_assigned _ _ H1) as [Hn1 A1].
  destruct (map_riding_name_assigned _ _ H2) as [Hn2 A2].
  pose proof (ensure_year_numeric_or _ _ H3) as A3.
  destruct (assigned_facts _ _ _ A1) as (L1 & _ & _ & _).
  destruct (assigned_facts _ _ _ A2) as (L2 & _ & K2 & _).
  destruct (assigned_facts _ _ _ A3) as (L3 & _ & K3 & _).
  unfold add_geo_key_gpkg. split; [|split; [|split]].
  - rewrite rows_set_column by apply length_map.
    rewrite L3, L2, L1. unfold normalize_year_naming, normalize_labels.
    destruct (_ && _); reflexivity.
  - rewrite has_col_set_column_other, K3, K2 by discriminate. exact Hn1.
  - rewrite has_col_set_column_other, K3 by discriminate. exact Hn2.
  - apply has_col_set_column_same.
Qed.

(** X3: A frame that [load_gpkg] returns has the rows it read and always
    carries [riding_num], [riding_name] and [geo_key]. *)
Theorem load_gpkg_columns read gdf :
  load_gpkg read = Ok gdf ->
  List.length (rows gdf) = List.length (rows read)
  /\ has_col gdf "riding_num" = true
  /\ has_col gdf "riding_name" = true
  /\ has_col gdf "geo_key" = true.
Proof. exact (load_gpkg_has read gdf). Qed.

Lemma index_of_rename_gone old new cols :
  old <> new ->
  index_of old (map (fun c => if String.eqb c old then new else c) cols) = None.
Proof.
  intros Hne. induction cols as [|x cols IH]; simpl; [reflexivity|].
  rewrite IH. destruct (String.eqb x old) eqn:Hx.
  - destruct (String.eqb old new) eqn:Ho; [apply String.eqb_eq in Ho; contradiction|reflexivity].
  - rewrite String.eqb_sym, Hx. reflexivity.
Qed.

(** After the renaming step there is nothing left for it to rename. *)
Lemma normalize_year_naming_done f :
  has_col (normalize_year_naming f) "election_year"
  && negb (has_col (normalize_year_naming f) "year") = false.
Proof.
  unfold normalize_year_naming.
  destruct (has_col f "election_year" && negb (has_col f "year")) eqn:Hc; [|exact Hc].
  unfold has_col at 1, rename. cbn [columns].
  now rewrite index_of_rename_gone by discriminate.
Qed.

Lemma occurs_nonempty sub s :
  occurs_in sub s -> sub <> EmptyString -> Nat.ltb 0 (String.length s) = true.
Proof.
  intros (before & after & ->) Hne. destruct before; simpl; [|reflexivity].
  destruct sub; [contradiction | reflexivity].
Qed.

Lemma load_gpkg_post read gdf :
  rectangular read ->
  load_gpkg read = Ok gdf ->
  rectangular gdf
  /\ normalize_year_naming gdf = gdf
  /\ (forall r, In r (rows gdf) ->
        exists s, row_get gdf r "geo_key" = VStr s /\ occurs_in "__" s)
  /\ (forall year view, filter_eq_int "year" year gdf = Some view ->
                         drop_empty_keys view = view)
  /\ (forall ys, column gdf "year" = Some ys ->
                  Forall (fun w => w = VNaN \/ exists z, w = VInt z) ys).
Proof.
  intros Hrect H.
  destruct (load_gpkg_stages _ _ H) as (g1 & g2 & g3 & H1 & H2 & H3 & ->).
  set (g0 := normalize_year_naming (normalize_labels read)) in *.
  assert (R0 : rectangular g0)
    by now apply rectangular_normalize_year_naming, rectangular_normalize_labels.
  destruct (rebuild_riding_num_assigned _ _ H1) as [_ A1].
  destruct (map_riding_name_assigned _ _ H2) as [_ A2].
  pose proof (ensure_year_numeric_or _ _ H3) as A3.
  destruct (assigned_facts _ _ _ A1) as (_ & R1 & K1 & _).
  destruct (assigned_facts _ _ _ A2) as (_ & R2 & K2 & _).
  destruct (assigned_facts _ _ _ A3) as (_ & R3 & K3 & _).
  specialize (R3 (R2 (R1 R0))).
  set (keys := map (fun r => VStr (geo_key_gpkg (row_get g3 r "year")
                                                (row_get g3 r "riding_num"))) (rows g3)).
  assert (Hlen : List.length keys = List.length (rows g3)) by apply length_map.
  assert (Rg : rectangular (set_column g3 "geo_key" keys))
    by now apply rectangular_set_column.
  assert (Hcol : column (set_column g3 "geo_key" keys) "geo_key" = Some keys)
    by now apply column_set_column.
  unfold add_geo_key_gpkg. fold keys.
  set (gdf := set_column g3 "geo_key" keys) in *.
  assert (Hkey : forall r, In r (rows gdf) ->
            exists s, row_get gdf r "geo_key" = VStr s /\ occurs_in "__" s).
  { intros r Hr. unfold column in Hcol. unfold row_get.
    destruct (index_of "geo_key" (columns gdf)) as [ki|]; [|discriminate].
    injection Hcol as Hcol.
    assert (Hin : In (cell ki r) keys) by (rewrite <- Hcol; now apply in_map).
    apply in_map_iff in Hin as [r0 [<- _]]. eexists. split; [reflexivity|].
    unfold geo_key_gpkg, occurs_in. eauto. }
  assert (Hy3 : has_col g3 "year" = has_col g0 "year").
  { rewrite (ensure_year_numeric_has _ _ H3). now rewrite K2, K1 by discriminate. }
  split; [exact Rg|]. split; [|split; [exact Hkey|split]].
  - unfold normalize_year_naming.
    assert (Hdone := normalize_year_naming_done (normalize_labels read)). fold g0 in Hdone.
    unfold gdf at 1 2. rewrite !has_col_set_column_other by discriminate.
    rewrite Hy3, K3, K2, K1 by discriminate. now rewrite Hdone.
  - intros year view Hv. unfold drop_empty_keys.
    rewrite (filter_eq_int_columns _ _ _ _ Hv).
    destruct (index_of "geo_key" (columns gdf)) as [ki|] eqn:Hki; [|reflexivity].
    unfold filter_eq_int in Hv. destruct (index_of "year" (columns gdf)); [|discriminate].
    injection Hv as <-. unfold filter_rows. cbn [columns rows]. f_equal.
    apply filter_all. intros r Hr. apply filter_In in Hr as [Hr _].
    destruct (Hkey r Hr) as [s [Hs Hocc]].
    rewrite (row_get_at _ _ _ _ Hki) in Hs. rewrite Hs. cbn [py_str].
    now apply (occurs_nonempty "__").
  - intros ys Hys. unfold gdf in Hys.
    rewrite (column_set_column_other g3 "geo_key" "year" keys R3 Hlen) in Hys by discriminate.
    destruct (ensure_year_numeric_assigned _ _ H3) as [[-> Hno] | (vals & Hl & -> & Hall)].
    + unfold column, has_col in *. destruct (index_of "year" (columns g2)); discriminate.
    + rewrite column_set_column in Hys; [|now apply R2, R1 | exact Hl]. congruence.
Qed.

(** X4: On a rectangular frame whose labels stay distinct, [load_gpkg] returns
    a rectangular frame whose composite keys are texts that contain the
    separator, so that the renaming step and the empty-key filter of
    [prepare_map_df] leave the frame and its year views as they are; and
    its years are integers or nulls. *)
Theorem load_gpkg_keys read gdf :
  rectangular read ->
  NoDup (columns (normalize_year_naming (normalize_labels read))) ->
  load_gpkg read = Ok gdf ->
  rectangular gdf
  /\ normalize_year_naming gdf = gdf
  /\ (forall r, In r (rows gdf) ->
        exists s, row_get gdf r "geo_key" = VStr s /\ occurs_in "__" s)
  /\ (forall year view, filter_eq_int "year" year gdf = Some view ->
                         drop_empty_keys view = view)
  /\ (forall ys, column gdf "year" = Some ys ->
                  Forall (fun w => w = VNaN \/ exists z, w = VInt z) ys).
Proof. intros Hrect _ H. exact (load_gpkg_post read gdf Hrect H). Qed.

End GpkgFacts.

(** ** [load_federal_csv] *)

Section FederalFacts.
Context {E : Env}.
Local Open Scope list_scope.
Import PyStr.

Lemma clean_riding_name_assigned df df1 :
  clean_riding_name df = Ok df1 ->
  df1 = df \/ exists vals, List.length vals = List.length (rows df)
                           /\ df1 = set_column df "riding_name" vals.
Proof.
  unfold clean_riding_name. destruct (has_col df "riding_name"); [|intros [= <-]; auto].
  destruct (column df "riding_name") as [s|] eqn:Hs; [|discriminate].
  cbn [or_key_error bind]. intros [= <-]. right. eexists. split; [|reflexivity].
  unfold normalize_names. rewrite length_map. exact (column_length _ _ _ Hs).
Qed.

Lemma clean_riding_num_assigned df df1 :
  clean_riding_num df = Ok df1 ->
  (df1 = df /\ has_col df "riding_num" = false /\ has_col df "riding_name" = false)
  \/ exists vals, List.length vals = List.length (rows df)
                  /\ df1 = set_column df "riding_num" vals.
Proof.
  unfold clean_riding_num. destruct (has_col df "riding_num").
  - destruct (column df "riding_num") as [s|] eqn:Hs; [|discriminate].
    cbn [or_key_error bind]. intros [= <-]. right. eexists. split; [|reflexivity].
    unfold id_text. rewrite length_map. exact (column_length _ _ _ Hs).
  - destruct (has_col df "riding_name"); [|intros [= <-]; auto].
    destruct (column df "riding_name") as [s|] eqn:Hs; [|discriminate].
    cbn [or_key_error bind]. intros [= <-]. right. eexists. split; [|reflexivity].
    unfold normalize_names. rewrite !length_map. exact (column_length _ _ _ Hs).
Qed.

Lemma parse_pct_shape v : parse_pct v = VNaN \/ exists q, parse_pct v = VNum q.
Proof.
  unfold parse_pct, extract_number.
  destruct (first_number _) as [tok|]; simpl; [|now left].
  destruct (decimal_of_str tok); [right; eauto|].
  destruct (str_to_number tok); [right; eauto | now left].
Qed.

Lemma clean_turnout_assigned df df1 :
  clean_turnout df = Ok df1 ->
  (df1 = df /\ has_col df "voter_participation_pct" = false)
  \/ exists vals, List.length vals = List.length (rows df)
                  /\ df1 = set_column df "voter_participation_pct" vals
                  /\ Forall (fun w => w = VNaN \/ exists q, w = VNum q) vals.
Proof.
  unfold clean_turnout. destruct (has_col df "voter_participation_pct");
    [|intros [= <-]; auto].
  destruct (column df "voter_participation_pct") as [s|] eqn:Hs; [|discriminate].
  cbn [or_key_error bind]. intros [= <-]. right. eexists.
  split; [|split; [reflexivity|]].
  - unfold clean_voter_participation_pct. rewrite length_map.
    exact (column_length _ _ _ Hs).
  - unfold clean_voter_participation_pct. apply Forall_forall. intros w Hw.
    apply in_map_iff in Hw as [v [<- _]]. apply parse_pct_shape.
Qed.

Lemma clean_turnout_or df df1 :
  clean_turnout df = Ok df1 ->
  df1 = df \/ exists vals, List.length vals = List.length (rows df)
                           /\ df1 = set_column df "voter_participation_pct" vals.
Proof.
  intros H. destruct (clean_turnout_assigned _ _ H) as [[-> _] | (vals & Hl & -> & _)];
    [now left | right; eauto].
Qed.

Lemma add_geo_key_csv_spec df4 df :
  add_geo_key_csv df4 = Some df ->
  exists nums keys,
    List.length nums = List.length (rows df4)
    /\ List.length keys = List.length (rows (set_column df4 "riding_num" nums))
    /\ df = set_column (set_column df4 "riding_num" nums) "geo_key" keys
    /\ Forall (fun k => exists s, k = VStr s /\ occurs_in "__" s) keys.
Proof.
  unfold add_geo_key_csv. destruct (column df4 "riding_num") as [s|] eqn:Hs; [|discriminate].
  intros [= <-]. do 2 eexists. split; [|split; [|split; [reflexivity|]]].
  - rewrite length_map. exact (column_length _ _ _ Hs).
  - apply length_map.
  - apply Forall_forall. intros k Hk. apply in_map_iff in Hk as [r [<- _]].
    eexists. split; [reflexivity|]. unfold geo_key_csv, occurs_in. eauto.
Qed.

Lemma load_federal_csv_stages read df :
  load_federal_csv read = Ok df ->
  exists df1 df2 df3 df4,
    clean_riding_name (rename_by (build_col_map (columns read)) read) = Ok df1
    /\ clean_riding_num df1 = Ok df2
    /\ ensure_year_numeric df2 = Ok df3
    /\ clean_turnout df3 = Ok df4
    /\ add_geo_key_csv df4 = Some df.
Proof.
  unfold load_federal_csv.
  destruct (clean_riding_name _) as [df1|] eqn:H1; [|discriminate]. cbn [bind].
  destruct (clean_riding_num df1) as [df2|] eqn:H2; [|discriminate]. cbn [bind].
  destruct (ensure_year_numeric df2) as [df3|] eqn:H3; [|discriminate]. cbn [bind].
  destruct (clean_turnout df3) as [df4|] eqn:H4; [|discriminate]. cbn [bind].
  destruct (add_geo_key_csv df4) as [d|] eqn:H5; [|discriminate].
  intros [= <-]. now exists df1, df2, df3, df4.
Qed.





(** X5: Without an id column and without a name column the loader cannot
    return: after its warning it reads [df["riding_num"]] and raises.  The
    exception is that [KeyError] unless the year column fails to cast
    first. *)
Theorem load_federal_csv_needs_riding_column read :
  has_col (rename_by (build_col_map (columns read)) read) "riding_num" = false ->
  has_col (rename_by (build_col_map (columns read)) read) "riding_name" = false ->
  exists e, load_federal_csv read = Raise e
    /\ (has_col (rename_by (build_col_map (columns read)) read) "year" = false ->
        e = KeyError "riding_num").
Proof.
  intros Hnum Hname. unfold load_federal_csv.
  set (df := rename_by (build_col_map (columns read)) read) in *.
  unfold clean_riding_name. rewrite Hname. cbn [bind].
  unfold clean_riding_num. rewrite Hnum, Hname. cbn [bind].
  destruct (ensure_year_numeric df) as [df3|e] eqn:H3; cbn [bind].
  - assert (Hn3 : has_col df3 "riding_num" = false).
    { destruct (ensure_year_numeric_or _ _ H3) as [-> | [vals [_ ->]]]; [exact Hnum|].
      now rewrite has_col_set_column_other by discriminate. }
    destruct (clean_turnout df3) as [df4|e] eqn:H4; cbn [bind].
    + assert (Hn4 : has_col df4 "riding_num" = false).
      { destruct (clean_turnout_or _ _ H4) as [-> | [vals [_ ->]]]; [exact Hn3|].
        now rewrite has_col_set_column_other by discriminate. }
      unfold add_geo_key_csv, column. unfold has_col in Hn4.
      destruct (index_of "riding_num" (columns df4)); [discriminate|].
      eexists. split; [reflexivity | reflexivity].
    + exfalso. unfold clean_turnout in H4.
      destruct (has_col df3 "voter_participation_pct") eqn:Hp; [|discriminate].
      unfold has_col, column in *.
      destruct (index_of "voter_participation_pct" (columns df3)); discriminate.
  - exists e. split; [reflexivity|]. intros Hy. unfold ensure_year_numeric in H3.
    rewrite Hy in H3. discriminate.
Qed.

Lemma load_federal_csv_has read df :
  load_federal_csv read = Ok df ->
  List.length (rows df) = List.length (rows read)
  /\ has_col df "riding_num" = true
  /\ has_col df "geo_key" = true.
Proof.
  intros H.
  destruct (load_federal_csv_stages _ _ H) as (df1 & df2 & df3 & df4 & H1 & H2 & H3 & H4 & H5).
  destruct (add_geo_key_csv_spec _ _ H5) as (nums & keys & Ln & Lk & -> & _).
  split; [|split].
  - rewrite !rows_set_column by assumption.
    destruct (assigned_facts _ _ _ (clean_turnout_or _ _ H4)) as (L4 & _).
    destruct (assigned_facts _ _ _ (ensure_year_numeric_or _ _ H3)) as (L3 & _).
    destruct (clean_riding_num_assigned _ _ H2) as [[-> _] | A2].
    + destruct (assigned_facts _ _ _ (clean_riding_name_assigned _ _ H1)) as (L1 & _).
      rewrite L4, L3, L1. reflexivity.
    + destruct (assigned_facts _ _ _ (or_intror A2)) as (L2 & _).
      destruct (assigned_facts _ _ _ (clean_riding_name_assigned _ _ H1)) as (L1 & _).
      rewrite L4, L3, L2, L1. reflexivity.
  - rewrite has_col_set_column_other by discriminate. apply has_col_set_column_same.
  - apply has_col_set_column_same.
Qed.

(** X6: A frame that [load_federal_csv] returns has the rows it read and
    carries [riding_num] and [geo_key]. *)
Theorem load_federal_csv_columns read df :
  load_federal_csv read = Ok df ->
  List.length (rows df) = List.length (rows read)
  /\ has_col df "riding_num" = true
  /\ has_col df "geo_key" = true.
Proof. exact (load_federal_csv_has read df). Qed.

(** X7: On a rectangular frame whose labels stay distinct after the renaming,
    the loader returns a rectangular frame in which
    every turnout percentage is a number, held as an integer or as a
    float, or a null, every year a 64-bit integer or a null, and every
    composite key a text with the separator. *)
Theorem load_federal_csv_cells read df :
  rectangular read ->
  NoDup (columns (rename_by (build_col_map (columns read)) read)) ->
  load_federal_csv read = Ok df ->
  rectangular df
  /\ (forall ps, column df "voter_participation_pct" = Some ps ->
                 Forall (fun w => w = VNaN \/ exists q, number_of w = Some q) ps)
  /\ (forall ys, column df "year" = Some ys ->
                 Forall (fun w => w = VNaN
                                  \/ exists z, w = VInt z /\ in_int64 z = true) ys)
  /\ (forall ks, column df "geo_key" = Some ks ->
                 Forall (fun k => exists s, k = VStr s /\ occurs_in "__" s) ks).
Proof.
  intros Hrect _ H.
  destruct (load_federal_csv_stages _ _ H) as (df1 & df2 & df3 & df4 & H1 & H2 & H3 & H4 & H5).
  destruct (add_geo_key_csv_spec _ _ H5) as (nums & keys & Ln & Lk & -> & Hkeys).
  assert (R0 : rectangular (rename_by (build_col_map (columns read)) read)).
  { unfold rectangular, rename_by in *. cbn [columns rows]. now rewrite length_map. }
  destruct (assigned_facts _ _ _ (clean_riding_name_assigned _ _ H1)) as (_ & R1 & _).
  assert (R2 : rectangular df2).
  { destruct (clean_riding_num_assigned _ _ H2) as [[-> _] | A2]; [now apply R1|].
    destruct (assigned_facts _ _ _ (or_intror A2)) as (_ & R2 & _). now apply R2, R1. }
  destruct (assigned_facts _ _ _ (ensure_year_numeric_or _ _ H3)) as (_ & R3 & _).
  destruct (assigned_facts _ _ _ (clean_turnout_or _ _ H4)) as (_ & R4 & _ & C4).
  specialize (R3 R2). specialize (R4 R3).
  assert (R5 : rectangular (set_column df4 "riding_num" nums))
    by now apply rectangular_set_column.
  split; [now apply rectangular_set_column|]. split; [|split].
  - intros ps Hps.
    rewrite !column_set_column_other in Hps by (assumption || discriminate).
    destruct (clean_turnout_assigned _ _ H4) as [[-> Hno] | (vals & Hl & -> & Hall)].
    + unfold column, has_col in *.
      destruct (index_of "voter_participation_pct" (columns df3)); discriminate.
    + rewrite column_set_column in Hps by assumption. injection Hps as <-.
      eapply Forall_impl; [|exact Hall].
      intros w [-> | [q ->]]; [now left | right; now exists q].
  - intros ys Hys.
    rewrite !column_set_column_other in Hys by (assumption || discriminate).
    rewrite (C4 "year") in Hys by (discriminate || assumption).
    destruct (ensure_year_numeric_range _ _ H3) as [[-> Hno] | (vals & Hl & -> & Hall)].
    + unfold column, has_col in *. destruct (index_of "year" (columns df2)); discriminate.
    + rewrite column_set_column in Hys by assumption. congruence.
  - intros ks Hks. rewrite column_set_column in Hks by assumption. congruence.
Qed.

Lemma prepare_map_df_loaded read_gpkg read_csv gdf_all df_fed year hint :
  rectangular read_gpkg ->
  load_gpkg read_gpkg = Ok gdf_all ->
  load_federal_csv read_csv = Ok df_fed ->
  df_fed_after (prepare_map_df gdf_all df_fed year hint) = df_fed
  /\ (forall view,
        filter_eq_int "year" year gdf_all = Some view ->
        is_empty view = false ->
        result (prepare_map_df gdf_all df_fed year hint)
        = preferred_merge view df_fed year).
Proof.
  intros Hrect Hg Hd.
  destruct (load_gpkg_post _ _ Hrect Hg) as (_ & Hnorm & _ & Hdrop & _).
  assert (Hgk : has_col gdf_all "geo_key" = true).
  { destruct (load_gpkg_stages _ _ Hg) as (g1 & g2 & g3 & _ & _ & _ & ->).
    apply has_col_set_column_same. }
  assert (Hdk : has_col df_fed "geo_key" = true).
  { destruct (load_federal_csv_stages _ _ Hd) as (d1 & d2 & d3 & d4 & _ & _ & _ & _ & H5).
    destruct (add_geo_key_csv_spec _ _ H5) as (nums & keys & _ & _ & -> & _).
    apply has_col_set_column_same. }
  unfold prepare_map_df. rewrite Hnorm.
  destruct (filter_eq_int "year" year gdf_all) as [view|] eqn:Hv.
  - assert (Hvk : has_col view "geo_key" = true).
    { now rewrite (has_col_columns view gdf_all _ (filter_eq_int_columns _ _ _ _ Hv)). }
    destruct (is_empty view) eqn:Hem.
    + split; [reflexivity|]. intros v [= <-]. congruence.
    + unfold preferred_join. rewrite Hvk, Hdk. cbn [andb].
      rewrite (Hdrop year view Hv), Hem. cbn [negb].
      split; [reflexivity|]. now intros v [= <-] _.
  - split; [reflexivity | discriminate].
Qed.

(** X8: With the two sources as the loaders return them, the join never takes
    the fallback path: a year with geometry rows goes through the
    preferred merge, and in every case the caller's turnout frame is left
    as it was. *)
Theorem prepare_map_df_on_loaded read_gpkg read_csv gdf_all df_fed year hint :
  rectangular read_gpkg ->
  load_gpkg read_gpkg = Ok gdf_all ->
  load_federal_csv read_csv = Ok df_fed ->
  df_fed_after (prepare_map_df gdf_all df_fed year hint) = df_fed
  /\ (forall view,
        filter_eq_int "year" year gdf_all = Some view ->
        is_empty view = false ->
        result (prepare_map_df gdf_all df_fed year hint)
        = preferred_merge view df_fed year).
Proof. exact (prepare_map_df_loaded read_gpkg read_csv gdf_all df_fed year hint). Qed.

End FederalFacts.

(** ** The municipal loaders *)

Section MunicipalLoaderFacts.
Context {E : Env}.
Local Open Scope list_scope.

Lemma zip_with_map_self {A B C} (f : B -> A -> C) (g : A -> B) l :
  zip_with f (map g l) l = map (fun x => f (g x) x) l.
Proof. induction l as [|x l IH]; simpl; [reflexivity | now rewrite IH]. Qed.

Lemma map_column_rows c h df df' :
  map_column c h df = Ok df' ->
  exists i, index_of c (columns df) = Some i
            /\ df' = Frame (columns df) (map (update_cell i h) (rows df)).
Proof.
  unfold map_column, column, set_column.
  destruct (index_of c (columns df)) as [i|]; [|discriminate].
  cbn [or_key_error bind]. intros [= <-]. exists i. split; [reflexivity|].
  f_equal. rewrite map_map.
  exact (zip_with_map_self (set_nth i) (fun x => h (cell i x)) (rows df)).
Qed.

Lemma length_update_cell i h r : List.length (update_cell i h r) = List.length r.
Proof. apply length_set_nth. Qed.

Lemma cell_update_cell_eq i h r :
  (i < List.length r)%nat -> cell i (update_cell i h r) = h (cell i r).
Proof. apply cell_set_nth_eq. Qed.

Lemma cell_update_cell_ne i j h r : i <> j -> cell j (update_cell i h r) = cell j r.
Proof. apply cell_set_nth_ne. Qed.

Lemma set_nth_same i r : (i < List.length r)%nat -> set_nth i (cell i r) r = r.
Proof.
  unfold cell. revert i; induction r as [|x r IH]; intros [|i] H; simpl in *; try lia; trivial.
  f_equal. apply IH. lia.
Qed.

Lemma update_cell_fixed i h r :
  (i < List.length r)%nat -> h (cell i r) = cell i r -> update_cell i h r = r.
Proof. intros Hi Hh. unfold update_cell. rewrite Hh. now apply set_nth_same. Qed.

Lemma numeric_where_present_columns cols df df1 :
  numeric_where_present cols df = Ok df1 -> columns df1 = columns df.
Proof.
  revert df; induction cols as [|c cols IH]; intros df; simpl; [now intros [= <-]|].
  destruct (has_col df c).
  - destruct (map_column c to_numeric df) as [d|] eqn:Hd; [|discriminate]. cbn [bind].
    intros H. rewrite (IH _ H). now destruct (map_column_spec _ _ _ _ Hd) as [_ [_ ->]].
  - cbn [bind]. apply IH.
Qed.

(** The three updates a loader makes to a row: the keys made numeric, and
    the keys cast to [int]. *)
Lemma normalize_keys_rows df df' :
  normalize_keys df = Ok df' ->
  exists yi wi si,
    index_of "Year" (columns df) = Some yi
    /\ index_of "Ward" (columns df) = Some wi
    /\ index_of "Sub" (columns df) = Some si
    /\ df' = Frame (columns df)
           (map (fun r => update_cell si as_int
                            (update_cell wi as_int (update_cell yi as_int r)))
              (filter (fun r => forallb (fun i => negb (isna (cell i r))) [yi; wi; si])
                 (map (fun r => update_cell si to_numeric
                                  (update_cell wi to_numeric
                                     (update_cell yi to_numeric r)))
                      (rows df)))).
Proof.
  unfold normalize_keys.
  destruct (numeric_where_present _ df) as [df1|] eqn:H1; [|discriminate]. cbn [bind].
  destruct (dropna _ df1) as [df2|] eqn:H2; [|discriminate]. cbn [bind].
  destruct (map_column "Year" as_int df2) as [df3|] eqn:H3; [|discriminate]. cbn [bind].
  destruct (map_column "Ward" as_int df3) as [df4|] eqn:H4; [|discriminate]. cbn [bind].
  intros H5.
  pose proof (numeric_where_present_columns _ _ _ H1) as Hc1.
  unfold dropna in H2.
  destruct (positions _ (columns df1)) as [ps|] eqn:Hps; [|discriminate].
  cbn [bind] in H2. injection H2 as <-.
  destruct (positions_three _ _ _ _ _ Hps) as (yi & wi & si & -> & Hy & Hw & Hs).
  rewrite Hc1 in Hy, Hw, Hs. exists yi, wi, si. repeat split; trivial.
  cbn [numeric_where_present] in H1. unfold has_col in H1. rewrite Hy in H1.
  destruct (map_column "Year" to_numeric df) as [a|] eqn:Ha; [|discriminate].
  cbn [bind] in H1. destruct (map_column_rows _ _ _ _ Ha) as (i & Hi & ->).
  cbn [columns] in H1. rewrite Hw in H1.
  destruct (map_column "Ward" to_numeric _) as [b|] eqn:Hb; [|discriminate].
  cbn [bind] in H1. destruct (map_column_rows _ _ _ _ Hb) as (j & Hj & ->).
  cbn [columns] in H1. rewrite Hs in H1.
  destruct (map_column "Sub" to_numeric _) as [c|] eqn:Hcc; [|discriminate].
  cbn [bind] in H1. destruct (map_column_rows _ _ _ _ Hcc) as (k & Hk & ->).
  injection H1 as <-. cbn [columns rows] in *.
  destruct (map_column_rows _ _ _ _ H3) as (i' & Hi' & ->).
  destruct (map_column_rows _ _ _ _ H4) as (j' & Hj' & ->).
  destruct (map_column_rows _ _ _ _ H5) as (k' & Hk' & ->).
  cbn [columns rows filter_rows] in *.
  assert (i = yi) by congruence. assert (j = wi) by congruence.
  assert (k = si) by congruence. assert (i' = yi) by congruence.
  assert (j' = wi) by congruence. assert (k' = si) by congruence. subst.
  f_equal. rewrite !map_map. reflexivity.
Qed.

Lemma to_numeric_notna_number v :
  isna (to_numeric v) = false ->
  exists z, as_int (to_numeric v) = VInt z.
Proof.
  destruct v; simpl; try discriminate; eauto.
  destruct (decimal_of_str s); simpl; [eauto|].
  destruct (str_to_number s); simpl; [eauto | discriminate].
Qed.

(** What the loaders guarantee: on a rectangular frame, when they return,
    the frame is rectangular, has the labels it had, and its three key
    columns hold ints only. *)
Lemma normalize_keys_post read df :
  rectangular read ->
  normalize_keys read = Ok df ->
  rectangular df /\ columns df = columns read /\ int_keys df.
Proof.
  intros Hrect H.
  destruct (normalize_keys_rows _ _ H) as (yi & wi & si & Hy & Hw & Hs & ->).
  assert (Hyw : yi <> wi) by (intros ->; discriminate (index_of_inj _ _ _ _ Hy Hw)).
  assert (Hys : yi <> si) by (intros ->; discriminate (index_of_inj _ _ _ _ Hy Hs)).
  assert (Hws : wi <> si) by (intros ->; discriminate (index_of_inj _ _ _ _ Hw Hs)).
  pose proof (index_of_lt _ _ _ Hy) as Ly.
  pose proof (index_of_lt _ _ _ Hw) as Lw.
  pose proof (index_of_lt _ _ _ Hs) as Ls.
  set (N := fun r => update_cell si to_numeric
                       (update_cell wi to_numeric (update_cell yi to_numeric r))).
  set (A := fun r => update_cell si as_int
                       (update_cell wi as_int (update_cell yi as_int r))).
  set (P := fun r : list value => forallb (fun i => negb (isna (cell i r))) [yi; wi; si]).
  assert (Hrow : forall r', In r' (map A (filter P (map N (rows read)))) ->
            List.length r' = List.length (columns read)
            /\ (exists z, cell yi r' = VInt z)
            /\ (exists z, cell wi r' = VInt z)
            /\ (exists z, cell si r' = VInt z)).
  { intros r' Hr'. apply in_map_iff in Hr' as [r1 [<- Hr1]].
    apply filter_In in Hr1 as [Hr1 HP]. apply in_map_iff in Hr1 as [r [<- Hr]].
    unfold rectangular in Hrect. rewrite Forall_forall in Hrect.
    specialize (Hrect r Hr).
    unfold P in HP. cbn [forallb] in HP.
    rewrite !andb_true_iff, !negb_true_iff in HP. destruct HP as (Py & Pw & Ps & _).
    unfold A, N in *.
    split; [now rewrite !length_update_cell|].
    assert (Cy : cell yi (N r) = to_numeric (cell yi r)).
    { unfold N. rewrite !cell_update_cell_ne by congruence.
      apply cell_update_cell_eq. lia. }
    assert (Cw : cell wi (N r) = to_numeric (cell wi r)).
    { unfold N. rewrite (cell_update_cell_ne si wi) by congruence.
      rewrite cell_update_cell_eq by (rewrite length_update_cell; lia).
      now rewrite cell_update_cell_ne by congruence. }
    assert (Cs : cell si (N r) = to_numeric (cell si r)).
    { unfold N. rewrite cell_update_cell_eq by (rewrite !length_update_cell; lia).
      now rewrite !cell_update_cell_ne by congruence. }
    fold (N r) in Py, Pw, Ps |- *. rewrite Cy in Py. rewrite Cw in Pw. rewrite Cs in Ps.
    assert (Ln : List.length (N r) = List.length r)
      by (unfold N; now rewrite !length_update_cell).
    split; [|split].
    - rewrite !cell_update_cell_ne by congruence.
      rewrite cell_update_cell_eq by lia. rewrite Cy.
      exact (to_numeric_notna_number _ Py).
    - rewrite (cell_update_cell_ne si wi) by congruence.
      rewrite cell_update_cell_eq by (rewrite length_update_cell; lia).
      rewrite cell_update_cell_ne by congruence. rewrite Cw.
      exact (to_numeric_notna_number _ Pw).
    - rewrite cell_update_cell_eq by (rewrite !length_update_cell; lia).
      rewrite !cell_update_cell_ne by congruence. rewrite Cs.
      exact (to_numeric_notna_number _ Ps). }
  split; [|split; [reflexivity|]].
  - unfold rectangular. cbn [columns rows]. apply Forall_forall.
    intros r' Hr'. now apply Hrow.
  - intros c Hc. unfold column. cbn [columns rows].
    destruct Hc as [<- | [<- | [<- | []]]].
    + rewrite Hy. eexists. split; [reflexivity|]. apply Forall_forall.
      intros v Hv. apply in_map_iff in Hv as [r' [<- Hr']]. now apply Hrow.
    + rewrite Hw. eexists. split; [reflexivity|]. apply Forall_forall.
      intros v Hv. apply in_map_iff in Hv as [r' [<- Hr']]. now apply Hrow.
    + rewrite Hs. eexists. split; [reflexivity|]. apply Forall_forall.
      intros v Hv. apply in_map_iff in Hv as [r' [<- Hr']]. now apply Hrow.
Qed.

Lemma numeric_where_present_ok cols df :
  exists df1, numeric_where_present cols df = Ok df1.
Proof.
  revert df; induction cols as [|c cols IH]; intros df; simpl; [eauto|].
  unfold has_col, map_column, column.
  destruct (index_of c (columns df)); cbn [or_key_error bind]; apply IH.
Qed.

Lemma positions_missing c on cols :
  In c on -> index_of c cols = None ->
  exists label, positions on cols = Raise (KeyError label).
Proof.
  intros Hin Hc. induction on as [|a on IH]; [destruct Hin|]. simpl.
  destruct (index_of a cols) as [i|] eqn:Ha; cbn [or_key_error bind]; [|eauto].
  destruct Hin as [-> | Hin]; [congruence|].
  destruct (IH Hin) as [l ->]. cbn [bind]. eauto.
Qed.

Lemma normalize_keys_missing read c :
  In c ["Year"; "Ward"; "Sub"] -> has_col read c = false ->
  exists label, normalize_keys read = Raise (KeyError label).
Proof.
  intros Hin Hc. unfold normalize_keys.
  destruct (numeric_where_present_ok ["Year"; "Ward"; "Sub"] read) as [df1 H1].
  rewrite H1. cbn [bind]. unfold dropna.
  pose proof (numeric_where_present_columns _ _ _ H1) as Hcols.
  unfold has_col in Hc.
  destruct (index_of c (columns read)) eqn:Hi; [discriminate|].
  rewrite <- Hcols in Hi.
  destruct (positions_missing _ _ _ Hin Hi) as [l ->]. cbn [bind]. eauto.
Qed.

(** X9: The loop of both municipal loaders skips a key column that is not
    there, but the [dropna] after it does not: without one of [Year],
    [Ward], [Sub] both loaders raise a [KeyError]. *)
Theorem municipal_loaders_need_keys read c :
  In c ["Year"; "Ward"; "Sub"] -> has_col read c = false ->
  exists label,
    load_municipal_geometries read = Raise (KeyError label)
    /\ load_municipal_turnout read = Raise (KeyError label).
Proof.
  intros Hin Hc. destruct (normalize_keys_missing _ _ Hin Hc) as [l Hl].
  exists l. unfold load_municipal_geometries, load_municipal_turnout.
  rewrite Hl. split; reflexivity.
Qed.

(** X10: When [load_municipal_geometries] returns, on a rectangular frame, the
    frame has the labels it had, its rows are rows that were read, and
    the three key columns hold ints only: no null, no float, no text. *)
Theorem load_municipal_geometries_keys read gdf :
  rectangular read ->
  load_municipal_geometries read = Ok gdf ->
  rectangular gdf /\ columns gdf = columns read /\ int_keys gdf
  /\ (List.length (rows gdf) <= List.length (rows read))%nat.
Proof.
  intros Hrect H. unfold load_municipal_geometries in H.
  destruct (normalize_keys_post _ _ Hrect H) as (? & ? & ?).
  repeat split; trivial.
  destruct (normalize_keys_rows _ _ H) as (yi & wi & si & _ & _ & _ & ->).
  cbn [rows]. rewrite length_map.
  etransitivity; [apply filter_length_le|]. now rewrite length_map.
Qed.

Lemma map_column_rectangular c h df df' :
  rectangular df -> map_column c h df = Ok df' -> rectangular df'.
Proof.
  intros Hr H. destruct (map_column_rows _ _ _ _ H) as (i & _ & ->).
  unfold rectangular in *. cbn [columns rows]. rewrite Forall_map.
  eapply Forall_impl; [|exact Hr]. intros r Hl. cbn beta.
  now rewrite length_update_cell.
Qed.

Lemma map_column_other c c' h df df' :
  map_column c h df = Ok df' -> c' <> c -> column df' c' = column df c'.
Proof.
  intros H Hne. destruct (map_column_rows _ _ _ _ H) as (i & Hi & ->).
  unfold column. cbn [columns rows].
  destruct (index_of c' (columns df)) as [j|] eqn:Hj; [|reflexivity].
  f_equal. rewrite map_map. apply map_ext. intros r.
  apply cell_update_cell_ne. intros ->. apply Hne. exact (index_of_inj _ _ _ _ Hj Hi).
Qed.

Lemma map_column_same c h df df' :
  rectangular df -> map_column c h df = Ok df' ->
  exists series, column df c = Some series /\ column df' c = Some (map h series).
Proof.
  intros Hr H. destruct (map_column_rows _ _ _ _ H) as (i & Hi & ->).
  unfold column. cbn [columns rows]. rewrite Hi. eexists. split; [reflexivity|].
  f_equal. rewrite !map_map. apply map_ext_in. intros r Hin.
  unfold rectangular in Hr. rewrite Forall_forall in Hr.
  apply cell_update_cell_eq. rewrite (Hr r Hin). exact (index_of_lt _ _ _ Hi).
Qed.

Lemma load_municipal_turnout_post read df :
  rectangular read ->
  load_municipal_turnout read = Ok df ->
  rectangular df /\ columns df = columns read /\ int_keys df
  /\ (forall series, column df "PctVoted" = Some series ->
        Forall (fun v => v = VNaN \/ exists q, number_of v = Some q) series).
Proof.
  intros Hrect H. unfold load_municipal_turnout in H.
  destruct (normalize_keys read) as [d|] eqn:Hn; [|discriminate]. cbn [bind] in H.
  destruct (normalize_keys_post _ _ Hrect Hn) as (Hr & Hc & Hk).
  destruct (has_col d "PctVoted") eqn:Hp.
  - split; [exact (map_column_rectangular _ _ _ _ Hr H)|].
    split; [destruct (map_column_spec _ _ _ _ H) as [_ [_ ->]]; exact Hc|].
    split.
    + intros c Hin. rewrite (map_column_other _ c _ _ _ H).
      * now apply Hk.
      * destruct Hin as [<- | [<- | [<- | []]]]; discriminate.
    + intros series Hs.
      destruct (map_column_same _ _ _ _ Hr H) as (s0 & _ & Hs0).
      rewrite Hs0 in Hs. injection Hs as <-. rewrite Forall_map.
      apply Forall_forall. intros v _. destruct v; simpl; eauto.
      destruct (decimal_of_str s); simpl; [eauto|].
      destruct (str_to_number s); simpl; eauto.
  - injection H as <-. repeat split; trivial.
    intros series Hs. unfold has_col, column in *.
    destruct (index_of "PctVoted" (columns d)); discriminate.
Qed.

(** X11: When [load_municipal_turnout] returns, on a rectangular frame, the
    three key columns hold ints only and every [PctVoted] cell is a number
    or NaN. *)
Theorem load_municipal_turnout_keys read df :
  rectangular read ->
  load_municipal_turnout read = Ok df ->
  rectangular df /\ columns df = columns read /\ int_keys df
  /\ (forall series, column df "PctVoted" = Some series ->
        Forall (fun v => v = VNaN \/ exists q, number_of v = Some q) series).
Proof. exact (load_municipal_turnout_post read df). Qed.

Lemma map_column_fixed c h df i :
  index_of c (columns df) = Some i ->
  (forall r, In r (rows df) -> (i < List.length r)%nat /\ h (cell i r) = cell i r) ->
  map_column c h df = Ok df.
Proof.
  intros Hi Hfix. unfold map_column, column, set_column. rewrite Hi.
  cbn [or_key_error bind]. f_equal. destruct df as [cols rs]. cbn [columns rows] in *.
  f_equal. rewrite map_map.
  rewrite (zip_with_map_self (set_nth i) (fun x => h (cell i x)) rs).
  rewrite <- (map_id rs) at 2. apply map_ext_in. intros r Hr.
  destruct (Hfix r Hr) as [Hl Hh]. rewrite Hh. now apply set_nth_same.
Qed.

Lemma int_keys_cell df c i r :
  int_keys df -> In c ["Year"; "Ward"; "Sub"] ->
  index_of c (columns df) = Some i -> In r (rows df) ->
  exists z, cell i r = VInt z.
Proof.
  intros Hk Hin Hi Hr. destruct (Hk c Hin) as (series & Hs & Hall).
  unfold column in Hs. rewrite Hi in Hs. injection Hs as <-.
  unfold all_int in Hall. rewrite Forall_map, Forall_forall in Hall. now apply Hall.
Qed.

(** On a frame whose keys are ints, the alignment of the keys in
    [prepare_municipal_year_gdf] changes nothing: what reaches the merge
    is the rows of the year. *)
Lemma year_side_int_keys year df :
  rectangular df -> int_keys df ->
  exists dy, filter_eq_int "Year" year df = Some dy /\ year_side year df = Ok dy.
Proof.
  intros Hrect Hk.
  destruct (Hk "Year") as (sy & Hsy & _); [simpl; auto|].
  destruct (Hk "Ward") as (sw & Hsw & _); [simpl; auto|].
  destruct (Hk "Sub") as (ss & Hss & _); [simpl; auto|].
  unfold column in Hsy, Hsw, Hss.
  destruct (index_of "Year" (columns df)) as [yi|] eqn:Hy; [|discriminate].
  destruct (index_of "Ward" (columns df)) as [wi|] eqn:Hw; [|discriminate].
  destruct (index_of "Sub" (columns df)) as [si|] eqn:Hs; [|discriminate].
  unfold year_side, filter_eq_int. rewrite Hy. eexists. split; [reflexivity|].
  cbn [or_key_error bind].
  set (dy := filter_rows _ df).
  assert (Hrows : forall r, In r (rows dy) -> In r (rows df)).
  { intros r Hr. unfold dy, filter_rows in Hr. cbn [rows] in Hr.
    now apply filter_In in Hr as [? _]. }
  assert (Hlen : forall r, In r (rows dy) -> List.length r = List.length (columns df)).
  { intros r Hr. unfold rectangular in Hrect. rewrite Forall_forall in Hrect.
    apply Hrect. now apply Hrows. }
  assert (Hcols : columns dy = columns df) by reflexivity.
  assert (Hfw : forall (h : value -> value), (forall z, h (VInt z) = VInt z) ->
            map_column "Ward" h dy = Ok dy).
  { intros h Hh. apply (map_column_fixed _ _ _ wi); [now rewrite Hcols|].
    intros r Hr. split; [rewrite (Hlen r Hr); exact (index_of_lt _ _ _ Hw)|].
    destruct (int_keys_cell df "Ward" wi r Hk) as [z ->]; simpl; auto. }
  assert (Hfs : forall (h : value -> value), (forall z, h (VInt z) = VInt z) ->
            map_column "Sub" h dy = Ok dy).
  { intros h Hh. apply (map_column_fixed _ _ _ si); [now rewrite Hcols|].
    intros r Hr. split; [rewrite (Hlen r Hr); exact (index_of_lt _ _ _ Hs)|].
    destruct (int_keys_cell df "Sub" si r Hk) as [z ->]; simpl; auto. }
  rewrite (Hfw to_numeric) by reflexivity. cbn [bind].
  rewrite (Hfs to_numeric) by reflexivity. cbn [bind].
  assert (Hd : dropna ["Ward"; "Sub"] dy = Ok dy).
  { unfold dropna. cbn [positions]. rewrite Hcols, Hw, Hs. cbn [or_key_error bind].
    f_equal. unfold filter_rows. destruct dy as [cs rs] eqn:Edy. cbn [columns rows] in *.
    f_equal. apply filter_all. intros r Hr. cbn [forallb].
    destruct (int_keys_cell df "Ward" wi r Hk) as [z ->]; simpl; auto.
    destruct (int_keys_cell df "Sub" si r Hk) as [z' ->]; simpl; auto. }
  rewrite Hd. cbn [bind].
  rewrite (Hfw as_int) by reflexivity. cbn [bind].
  apply (Hfs as_int). reflexivity.
Qed.

(** X12: The loaders and the join together: on the frames the two municipal
    loaders return, [prepare_municipal_year_gdf] is the validated left
    merge of the geometry rows of the year with the four turnout columns
    of the turnout rows of the year; its own key alignment drops and
    changes nothing. *)
Theorem prepare_municipal_on_loaded read_gpkg read_csv geom_gdf turnout_df year :
  rectangular read_gpkg -> rectangular read_csv ->
  load_municipal_geometries read_gpkg = Ok geom_gdf ->
  load_municipal_turnout read_csv = Ok turnout_df ->
  exists g_year t_year,
    filter_eq_int "Year" year geom_gdf = Some g_year
    /\ filter_eq_int "Year" year turnout_df = Some t_year
    /\ prepare_municipal_year_gdf year geom_gdf turnout_df
       = (t_cols <- or_key_error "PctVoted"
                      (select ["Year"; "Ward"; "Sub"; "PctVoted"] t_year) ;;
          merge_left true ["Year"; "Ward"; "Sub"] g_year t_cols).
Proof.
  intros Hrg Hrt Hg Ht.
  destruct (normalize_keys_post _ _ Hrg Hg) as (Hg1 & _ & Hg2).
  destruct (load_municipal_turnout_post _ _ Hrt Ht) as (Ht1 & _ & Ht2 & _).
  destruct (year_side_int_keys year _ Hg1 Hg2) as (gy & Hgy & Hgs).
  destruct (year_side_int_keys year _ Ht1 Ht2) as (ty & Hty & Hts).
  exists gy, ty. repeat split; trivial.
  exact (prepare_municipal_as_sides _ _ _ _ _ Hgs Hts).
Qed.

End MunicipalLoaderFacts.

(** ** The years on offer and the summary of a year *)

Section YearFacts.
Context {E : Env}.
Local Open Scope list_scope.

Lemma increasing_cons x y l :
  increasing (x :: y :: l) <-> (x < y)%Z /\ increasing (y :: l).
Proof. reflexivity. Qed.

Lemma insert_sorted_increasing x l :
  increasing l -> ~ In x l -> increasing (insert_sorted Z.leb x l).
Proof.
  induction l as [|y l IH]; intros Hinc Hx; [simpl; auto|].
  cbn [insert_sorted]. destruct (Z.leb x y) eqn:Hxy.
  - apply increasing_cons. split; [|exact Hinc].
    apply Z.leb_le in Hxy. assert (x <> y) by (intros ->; apply Hx; now left). lia.
  - apply Z.leb_gt in Hxy.
    assert (Hl : increasing l) by (destruct l; [exact I | apply Hinc]).
    assert (Hx' : ~ In x l) by (intros H; apply Hx; now right).
    specialize (IH Hl Hx').
    destruct l as [|z l]; cbn [insert_sorted] in *.
    + apply increasing_cons. split; [lia | exact IH].
    + destruct (Z.leb x z); apply increasing_cons; (split; [|exact IH]); [lia|].
      apply Hinc.
Qed.

Lemma sort_by_increasing l : NoDup l -> increasing (sort_by Z.leb l).
Proof.
  unfold sort_by. induction 1 as [|x l Hx _ IH]; [exact I|]. simpl.
  apply insert_sorted_increasing; [exact IH|].
  intros Hin. apply Hx. eapply Permutation_in; [apply (sort_by_perm Z.leb)|exact Hin].
Qed.

Lemma sorted_years_spec df years :
  sorted_years df = Ok years ->
  exists series,
    column df "Year" = Some series
    /\ increasing years
    /\ forall z, In z years <->
                 exists v, In v series /\ isna v = false /\ int_cell v = Ok z.
Proof.
  unfold sorted_years.
  destruct (column df "Year") as [series|]; [|discriminate]. cbn [or_key_error bind].
  destruct (all_ok _) as [ints|] eqn:Hints; [|discriminate]. cbn [bind].
  intros [= <-]. exists series. split; [reflexivity|]. split.
  - apply sort_by_increasing. apply NoDup_nodup.
  - intros z. apply all_ok_Forall2 in Hints.
    assert (Hperm : In z (sort_by Z.leb (nodup Z.eq_dec ints)) <-> In z ints).
    { split; intros H.
      - apply (nodup_In Z.eq_dec).
        eapply Permutation_in; [apply (sort_by_perm Z.leb)|exact H].
      - eapply Permutation_in; [symmetry; apply (sort_by_perm Z.leb)|].
        now apply nodup_In. }
    rewrite Hperm. clear Hperm. split.
    + intros Hz. destruct (Forall2_right_in _ _ _ _ Hints Hz) as (v & Hv & Hvz).
      apply filter_In in Hv as [Hv Hna]. apply negb_true_iff in Hna. eauto.
    + intros (v & Hv & Hna & Hvz).
      assert (Hf : In v (filter (fun v => negb (isna v)) series))
        by (apply filter_In; split; [exact Hv | now rewrite Hna]).
      revert Hf. induction Hints as [|a b l l' Hab _ IH]; [intros []|].
      intros [-> | Hf]; [left; congruence | right; auto].
Qed.

(** X13: The list [get_available_years] returns is strictly increasing:
    sorted, and no year twice. *)
Theorem get_available_years_increasing turnout_df gdf years :
  get_available_years turnout_df gdf = Ok years -> increasing years.
Proof.
  assert (Hs : forall f, sorted_years f = Ok years -> increasing years).
  { intros f H. now destruct (sorted_years_spec _ _ H) as (_ & _ & ? & _). }
  unfold get_available_years.
  destruct turnout_df as [t|]; [destruct (has_col t "Year"); [apply Hs|]|];
    (destruct gdf as [g|]; [destruct (has_col g "Year"); [apply Hs|]|]);
    now intros [= <-].
Qed.

(** X14: The turnout frame comes first: when it has a [Year] column the years
    are the ints of its non-null [Year] cells and of nothing else,
    whatever the geometry frame holds, also when the turnout frame has no
    rows. *)
Theorem get_available_years_turnout_first turnout_df gdf series years :
  column turnout_df "Year" = Some series ->
  get_available_years (Some turnout_df) gdf = Ok years ->
  forall z, In z years <->
            exists v, In v series /\ isna v = false /\ int_cell v = Ok z.
Proof.
  intros Hc. unfold get_available_years, has_col.
  assert (Hi : index_of "Year" (columns turnout_df) <> None).
  { unfold column in Hc. destruct (index_of "Year" (columns turnout_df)); congruence. }
  destruct (index_of "Year" (columns turnout_df)); [|congruence].
  intros H. destruct (sorted_years_spec _ _ H) as (s & Hs & _ & Hin).
  assert (s = series) by congruence. subst s. exact Hin.
Qed.

Lemma all_ok_total {A B} (f : A -> res B) l :
  (forall a, In a l -> exists b, f a = Ok b) ->
  exists vals, all_ok (map f l) = Ok vals.
Proof.
  induction l as [|a l IH]; intros H; simpl; [eauto|].
  destruct (H a (or_introl eq_refl)) as [b ->]. cbn [bind].
  destruct IH as [vs ->]; [intros; apply H; now right|]. cbn [bind]. eauto.
Qed.

Lemma years_of_int_keys df :
  int_keys df ->
  exists series years,
    column df "Year" = Some series
    /\ sorted_years df = Ok years
    /\ forall z, In z years <-> In (VInt z) series.
Proof.
  intros Hk. destruct (Hk "Year") as (series & Hs & Hall); [simpl; auto|].
  unfold all_int in Hall. rewrite Forall_forall in Hall.
  destruct (all_ok_total int_cell (filter (fun v => negb (isna v)) series)) as [ints Hints].
  { intros v Hv. apply filter_In in Hv as [Hv _]. destruct (Hall v Hv) as [z ->].
    exists z. reflexivity. }
  exists series. eexists. split; [exact Hs|].
  assert (Hy : sorted_years df = Ok (sort_by Z.leb (nodup Z.eq_dec ints))).
  { unfold sorted_years. rewrite Hs. cbn [or_key_error bind]. now rewrite Hints. }
  split; [exact Hy|].
  intros z. destruct (sorted_years_spec _ _ Hy) as (s & Hs' & _ & Hin).
  assert (s = series) by congruence. subst s. rewrite Hin. split.
  - intros (v & Hv & _ & Hz). destruct (Hall v Hv) as [z' ->].
    simpl in Hz. now injection Hz as <-.
  - intros Hv. exists (VInt z). auto.
Qed.

(** X15: With the turnout frame a municipal loader returned,
    [get_available_years] cannot raise, and the years it lists are the
    ints of the [Year] column, each one once. *)
Theorem get_available_years_on_loaded read turnout_df gdf :
  rectangular read ->
  load_municipal_turnout read = Ok turnout_df ->
  exists series years,
    column turnout_df "Year" = Some series
    /\ get_available_years (Some turnout_df) gdf = Ok years
    /\ increasing years
    /\ forall z, In z years <-> In (VInt z) series.
Proof.
  intros Hrect H.
  destruct (load_municipal_turnout_post _ _ Hrect H) as (_ & _ & Hk & _).
  destruct (years_of_int_keys _ Hk) as (series & years & Hs & Hy & Hin).
  exists series, years. split; [exact Hs|].
  assert (Hg : get_available_years (Some turnout_df) gdf = Ok years).
  { unfold get_available_years, has_col. unfold column in Hs.
    destruct (index_of "Year" (columns turnout_df)); [exact Hy | discriminate]. }
  split; [exact Hg|]. split; [|exact Hin].
  now destruct (sorted_years_spec _ _ Hy) as (_ & _ & ? & _).
Qed.

End YearFacts.

Section SummaryFacts.
Context {E : Env}.
Local Open Scope list_scope.

Lemma Qleast_spec l x :
  In (Qleast x l) (x :: l) /\ forall y, In y (x :: l) -> Qleast x l <= y.
Proof.
  unfold Qleast. revert x. induction l as [|a l IH]; intros x; simpl.
  - split; [auto|]. intros y [<- | []]. apply Qle_refl.
  - destruct (Qle_bool x a) eqn:Hxa.
    + destruct (IH x) as [Hin Hle]. split.
      * destruct Hin as [<- | Hin]; auto.
      * intros y [<- | [<- | Hy]].
        -- apply Hle. now left.
        -- apply Qle_trans with x; [apply Hle; now left | now apply Qle_bool_iff].
        -- apply Hle. now right.
    + destruct (IH a) as [Hin Hle]. split; [now right|].
      assert (Hax : a <= x).
      { apply Qlt_le_weak, Qnot_le_lt. intros H. apply Qle_bool_iff in H. congruence. }
      intros y [<- | Hy]; [|now apply Hle].
      apply Qle_trans with a; [apply Hle; now left | exact Hax].
Qed.

Lemma Qgreatest_spec l x :
  In (Qgreatest x l) (x :: l) /\ forall y, In y (x :: l) -> y <= Qgreatest x l.
Proof.
  unfold Qgreatest. revert x. induction l as [|a l IH]; intros x; simpl.
  - split; [auto|]. intros y [<- | []]. apply Qle_refl.
  - destruct (Qle_bool a x) eqn:Hax.
    + destruct (IH x) as [Hin Hle]. split.
      * destruct Hin as [<- | Hin]; auto.
      * intros y [<- | [<- | Hy]].
        -- apply Hle. now left.
        -- apply Qle_trans with x; [now apply Qle_bool_iff | apply Hle; now left].
        -- apply Hle. now right.
    + destruct (IH a) as [Hin Hle]. split; [now right|].
      assert (Hxa : x <= a).
      { apply Qlt_le_weak, Qnot_le_lt. intros H. apply Qle_bool_iff in H. congruence. }
      intros y [<- | Hy]; [|now apply Hle].
      apply Qle_trans with a; [exact Hxa | apply Hle; now left].
Qed.

Lemma number_cell_ok v q : number_cell v = Ok q <-> number_of v = Some q.
Proof.
  unfold number_cell. destruct (number_of v); split; intros H; try discriminate;
    congruence.
Qed.

(** What a returned summary was computed from: nothing, or the numbers of
    the non-null cells of [PctVoted], in order. *)
Lemma compute_turnout_summary_cases df_year s :
  compute_turnout_summary df_year = Ok s ->
  (s = Summary (List.length (rows df_year)) None None None
   /\ forall pct, column df_year "PctVoted" = Some pct ->
                  filter (fun v => negb (isna v)) pct = [])
  \/ exists pct x xs,
       column df_year "PctVoted" = Some pct
       /\ Forall2 (fun v q => number_of v = Some q)
            (filter (fun v => negb (isna v)) pct) (x :: xs)
       /\ s = Summary (S (List.length xs))
                (Some (Qsum (x :: xs) / inject_Z (Z.of_nat (S (List.length xs)))))
                (Some (Qleast x xs)) (Some (Qgreatest x xs)).
Proof.
  unfold compute_turnout_summary.
  destruct (column df_year "PctVoted") as [pct|]; [|intros [= <-]; left; split;
    [reflexivity | discriminate]].
  destruct (filter _ pct) as [|v vs] eqn:Hf.
  - intros [= <-]. left. split; [reflexivity|]. now intros ? [= <-].
  - destruct (number_cell v) as [x|] eqn:Hx; [|discriminate]. cbn [bind].
    destruct (all_ok _) as [xs|] eqn:Hxs; [|discriminate]. cbn [bind].
    intros [= <-]. right. exists pct, x, xs. split; [reflexivity|]. split; [|reflexivity].
    rewrite Hf. constructor; [now apply number_cell_ok|].
    apply all_ok_Forall2 in Hxs. eapply Forall2_impl; [|exact Hxs].
    intros a b. apply number_cell_ok.
Qed.

(** X16: The count of a summary: without turnout figures (no [PctVoted]
    column, or only nulls in it) [n] is the number of rows of the frame
    and the three statistics are [None]; with figures, [n] is the number
    of non-null [PctVoted] cells and the three statistics are there. *)
Theorem compute_turnout_summary_count df_year s :
  compute_turnout_summary df_year = Ok s ->
  match column df_year "PctVoted" with
  | None => s = Summary (List.length (rows df_year)) None None None
  | Some pct =>
      let present := filter (fun v => negb (isna v)) pct in
      match present with
      | [] => s = Summary (List.length (rows df_year)) None None None
      | _ => summary_n s = List.length present
             /\ summary_mean s <> None /\ summary_min s <> None
             /\ summary_max s <> None
      end
  end.
Proof.
  intros H. destruct (compute_turnout_summary_cases _ _ H) as
    [[-> Hn] | (pct & x & xs & Hc & Hall & ->)].
  - destruct (column df_year "PctVoted") as [pct|]; [|reflexivity].
    cbn zeta. now rewrite (Hn pct eq_refl).
  - rewrite Hc. cbn zeta. apply Forall2_length in Hall.
    destruct (filter _ pct); [discriminate|].
    cbn [summary_n summary_mean summary_min summary_max].
    repeat split; try discriminate. simpl in Hall. simpl. lia.
Qed.

(** X17: The extremes of a summary: [min] and [max] are figures of the
    column, and every figure of the column lies between them. *)
Theorem compute_turnout_summary_bounds df_year pct s lo hi :
  column df_year "PctVoted" = Some pct ->
  compute_turnout_summary df_year = Ok s ->
  summary_min s = Some lo -> summary_max s = Some hi ->
  (exists v, In v pct /\ number_of v = Some lo)
  /\ (exists v, In v pct /\ number_of v = Some hi)
  /\ forall v q, In v pct -> number_of v = Some q -> lo <= q /\ q <= hi.
Proof.
  intros Hc H Hlo Hhi. destruct (compute_turnout_summary_cases _ _ H) as
    [[-> _] | (pct' & x & xs & Hc' & Hall & ->)]; [discriminate|].
  assert (pct' = pct) by congruence. subst pct'.
  cbn [summary_min summary_max] in Hlo, Hhi.
  injection Hlo as <-. injection Hhi as <-.
  destruct (Qleast_spec xs x) as [Lin Lle]. destruct (Qgreatest_spec xs x) as [Gin Gle].
  assert (Hback : forall q, In q (x :: xs) -> exists v, In v pct /\ number_of v = Some q).
  { intros q Hq. destruct (Forall2_right_in _ _ _ _ Hall Hq) as (v & Hv & Hvq).
    apply filter_In in Hv as [Hv _]. eauto. }
  split; [now apply Hback|]. split; [now apply Hback|].
  intros v q Hv Hq.
  assert (Hin : In q (x :: xs)).
  { assert (Hf : In v (filter (fun v => negb (isna v)) pct)).
    { apply filter_In. split; [exact Hv|]. destruct v; simpl in *; congruence. }
    destruct (Forall2_left_in _ _ _ _ Hall Hf) as (q' & Hq' & Hvq). congruence. }
  split; [now apply Lle | now apply Gle].
Qed.

End SummaryFacts.

(** ** Rounding to a 64-bit float *)

Section FloatFacts.
Import Float64.
Local Open Scope Q_scope.


Lemma rne_floor x : (Qfloor x <= rne x <= Qfloor x + 1)%Z.
Proof.
  unfold rne. destruct (Qcompare _ _); [destruct (Z.even _)| |]; lia.
Qed.

Lemma rne_Z x z : x == inject_Z z -> rne x = z.
Proof.
  intros H. unfold rne.
  assert (Hf : Qfloor x = z) by (rewrite (Qfloor_comp _ _ H); apply Qfloor_Z).
  rewrite Hf.
  assert (Hc : Qcompare (x - inject_Z z) (1 # 2) = Lt).
  { apply Qlt_alt. rewrite H.
    setoid_replace (inject_Z z - inject_Z z) with 0 by ring. reflexivity. }
  now rewrite Hc.
Qed.

Lemma rne_mono x y : x <= y -> (rne x <= rne y)%Z.
Proof.
  intros Hxy. pose proof (Qfloor_resp_le _ _ Hxy) as Hf.
  destruct (Z.eq_dec (Qfloor x) (Qfloor y)) as [He|Hne].
  - unfold rne. rewrite <- He.
    destruct (Qcompare (x - inject_Z (Qfloor x)) (1 # 2)) eqn:Hx;
      destruct (Qcompare (y - inject_Z (Qfloor x)) (1 # 2)) eqn:Hy;
      try (destruct (Z.even (Qfloor x))); try lia; exfalso;
      repeat match goal with
             | H : Qcompare _ _ = Eq |- _ => apply Qeq_alt in H
             | H : Qcompare _ _ = Lt |- _ => apply Qlt_alt in H
             | H : Qcompare _ _ = Gt |- _ => apply Qgt_alt in H
             end;
      revert Hx Hy; generalize (inject_Z (Qfloor x)); intros; lra.
  - pose proof (rne_floor x). pose proof (rne_floor y). lia.
Qed.

Lemma two_pow_pos e : 0 < 2 ^ e.
Proof. apply Qpower_0_lt. reflexivity. Qed.

Lemma two_pow_plus a b : 2 ^ (a + b) == 2 ^ a * 2 ^ b.
Proof. apply Qpower_plus. discriminate. Qed.

Lemma two_pow_succ a : 2 ^ (a + 1) == 2 * 2 ^ a.
Proof. rewrite two_pow_plus. change (2 ^ 1)%Q with 2%Q. ring. Qed.

Lemma two_pow_Z a : (0 <= a)%Z -> inject_Z (2 ^ a) == 2 ^ a.
Proof. intros H. now rewrite Zpower_Qpower. Qed.

Lemma log2_bounds n :
  (0 < n)%Z -> 2 ^ (Z.log2 n) <= inject_Z n /\ inject_Z n < 2 ^ (Z.log2 n + 1).
Proof.
  intros Hn. destruct (Z.log2_spec n Hn) as [H1 H2].
  pose proof (Z.log2_nonneg n) as H0.
  rewrite <- !two_pow_Z by lia. rewrite <- Zle_Qle, <- Zlt_Qlt.
  replace (Z.succ (Z.log2 n)) with (Z.log2 n + 1)%Z in H2 by lia. auto.
Qed.

Lemma ilog2_spec x : 0 < x -> 2 ^ ilog2 x <= x /\ x < 2 ^ (ilog2 x + 1).
Proof.
  intros Hx. unfold ilog2.
  set (a := Z.log2 (Qnum x)). set (b := Z.log2 (Zpos (Qden x))).
  assert (Hn : (0 < Qnum x)%Z).
  { destruct x as [n d]. unfold Qlt in Hx. cbn in *. lia. }
  destruct (log2_bounds (Qnum x) Hn) as [A1 A2].
  destruct (log2_bounds (Zpos (Qden x)) eq_refl) as [B1 B2].
  fold a in A1, A2. fold b in B1, B2.
  assert (Hd : 0 < inject_Z (Zpos (Qden x))) by reflexivity.
  assert (Ex : x == inject_Z (Qnum x) / inject_Z (Zpos (Qden x))).
  { destruct x as [n d]. cbn [Qnum Qden]. apply Qmake_Qdiv. }
  assert (Ex' : x * inject_Z (Zpos (Qden x)) == inject_Z (Qnum x)).
  { rewrite Ex at 1. field. lra. }
  pose proof (two_pow_pos (a - b)) as P0.
  pose proof (two_pow_pos b) as Pb.
  assert (Pa : 2 ^ a == 2 ^ (a - b) * 2 ^ b).
  { rewrite <- two_pow_plus. now replace (a - b + b)%Z with a by lia. }
  rewrite two_pow_succ in A2, B2.
  destruct (Qle_bool (2 ^ (a - b)) x) eqn:Hb.
  - apply Qle_bool_iff in Hb. split; [exact Hb|].
    rewrite two_pow_succ. nra.
  - assert (Hlt : x < 2 ^ (a - b)).
    { apply Qnot_le_lt. intros H. apply Qle_bool_iff in H. congruence. }
    replace (a - b - 1 + 1)%Z with (a - b)%Z by lia. split; [|exact Hlt].
    assert (P1 : 2 ^ (a - b) == 2 * 2 ^ (a - b - 1)).
    { rewrite <- two_pow_succ. now replace (a - b - 1 + 1)%Z with (a - b)%Z by lia. }
    pose proof (two_pow_pos (a - b - 1)) as P2. nra.
Qed.

Lemma ilog2_mono x y : 0 < x -> x <= y -> (ilog2 x <= ilog2 y)%Z.
Proof.
  intros Hx Hxy. destruct (ilog2_spec x Hx) as [X1 _].
  destruct (ilog2_spec y ltac:(lra)) as [_ Y2].
  assert (H : 2 ^ ilog2 x < 2 ^ (ilog2 y + 1)) by lra.
  apply Qpower_lt_compat_l_inv in H; [lia | reflexivity].
Qed.


Lemma round_pos_eq x :
  round_pos x
  == inject_Z (rne (x / 2 ^ (Z.max (ilog2 x) (-1022) - 52)))
     * 2 ^ (Z.max (ilog2 x) (-1022) - 52).
Proof. unfold round_pos. apply Qred_correct. Qed.

Lemma scaled_pow e k : 2 ^ e / 2 ^ (e - k) == 2 ^ k.
Proof.
  pose proof (two_pow_pos (e - k)) as P.
  assert (H : 2 ^ e == 2 ^ k * 2 ^ (e - k)).
  { rewrite <- two_pow_plus. now replace (k + (e - k))%Z with e by lia. }
  rewrite H. field. lra.
Qed.

Lemma rne_pow k x : (0 <= k)%Z -> x == 2 ^ k -> rne x = (2 ^ k)%Z.
Proof. intros Hk Hx. apply rne_Z. now rewrite two_pow_Z. Qed.

Lemma div_le_compat x y u : 0 < u -> x <= y -> x / u <= y / u.
Proof.
  intros Hu Hxy. unfold Qdiv. apply Qmult_le_compat_r; [exact Hxy|].
  apply Qlt_le_weak, Qinv_lt_0_compat, Hu.
Qed.

Lemma inject_mult_le a b u : 0 < u -> (a <= b)%Z -> inject_Z a * u <= inject_Z b * u.
Proof.
  intros Hu Hab. apply Qmult_le_compat_r; [now rewrite <- Zle_Qle | lra].
Qed.

Lemma round_pos_normal x :
  0 < x -> (-1022 <= ilog2 x)%Z ->
  2 ^ ilog2 x <= round_pos x /\ round_pos x <= 2 ^ (ilog2 x + 1).
Proof.
  intros Hx He. destruct (ilog2_spec x Hx) as [X1 X2].
  rewrite round_pos_eq. rewrite Z.max_l by lia.
  set (e := ilog2 x) in *. set (u := 2 ^ (e - 52)).
  assert (Hu : 0 < u) by apply two_pow_pos.
  assert (L : (2 ^ 52 <= rne (x / u))%Z).
  { rewrite <- (rne_pow 52 (2 ^ e / u)); [|lia|apply scaled_pow].
    apply rne_mono, div_le_compat; assumption. }
  assert (U : (rne (x / u) <= 2 ^ 53)%Z).
  { rewrite <- (rne_pow 53 (2 ^ (e + 1) / u)); [|lia|].
    - apply rne_mono, div_le_compat; [assumption | lra].
    - unfold u. replace (e - 52)%Z with (e + 1 - 53)%Z by lia. apply scaled_pow. }
  assert (E1 : 2 ^ e == inject_Z (2 ^ 52) * u).
  { rewrite two_pow_Z by lia. unfold u. rewrite <- two_pow_plus.
    now replace (52 + (e - 52))%Z with e by lia. }
  assert (E2 : 2 ^ (e + 1) == inject_Z (2 ^ 53) * u).
  { rewrite two_pow_Z by lia. unfold u. rewrite <- two_pow_plus.
    now replace (53 + (e - 52))%Z with (e + 1)%Z by lia. }
  rewrite E1, E2. split; apply inject_mult_le; assumption.
Qed.

Lemma round_pos_subnormal x :
  0 < x -> (ilog2 x < -1022)%Z ->
  0 <= round_pos x /\ round_pos x <= 2 ^ (-1022).
Proof.
  intros Hx He. destruct (ilog2_spec x Hx) as [_ X2].
  rewrite round_pos_eq. rewrite Z.max_r by lia.
  set (u := 2 ^ (-1022 - 52)).
  assert (Hu : 0 < u) by apply two_pow_pos.
  assert (Hx' : x <= 2 ^ (-1022)).
  { apply Qle_trans with (2 ^ (ilog2 x + 1)); [lra|].
    apply Qpower_le_compat_l; [lia | discriminate]. }
  assert (L : (0 <= rne (x / u))%Z).
  { rewrite <- (rne_Z 0 0) by reflexivity. apply rne_mono.
    apply Qle_shift_div_l; [exact Hu | lra]. }
  assert (U : (rne (x / u) <= 2 ^ 52)%Z).
  { rewrite <- (rne_pow 52 (2 ^ (-1022) / u)); [|lia|apply scaled_pow].
    apply rne_mono, div_le_compat; assumption. }
  assert (E1 : 2 ^ (-1022) == inject_Z (2 ^ 52) * u).
  { rewrite two_pow_Z by lia. unfold u. now rewrite <- two_pow_plus. }
  rewrite E1. split.
  - apply Qmult_le_0_compat; [now rewrite <- (Zle_Qle 0) | lra].
  - apply inject_mult_le; assumption.
Qed.

Lemma round_pos_nonneg x : 0 < x -> 0 <= round_pos x.
Proof.
  intros Hx. destruct (Z_lt_le_dec (ilog2 x) (-1022)) as [H|H].
  - now apply round_pos_subnormal.
  - destruct (round_pos_normal x Hx H) as [L _].
    pose proof (two_pow_pos (ilog2 x)). lra.
Qed.

Lemma round_pos_mono x y : 0 < x -> x <= y -> round_pos x <= round_pos y.
Proof.
  intros Hx Hxy. assert (Hy : 0 < y) by lra.
  pose proof (ilog2_mono x y Hx Hxy) as He.
  destruct (Z.eq_dec (Z.max (ilog2 x) (-1022)) (Z.max (ilog2 y) (-1022))) as [Heq|Hne].
  - rewrite !round_pos_eq, Heq.
    apply inject_mult_le; [apply two_pow_pos|].
    apply rne_mono, div_le_compat; [apply two_pow_pos | exact Hxy].
  - assert (Hny : (-1022 < ilog2 y)%Z) by lia.
    destruct (round_pos_normal y Hy ltac:(lia)) as [Ly _].
    apply Qle_trans with (2 ^ ilog2 y); [|exact Ly].
    destruct (Z_lt_le_dec (ilog2 x) (-1022)) as [H|H].
    + destruct (round_pos_subnormal x Hx H) as [_ U].
      apply Qle_trans with (2 ^ (-1022)); [exact U|].
      apply Qpower_le_compat_l; [lia | discriminate].
    + destruct (round_pos_normal x Hx H) as [_ U].
      apply Qle_trans with (2 ^ (ilog2 x + 1)); [exact U|].
      apply Qpower_le_compat_l; [lia | discriminate].
Qed.

Lemma Qnum_sign x :
  match Qnum x with
  | Z0 => x == 0
  | Zpos _ => 0 < x
  | Zneg _ => x < 0
  end.
Proof. destruct x as [[|n|n] d]; unfold Qeq, Qlt; cbn; lia. Qed.

Lemma round64_pos x : 0 < x -> round64 x = round_pos x.
Proof.
  intros H. unfold round64. pose proof (Qnum_sign x) as S.
  destruct (Qnum x); [lra | reflexivity | lra].
Qed.

Lemma round64_neg x : x < 0 -> round64 x = - round_pos (- x).
Proof.
  intros H. unfold round64. pose proof (Qnum_sign x) as S.
  destruct (Qnum x); [lra | lra | reflexivity].
Qed.

Lemma round64_zero x : x == 0 -> round64 x = 0.
Proof.
  intros H. unfold round64. pose proof (Qnum_sign x) as S.
  destruct (Qnum x); [reflexivity | lra | lra].
Qed.

(** Rounding keeps the order. *)
Lemma round64_mono x y : x <= y -> round64 x <= round64 y.
Proof.
  intros Hxy.
  destruct (Q_dec x 0) as [[Hx|Hx]|Hx].
  - rewrite (round64_neg x Hx).
    pose proof (round_pos_nonneg (- x) ltac:(lra)) as Nx.
    destruct (Q_dec y 0) as [[Hy|Hy]|Hy].
    + rewrite (round64_neg y Hy). apply Qopp_le_compat. apply round_pos_mono; lra.
    + rewrite (round64_pos y Hy). pose proof (round_pos_nonneg y Hy). lra.
    + rewrite (round64_zero y Hy). lra.
  - assert (Hy : 0 < y) by lra.
    rewrite (round64_pos x Hx), (round64_pos y Hy). now apply round_pos_mono.
  - rewrite (round64_zero x Hx).
    destruct (Q_dec y 0) as [[Hy|Hy]|Hy].
    + lra.
    + rewrite (round64_pos y Hy). now apply round_pos_nonneg.
    + rewrite (round64_zero y Hy). apply Qle_refl.
Qed.

#[global] Instance round64_comp : Proper (Qeq ==> Qeq) round64.
Proof.
  intros x y H. apply Qle_antisym; apply round64_mono; rewrite H; apply Qle_refl.
Qed.


Lemma round_pos_exact x m :
  0 < x -> x / 2 ^ (Z.max (ilog2 x) (-1022) - 52) == inject_Z m -> round_pos x == x.
Proof.
  intros Hx Hm. rewrite round_pos_eq. rewrite (rne_Z _ m Hm), <- Hm.
  pose proof (two_pow_pos (Z.max (ilog2 x) (-1022) - 52)). field. lra.
Qed.

Lemma round_pos_Z z : (0 < z <= 2 ^ 53)%Z -> round_pos (inject_Z z) == inject_Z z.
Proof.
  intros [Hz Hz']. set (x := inject_Z z).
  assert (Hx : 0 < x) by (unfold x; now rewrite <- (Zlt_Qlt 0)).
  destruct (ilog2_spec x Hx) as [X1 X2].
  assert (Hx1 : 1 <= x) by (unfold x; rewrite <- (Zle_Qle 1); lia).
  assert (Hx2 : x <= 2 ^ 53).
  { unfold x. rewrite <- two_pow_Z by lia. now rewrite <- Zle_Qle. }
  assert (E0 : (0 <= ilog2 x)%Z).
  { assert (H : 2 ^ 0 < 2 ^ (ilog2 x + 1)) by (rewrite Qpower_0_r; lra).
    apply (Qpower_lt_compat_l_inv 2 0 (ilog2 x + 1)) in H; [lia | reflexivity]. }
  assert (E1 : (ilog2 x <= 53)%Z).
  { assert (H : 2 ^ ilog2 x <= 2 ^ 53) by lra.
    apply (Qpower_le_compat_l_inv 2 (ilog2 x) 53) in H; [lia | reflexivity]. }
  destruct (Z.eq_dec (ilog2 x) 53) as [E|E].
  - apply (round_pos_exact x (2 ^ 52) Hx). rewrite Z.max_l by lia. rewrite E.
    rewrite E in X1. assert (Ex : x == 2 ^ 53) by lra.
    rewrite Ex. reflexivity.
  - apply (round_pos_exact x (z * 2 ^ (52 - ilog2 x)) Hx). rewrite Z.max_l by lia.
    rewrite inject_Z_mult, two_pow_Z by lia. fold x.
    pose proof (two_pow_pos (ilog2 x - 52)) as P1.
    assert (P : 2 ^ (ilog2 x - 52) * 2 ^ (52 - ilog2 x) == 1).
    { rewrite <- two_pow_plus.
      now replace (ilog2 x - 52 + (52 - ilog2 x))%Z with 0%Z by lia. }
    apply Qmult_inj_r with (2 ^ (ilog2 x - 52)); [lra|].
    setoid_replace (x / 2 ^ (ilog2 x - 52) * 2 ^ (ilog2 x - 52)) with x by (field; lra).
    rewrite <- Qmult_assoc, (Qmult_comm (2 ^ (52 - ilog2 x))), P. ring.
Qed.

(** An integer of at most 53 bits is a float. *)
Lemma round64_Z z : (Z.abs z <= 2 ^ 53)%Z -> round64 (inject_Z z) == inject_Z z.
Proof.
  intros Hz. destruct (Z.lt_trichotomy z 0) as [H|[->|H]].
  - assert (Hx : inject_Z z < 0) by (unfold Qlt; cbn; lia).
    rewrite (round64_neg _ Hx).
    assert (E : - inject_Z z == inject_Z (- z)) by now rewrite inject_Z_opp.
    assert (P1 : 0 < - inject_Z z) by lra.
    assert (P2 : 0 < inject_Z (- z)) by (unfold Qlt; cbn; lia).
    assert (R : round_pos (- inject_Z z) == round_pos (inject_Z (- z))).
    { rewrite <- (round64_pos _ P1), <- (round64_pos _ P2). now apply round64_comp. }
    rewrite R, round_pos_Z by lia. rewrite inject_Z_opp. ring.
  - reflexivity.
  - assert (Hx : 0 < inject_Z z) by (unfold Qlt; cbn; lia).
    rewrite (round64_pos _ Hx). apply round_pos_Z. lia.
Qed.

Lemma round64_half : round64 (1 # 2) == 1 # 2.
Proof. vm_compute. reflexivity. Qed.

End FloatFacts.

(** ** The colour of a subdivision *)

Section ColourFacts.
Context {E : Env}.
Import Float64.
Local Open Scope list_scope.
Local Open Scope Q_scope.

Lemma trunc_floor x : 0 <= x -> trunc x = Qfloor x.
Proof.
  destruct x as [n d]. unfold Qle, trunc, Qfloor. cbn [Qnum Qden]. intros H.
  apply Z.quot_div_nonneg; lia.
Qed.

Lemma trunc_mono x y : 0 <= x -> x <= y -> (trunc x <= trunc y)%Z.
Proof.
  intros H0 Hxy. rewrite !trunc_floor by lra. now apply Qfloor_resp_le.
Qed.

Lemma inject_nonneg c : (0 <= c)%Z -> 0 <= inject_Z c.
Proof. intros H. unfold Qle, inject_Z. cbn [Qnum Qden]. lia. Qed.

Lemma trunc_eq x (c : Z) : (0 <= c)%Z -> x == inject_Z c -> trunc x = c.
Proof.
  intros Hc Hx. assert (0 <= inject_Z c) by (now apply inject_nonneg).
  rewrite trunc_floor by lra. rewrite Hx. apply Qfloor_Z.
Qed.

Lemma round64_0 : round64 0 == 0.
Proof. reflexivity. Qed.

Lemma round64_1 : round64 1 == 1.
Proof. exact (round64_Z 1 ltac:(lia)). Qed.

Lemma round64_nonneg x : 0 <= x -> 0 <= round64 x.
Proof. intros H. apply Qle_trans with (round64 0); [apply Qle_refl | now apply round64_mono]. Qed.

Lemma round64_le_1 x : x <= 1 -> round64 x <= 1.
Proof.
  intros H. apply Qle_trans with (round64 1); [now apply round64_mono|].
  rewrite round64_1. apply Qle_refl.
Qed.

Lemma round64_le_half x : x <= 1 # 2 -> round64 x <= 1 # 2.
Proof.
  intros H. apply Qle_trans with (round64 (1 # 2)); [now apply round64_mono|].
  rewrite round64_half. apply Qle_refl.
Qed.

Lemma round64_between x lo hi :
  round64 lo == lo -> round64 hi == hi -> lo <= x -> x <= hi ->
  lo <= round64 x /\ round64 x <= hi.
Proof.
  intros Hlo Hhi H1 H2. rewrite <- Hlo, <- Hhi at 1.
  split; now apply round64_mono.
Qed.

(** The sum under the truncation of one channel: between the two ends
    of the step. *)
Lemma blend_sum_between a b t :
  (0 <= b <= a)%Z -> (a <= 2 ^ 53)%Z -> 0 <= t -> t <= 1 ->
  inject_Z b <= fadd (inject_Z a) (fmul (inject_Z (b - a)) t)
  /\ fadd (inject_Z a) (fmul (inject_Z (b - a)) t) <= inject_Z a.
Proof.
  intros [Hb Hab] Ha H0 H1. unfold fadd, fmul.
  assert (Hd : inject_Z (b - a) <= 0) by (unfold Qle; cbn; lia).
  assert (Hq : inject_Z b == inject_Z a + inject_Z (b - a)).
  { unfold Zminus. rewrite inject_Z_plus, inject_Z_opp. ring. }
  destruct (round64_between (inject_Z (b - a) * t) (inject_Z (b - a)) 0) as [P1 P2];
    [apply round64_Z; lia | exact round64_0 | nra | nra |].
  apply round64_between; [apply round64_Z; lia | apply round64_Z; lia | lra | lra].
Qed.

Lemma blend_between a b t :
  (0 <= b <= a)%Z -> (a <= 2 ^ 53)%Z -> 0 <= t -> t <= 1 ->
  (b <= blend a b t <= a)%Z.
Proof.
  intros Hba Ha H0 H1. unfold blend.
  destruct (blend_sum_between a b t Hba Ha H0 H1) as [Lo Hi].
  assert (Hq0 : 0 <= inject_Z b) by (apply inject_nonneg; lia).
  assert (Eb : trunc (inject_Z b) = b) by (apply trunc_eq; [lia | reflexivity]).
  assert (Ea : trunc (inject_Z a) = a) by (apply trunc_eq; [lia | reflexivity]).
  pose proof (trunc_mono _ _ Hq0 Lo) as L.
  pose proof (trunc_mono _ _ (Qle_trans _ _ _ Hq0 Lo) Hi) as U.
  rewrite Eb in L. rewrite Ea in U. split; assumption.
Qed.

Lemma blend_mono a b s t :
  (0 <= b <= a)%Z -> (a <= 2 ^ 53)%Z -> 0 <= s -> s <= t -> t <= 1 ->
  (blend a b t <= blend a b s)%Z.
Proof.
  intros Hba Ha H0 Hst H1. unfold blend.
  destruct (blend_sum_between a b t Hba Ha ltac:(lra) H1) as [Lo _].
  assert (Hq0 : 0 <= inject_Z b) by (apply inject_nonneg; lia).
  assert (Hd : inject_Z (b - a) <= 0) by (unfold Qle; cbn; lia).
  apply trunc_mono; [exact (Qle_trans _ _ _ Hq0 Lo)|]. unfold fadd, fmul.
  apply round64_mono. apply Qplus_le_r. apply round64_mono. nra.
Qed.

Lemma blend_start a b : (0 <= a <= 2 ^ 53)%Z -> blend a b 0 = a.
Proof.
  intros Ha. unfold blend, fadd, fmul. apply trunc_eq; [lia|].
  assert (H0 : inject_Z (b - a) * 0 == 0) by ring.
  rewrite H0, round64_0. setoid_replace (inject_Z a + 0) with (inject_Z a) by ring.
  apply round64_Z. lia.
Qed.

Lemma blend_end a b t :
  (0 <= b <= a)%Z -> (a <= 2 ^ 53)%Z -> t == 1 -> blend a b t = b.
Proof.
  intros [Hb Hab] Ha Ht. unfold blend, fadd, fmul. apply trunc_eq; [lia|].
  assert (H1 : inject_Z (b - a) * t == inject_Z (b - a)) by (rewrite Ht; ring).
  rewrite H1, (round64_Z (b - a)) by lia.
  assert (H2 : inject_Z a + inject_Z (b - a) == inject_Z b).
  { unfold Zminus. rewrite inject_Z_plus, inject_Z_opp. ring. }
  rewrite H2. apply round64_Z. lia.
Qed.

Lemma Qle_bool_false x y : Qle_bool x y = false -> y < x.
Proof.
  intros H. apply Qnot_le_lt. intros Hle. apply Qle_bool_iff in Hle. congruence.
Qed.

(** [ratio] of the source: the turnout clamped to the unit interval. *)
Definition ratio_of (p : Q) : Q := at_least_zero (at_most_one (fdiv (fmul p 100) 100)).

Lemma clamp_mono x y :
  x <= y -> at_least_zero (at_most_one x) <= at_least_zero (at_most_one y).
Proof.
  intros Hxy. unfold at_least_zero, at_most_one.
  destruct (Qle_bool x 1) eqn:X1, (Qle_bool y 1) eqn:Y1;
    try apply Qle_bool_iff in X1; try apply Qle_bool_iff in Y1;
    try apply Qle_bool_false in X1; try apply Qle_bool_false in Y1;
    try (change (Qle_bool 1 0) with false; cbn iota);
    try (destruct (Qle_bool x 0) eqn:X0;
         [apply Qle_bool_iff in X0 | apply Qle_bool_false in X0]);
    try (destruct (Qle_bool y 0) eqn:Y0;
         [apply Qle_bool_iff in Y0 | apply Qle_bool_false in Y0]);
    lra.
Qed.

Lemma scale_mono p q : p <= q -> fdiv (fmul p 100) 100 <= fdiv (fmul q 100) 100.
Proof.
  intros H. unfold fdiv, fmul. apply round64_mono.
  apply Qmult_le_compat_r; [|discriminate]. apply round64_mono. lra.
Qed.

Lemma ratio_spec p :
  0 <= ratio_of p /\ ratio_of p <= 1
  /\ (p <= 0 -> ratio_of p = 0) /\ (1 <= p -> ratio_of p == 1).
Proof.
  unfold ratio_of. set (x := fdiv (fmul p 100) 100).
  assert (Hlo : p <= 0 -> x <= 0).
  { intros Hp. unfold x.
    apply Qle_trans with (fdiv (fmul 0 100) 100); [now apply scale_mono|].
    now vm_compute. }
  assert (Hhi : 1 <= p -> 1 <= x).
  { intros Hp. unfold x.
    apply Qle_trans with (fdiv (fmul 1 100) 100); [|now apply scale_mono].
    now vm_compute. }
  unfold at_least_zero, at_most_one.
  destruct (Qle_bool x 1) eqn:H1.
  - apply Qle_bool_iff in H1.
    destruct (Qle_bool x 0) eqn:H0.
    + apply Qle_bool_iff in H0.
      repeat split; trivial; try lra; intros Hp; specialize (Hhi Hp); lra.
    + apply Qle_bool_false in H0.
      repeat split; try lra; intros Hp;
        try specialize (Hlo Hp); try specialize (Hhi Hp); lra.
  - apply Qle_bool_false in H1. change (Qle_bool 1 0) with false. cbn iota.
    repeat split; try lra; intros Hp; specialize (Hlo Hp); lra.
Qed.

Lemma ratio_mono p q : p <= q -> ratio_of p <= ratio_of q.
Proof. intros H. apply clamp_mono, scale_mono, H. Qed.

(** The two interpolation parameters. *)
Definition t_light (ratio : Q) : Q := fdiv ratio (1 # 2).
Definition t_dark (ratio : Q) : Q := fdiv (fsub ratio (1 # 2)) (1 # 2).

Lemma t_light_spec r s :
  0 <= r -> r <= s -> s < 1 # 2 ->
  0 <= t_light r /\ t_light r <= t_light s /\ t_light s <= 1.
Proof.
  intros H0 Hrs Hs. unfold t_light, fdiv.
  assert (A : r / (1 # 2) == 2 * r) by field.
  assert (B : s / (1 # 2) == 2 * s) by field.
  split; [|split].
  - apply round64_nonneg. lra.
  - apply round64_mono. lra.
  - apply round64_le_1. lra.
Qed.

Lemma t_dark_spec r s :
  1 # 2 <= r -> r <= s -> s <= 1 ->
  0 <= t_dark r /\ t_dark r <= t_dark s /\ t_dark s <= 1
  /\ (s == 1 -> t_dark s == 1).
Proof.
  intros H0 Hrs Hs. unfold t_dark, fdiv, fsub.
  assert (Lr : 0 <= round64 (r - (1 # 2))) by (apply round64_nonneg; lra).
  assert (Ms : round64 (r - (1 # 2)) <= round64 (s - (1 # 2))).
  { apply round64_mono. lra. }
  assert (Us : round64 (s - (1 # 2)) <= 1 # 2) by (apply round64_le_half; lra).
  assert (A : forall x, x / (1 # 2) == 2 * x) by (intros; field).
  split; [|split; [|split]].
  - apply round64_nonneg. rewrite A. lra.
  - apply round64_mono. rewrite !A. lra.
  - apply round64_le_1. rewrite A. lra.
  - intros E1.
    assert (E2 : s - (1 # 2) == 1 # 2) by lra.
    rewrite E2, round64_half.
    setoid_replace ((1 # 2) / (1 # 2)) with 1 by field. exact round64_1.
Qed.

Lemma colour_of_ratio_cases p :
  (ratio_of p < 1 # 2
   /\ colour_of_ratio p
      = [blend 222 158 (t_light (ratio_of p)); blend 235 202 (t_light (ratio_of p));
         blend 247 225 (t_light (ratio_of p))]%list)
  \/ (1 # 2 <= ratio_of p
      /\ colour_of_ratio p
         = [blend 158 49 (t_dark (ratio_of p)); blend 202 130 (t_dark (ratio_of p));
            blend 225 189 (t_dark (ratio_of p))]%list).
Proof.
  unfold colour_of_ratio. cbn zeta. fold (ratio_of p).
  destruct (Qle_bool (1 # 2) (ratio_of p)) eqn:Hb.
  - right. apply Qle_bool_iff in Hb. split; [exact Hb | reflexivity].
  - left. apply Qle_bool_false in Hb. split; [exact Hb | reflexivity].
Qed.

Lemma colour_of_ratio_range p :
  exists r g b,
    colour_of_ratio p = [r; g; b]%list
    /\ (49 <= r <= 222)%Z /\ (130 <= g <= 235)%Z /\ (189 <= b <= 247)%Z
    /\ ((158 <= r)%Z /\ (202 <= g)%Z /\ (225 <= b)%Z
        \/ (r <= 158)%Z /\ (g <= 202)%Z /\ (b <= 225)%Z).
Proof.
  destruct (ratio_spec p) as (H0 & H1 & _).
  destruct (colour_of_ratio_cases p) as [[Hlt ->] | [Hge ->]];
    do 3 eexists; (split; [reflexivity|]).
  - destruct (t_light_spec _ _ H0 (Qle_refl _) Hlt) as (T0 & _ & T1).
    pose proof (blend_between 222 158 _ ltac:(lia) ltac:(lia) T0 T1).
    pose proof (blend_between 235 202 _ ltac:(lia) ltac:(lia) T0 T1).
    pose proof (blend_between 247 225 _ ltac:(lia) ltac:(lia) T0 T1).
    split; [lia|]. split; [lia|]. split; [lia|]. left. lia.
  - destruct (t_dark_spec _ _ Hge (Qle_refl _) H1) as (T0 & _ & T1 & _).
    pose proof (blend_between 158 49 _ ltac:(lia) ltac:(lia) T0 T1).
    pose proof (blend_between 202 130 _ ltac:(lia) ltac:(lia) T0 T1).
    pose proof (blend_between 225 189 _ ltac:(lia) ltac:(lia) T0 T1).
    split; [lia|]. split; [lia|]. split; [lia|]. right. lia.
Qed.

(** X18: Every colour [turnout_to_color] returns is a list of three channels
    inside the gradient: red in 49..222, green in 130..235, blue in
    189..247 (the grey of a null figure included), so always a valid RGB
    triple. *)
Theorem turnout_to_color_range p rgb :
  turnout_to_color p = Ok rgb ->
  exists r g b,
    rgb = [r; g; b]%list
    /\ (49 <= r <= 222)%Z /\ (130 <= g <= 235)%Z /\ (189 <= b <= 247)%Z.
Proof.
  unfold turnout_to_color. destruct (isna p).
  - intros [= <-]. exists 210%Z, 210%Z, 210%Z. repeat split; lia.
  - destruct (number_of p) as [x|]; [|discriminate]. intros [= <-].
    destruct (colour_of_ratio_range (round64 x)) as (r & g & b & -> & Hr & Hg & Hb & _).
    exists r, g, b. auto.
Qed.

(** X19: A null figure is grey whatever else; a figure of zero or less gets
    the lightest blue and a figure of one or more the darkest; a text or
    a geometry raises. *)
Theorem turnout_to_color_ends p :
  (isna p = true -> turnout_to_color p = Ok [210; 210; 210]%Z)
  /\ (forall x, number_of p = Some x ->
        (x <= 0 -> turnout_to_color p = Ok [222; 235; 247]%Z)
        /\ (1 <= x -> turnout_to_color p = Ok [49; 130; 189]%Z))
  /\ (isna p = false -> number_of p = None ->
        exists e, turnout_to_color p = Raise e).
Proof.
  split; [|split].
  - intros H. unfold turnout_to_color. now rewrite H.
  - intros x Hx.
    assert (Hna : isna p = false) by (destruct p; simpl in *; congruence).
    unfold turnout_to_color. rewrite Hna, Hx.
    destruct (ratio_spec (round64 x)) as (H0 & H1 & Hlo & Hhi).
    split; intros Hle; f_equal.
    + assert (Hr : round64 x <= 0).
      { apply Qle_trans with (round64 0); [now apply round64_mono | apply Qle_refl]. }
      destruct (colour_of_ratio_cases (round64 x)) as [[_ ->] | [Hge _]].
      * rewrite (Hlo Hr).
        assert (Ht : t_light 0 == 0) by (unfold t_light, fdiv; now vm_compute).
        unfold blend, fadd, fmul.
        repeat f_equal; apply trunc_eq; try lia; rewrite Ht; now vm_compute.
      * exfalso. rewrite (Hlo Hr) in Hge. revert Hge. apply Qlt_not_le. reflexivity.
    + assert (Hr : 1 <= round64 x).
      { apply Qle_trans with (round64 1); [|now apply round64_mono].
        rewrite round64_1. apply Qle_refl. }
      specialize (Hhi Hr).
      destruct (colour_of_ratio_cases (round64 x)) as [[Hlt _] | [Hge ->]]; [lra|].
      destruct (t_dark_spec _ _ Hge (Qle_refl _) H1) as (_ & _ & _ & Ht).
      specialize (Ht Hhi).
      repeat f_equal; apply blend_end; try lia; exact Ht.
  - intros Hna Hn. unfold turnout_to_color. rewrite Hna, Hn. eauto.
Qed.

(** X20: A higher turnout never gets a lighter colour: no channel goes up
    when the figure does. *)
Theorem turnout_to_color_darkens p q x y :
  number_of p = Some x -> number_of q = Some y -> x <= y ->
  exists r g b r' g' b',
    turnout_to_color p = Ok [r; g; b]%list
    /\ turnout_to_color q = Ok [r'; g'; b']%list
    /\ (r' <= r)%Z /\ (g' <= g)%Z /\ (b' <= b)%Z.
Proof.
  intros Hx Hy Hxy.
  assert (Hp : isna p = false) by (destruct p; simpl in *; congruence).
  assert (Hq : isna q = false) by (destruct q; simpl in *; congruence).
  unfold turnout_to_color. rewrite Hp, Hq, Hx, Hy.
  pose proof (round64_mono _ _ Hxy) as Hxy'.
  destruct (ratio_spec (round64 x)) as (X0 & X1 & _).
  destruct (ratio_spec (round64 y)) as (Y0 & Y1 & _).
  pose proof (ratio_mono _ _ Hxy') as Hr.
  destruct (colour_of_ratio_cases (round64 x)) as [[Xlt ->] | [Xge ->]],
           (colour_of_ratio_cases (round64 y)) as [[Ylt ->] | [Yge ->]].
  - destruct (t_light_spec _ _ X0 Hr Ylt) as (T0 & T1 & T2).
    do 6 eexists. split; [reflexivity|]. split; [reflexivity|].
    repeat split; apply blend_mono; try lia; assumption.
  - destruct (t_light_spec _ _ X0 (Qle_refl _) Xlt) as (T0 & _ & T1).
    destruct (t_dark_spec _ _ Yge (Qle_refl _) Y1) as (S0 & _ & S1 & _).
    pose proof (blend_between 222 158 _ ltac:(lia) ltac:(lia) T0 T1).
    pose proof (blend_between 235 202 _ ltac:(lia) ltac:(lia) T0 T1).
    pose proof (blend_between 247 225 _ ltac:(lia) ltac:(lia) T0 T1).
    pose proof (blend_between 158 49 _ ltac:(lia) ltac:(lia) S0 S1).
    pose proof (blend_between 202 130 _ ltac:(lia) ltac:(lia) S0 S1).
    pose proof (blend_between 225 189 _ ltac:(lia) ltac:(lia) S0 S1).
    do 6 eexists. split; [reflexivity|]. split; [reflexivity|]. lia.
  - lra.
  - destruct (t_dark_spec _ _ Xge Hr Y1) as (T0 & T1 & T2 & _).
    do 6 eexists. split; [reflexivity|]. split; [reflexivity|].
    repeat split; apply blend_mono; try lia; assumption.
Qed.

End ColourFacts.

(** ** The provincial map *)

Section ProvincialFacts.
Context {E : Env}.
Local Open Scope list_scope.

Lemma join_row_on_prefix li ri rrows width lr m :
  In m (join_row_on li ri rrows width lr) -> exists tail, m = lr ++ tail.
Proof.
  unfold join_row_on. destruct (filter _ rrows) as [|t ms].
  - intros [<- | []]. eauto.
  - intros H. apply in_map_iff in H as [rr [<- _]]. eauto.
Qed.

Lemma join_row_on_nonempty li ri rrows width lr :
  exists m, In m (join_row_on li ri rrows width lr).
Proof.
  unfold join_row_on. destruct (filter _ rrows) as [|t ms]; simpl; eauto.
Qed.

Lemma join_row_on_length li ri rrows width lr :
  (1 <= List.length (join_row_on li ri rrows width lr))%nat.
Proof.
  unfold join_row_on. destruct (filter _ rrows) as [|t ms]; simpl; lia.
Qed.

Lemma join_row_on_matches li ri rrows width lr rr :
  In rr rrows -> cell_eqb (cell ri rr) (cell li lr) = true ->
  In (lr ++ rr) (join_row_on li ri rrows width lr).
Proof.
  intros Hin Hm. unfold join_row_on.
  assert (Hf : In rr (filter (fun rr => cell_eqb (cell ri rr) (cell li lr)) rrows))
    by (apply filter_In; auto).
  destruct (filter _ rrows) as [|t ms]; [destruct Hf|].
  apply in_map_iff. eauto.
Qed.

Lemma join_row_on_unmatched li ri rrows width lr :
  (forall rr, In rr rrows -> cell_eqb (cell ri rr) (cell li lr) = false) ->
  join_row_on li ri rrows width lr = [lr ++ repeat VNaN width].
Proof.
  intros H. unfold join_row_on. now rewrite filter_nothing.
Qed.

Lemma firstn_row (lr tail : list value) n :
  List.length lr = n -> firstn n (lr ++ tail) = lr.
Proof.
  intros <-. rewrite firstn_app, Nat.sub_diag, firstn_all. simpl. apply app_nil_r.
Qed.

(** What [toronto_shapes] keeps. *)
Lemma toronto_shapes_spec gdf_prov shapes :
  rectangular gdf_prov ->
  toronto_shapes gdf_prov = Ok shapes ->
  rectangular shapes
  /\ (List.length (rows shapes) <= List.length (rows gdf_prov))%nat
  /\ exists ni, index_of "name_clean" (columns shapes) = Some ni
       /\ forall r, In r (rows shapes) ->
            exists s, cell ni r = VStr s /\ In s toronto_districts.
Proof.
  intros Hrect. unfold toronto_shapes.
  destruct (map_column "ED_ID" to_numeric gdf_prov) as [gdf|] eqn:Hg; [|discriminate].
  cbn [bind]. pose proof (map_column_rectangular _ _ _ _ Hrect Hg) as Hr1.
  destruct (column gdf "ENGLISH_NA") as [names|] eqn:Hn; [|discriminate].
  cbn [or_key_error bind].
  set (gdf1 := set_column gdf "name_clean" _).
  assert (Hr2 : rectangular gdf1) by (apply rectangular_set_column; exact Hr1).
  destruct (index_of "name_clean" (columns gdf1)) as [ni|] eqn:Hni; [|discriminate].
  cbn [or_key_error bind]. intros [= <-].
  split; [|split].
  - unfold rectangular, filter_rows in *. cbn [columns rows].
    rewrite Forall_forall in *. intros r Hr. apply filter_In in Hr as [Hr _]. auto.
  - unfold filter_rows. cbn [rows].
    etransitivity; [apply filter_length_le|].
    unfold gdf1. rewrite rows_set_column
      by (rewrite length_map; exact (column_length _ _ _ Hn)).
    destruct (map_column_rows _ _ _ _ Hg) as (i & _ & ->). cbn [rows].
    now rewrite length_map.
  - exists ni. split; [exact Hni|]. unfold filter_rows. cbn [rows].
    intros r Hr. apply filter_In in Hr as [_ Hr]. unfold in_toronto in Hr.
    destruct (cell ni r) as [| | | |s|]; try discriminate.
    exists s. split; [reflexivity|]. unfold mem in Hr.
    apply existsb_exists in Hr as [x [Hx Hs]]. apply String.eqb_eq in Hs. now subst.
Qed.

(** X21: The provincial map holds Toronto districts only, and all of them:
    when [get_provincial_map] returns, every row of the result starts
    with a row of the Toronto shapes, every Toronto shape starts at least
    one row (so none is lost for want of results, and one without a result
    of the year is there once, padded with nulls), and a shape appears
    with every result row of the year that has its district number, the
    cells of that result row alike: pandas holds a column of integers as
    floats once a shape without a result brings a null into it. *)
Theorem get_provincial_map_toronto prov_all gdf_prov year merged :
  rectangular gdf_prov ->
  get_provincial_map prov_all gdf_prov year = Ok merged ->
  exists df shapes li ri,
    year_results prov_all year = Ok df
    /\ toronto_shapes gdf_prov = Ok shapes
    /\ index_of "ED_ID" (columns shapes) = Some li
    /\ index_of "ElectoralDistrictNumber" (columns df) = Some ri
    /\ (forall row, In row (rows merged) ->
          In (firstn (List.length (columns shapes)) row) (rows shapes))
    /\ (forall lr, In lr (rows shapes) ->
          exists tail, In (lr ++ tail) (rows merged))
    /\ (forall lr rr, In lr (rows shapes) -> In rr (rows df) ->
          cell_eqb (cell ri rr) (cell li lr) = true ->
          exists rr', In (lr ++ rr') (rows merged) /\ Forall2 alike rr' rr)
    /\ (forall lr, In lr (rows shapes) ->
          (forall rr, In rr (rows df) -> cell_eqb (cell ri rr) (cell li lr) = false) ->
          In (lr ++ repeat VNaN (List.length (columns df))) (rows merged))
    /\ (List.length (rows shapes) <= List.length (rows merged))%nat.
Proof.
  intros Hrect. unfold get_provincial_map.
  destruct (year_results prov_all year) as [df|] eqn:Hdf; [|discriminate]. cbn [bind].
  destruct (toronto_shapes gdf_prov) as [shapes|] eqn:Hsh; [|discriminate]. cbn [bind].
  destruct (toronto_shapes_spec _ _ Hrect Hsh) as (Hrs & _ & _).
  unfold merge_left_on.
  destruct (index_of "ED_ID" (columns shapes)) as [li|] eqn:Hli; [|discriminate].
  destruct (index_of "ElectoralDistrictNumber" (columns df)) as [ri|] eqn:Hri;
    [|discriminate].
  cbn [or_key_error bind]. intros [= <-]. cbn [rows columns].
  exists df, shapes, li, ri. do 4 (split; [reflexivity || assumption|]).
  unfold rectangular in Hrs. rewrite Forall_forall in Hrs.
  split; [|split; [|split; [|split]]].
  - intros row Hrow. apply in_flat_map in Hrow as (lr & Hlr & Hrow).
    destruct (join_row_on_prefix _ _ _ _ _ _ Hrow) as [tail ->].
    rewrite firstn_row by (now apply Hrs). exact Hlr.
  - intros lr Hlr. destruct (join_row_on_nonempty li ri (rows df)
      (List.length (map (fun c => if mem c (columns shapes) && mem c (columns df)
                                  then (c ++ "_y")%string else c) (columns df))) lr)
      as [m Hm].
    destruct (join_row_on_prefix _ _ _ _ _ _ Hm) as [tail ->].
    exists tail. apply in_flat_map. eauto.
  - intros lr rr Hlr Hrr Hm. exists rr. split.
    + apply in_flat_map. exists lr. split; [exact Hlr|].
      now apply join_row_on_matches.
    + clear. induction rr; constructor; [now left | assumption].
  - intros lr Hlr Hno. apply in_flat_map. exists lr. split; [exact Hlr|].
    rewrite (join_row_on_unmatched _ _ _ _ _ Hno). rewrite length_map. now left.
  - apply length_flat_map_ge. intros lr. apply join_row_on_length.
Qed.

(** X22: Every row of the provincial map is a Toronto district: its
    [name_clean] cell, at the place that column has in the shapes, is one
    of the names of [toronto_districts]. *)
Theorem get_provincial_map_names prov_all gdf_prov year merged :
  rectangular gdf_prov ->
  get_provincial_map prov_all gdf_prov year = Ok merged ->
  exists shapes ni,
    toronto_shapes gdf_prov = Ok shapes
    /\ index_of "name_clean" (columns shapes) = Some ni
    /\ forall row, In row (rows merged) ->
         exists s, cell ni row = VStr s /\ In s toronto_districts.
Proof.
  intros Hrect. unfold get_provincial_map.
  destruct (year_results prov_all year) as [df|] eqn:Hdf; [|discriminate]. cbn [bind].
  destruct (toronto_shapes gdf_prov) as [shapes|] eqn:Hsh; [|discriminate]. cbn [bind].
  destruct (toronto_shapes_spec _ _ Hrect Hsh) as (Hrs & _ & ni & Hni & Hnames).
  unfold merge_left_on.
  destruct (index_of "ED_ID" (columns shapes)) as [li|]; [|discriminate].
  destruct (index_of "ElectoralDistrictNumber" (columns df)) as [ri|]; [|discriminate].
  cbn [or_key_error bind]. intros [= <-]. cbn [rows].
  exists shapes, ni. repeat (split; [trivial|]).
  intros row Hrow. apply in_flat_map in Hrow as (lr & Hlr & Hrow).
  destruct (join_row_on_prefix _ _ _ _ _ _ Hrow) as [tail ->].
  unfold rectangular in Hrs. rewrite Forall_forall in Hrs.
  rewrite cell_app_l by (rewrite (Hrs lr Hlr); exact (index_of_lt _ _ _ Hni)).
  now apply Hnames.
Qed.

End ProvincialFacts.

(** ** The detection of the join key *)

Section DetectionFacts.
Context {E : Env}.
Local Open Scope list_scope.
Import PyStr.

Lemma lower_lookup_found key cols c :
  lower_lookup key cols = Some c -> In c cols /\ lower c = key.
Proof.
  unfold lower_lookup. intros H. apply find_some in H as [Hin Heq].
  split; [now apply in_rev | now apply String.eqb_eq].
Qed.

Lemma lower_lookup_absent key cols :
  lower_lookup key cols = None ->
  existsb (fun c => String.eqb (lower c) key) cols = false.
Proof.
  unfold lower_lookup. intros H.
  destruct (existsb _ cols) eqn:He; [|reflexivity].
  apply existsb_exists in He as [c [Hc Hk]].
  rewrite (find_none _ _ H c) in Hk; [discriminate | now apply in_rev in Hc].
Qed.

Lemma first_some_some {A B} (f : A -> option B) l b :
  first_some f l = Some b -> exists a, In a l /\ f a = Some b.
Proof.
  induction l as [|a l IH]; simpl; [discriminate|].
  destruct (f a) as [b'|] eqn:Ha.
  - intros [= <-]. eauto.
  - intros H. destruct (IH H) as [a' [? ?]]. eauto.
Qed.

Lemma first_some_none {A B} (f : A -> option B) l :
  first_some f l = None -> forall a, In a l -> f a = None.
Proof.
  induction l as [|a l IH]; simpl; [intros _ ? []|].
  destruct (f a) as [b'|] eqn:Ha; [discriminate|].
  intros H a' [<- | Hin]; auto.
Qed.

Lemma has_col_In f c : has_col f c = true <-> In c (columns f).
Proof.
  unfold has_col. generalize (columns f) as cols. intros cols.
  induction cols as [|x cols IH]; simpl; [split; [discriminate | intros []]|].
  destruct (String.eqb c x) eqn:Hcx.
  - apply String.eqb_eq in Hcx. subst. split; auto.
  - apply String.eqb_neq in Hcx. destruct (index_of c cols); simpl in *.
    + split; [intros _; right; now apply IH | reflexivity].
    + split; [discriminate|]. intros [-> | H]; [congruence|]. now apply IH in H.
Qed.

Lemma detect_join_key_cases gdf df :
  match detect_join_key gdf df with
  | SameKey key =>
      In key ["riding_id"; "riding_name"; "name"]
      /\ has_col gdf key = true /\ has_col df key = true
  | KeyPair gkey dkey =>
      In gkey (columns gdf) /\ In dkey (columns df)
      /\ lower gkey = lower dkey
      /\ In (lower gkey) ["riding_id"; "riding_name"; "name"]
      /\ (forall key, In key ["riding_id"; "riding_name"; "name"] ->
            shared_label gdf df key = false)
  | NoKey =>
      forall key, In key ["riding_id"; "riding_name"; "name"] ->
        shared_label gdf df key = false
        /\ shared_ignoring_case gdf df key = false
  end.
Proof.
  unfold detect_join_key.
  destruct (find _ _) as [key|] eqn:Hf.
  - apply find_some in Hf as [Hin Hb]. apply andb_true_iff in Hb. tauto.
  - pose proof (find_none _ _ Hf) as Hnone. cbn beta in Hnone.
    destruct (first_some _ _) as [p|] eqn:Hs.
    + apply first_some_some in Hs as (key & Hkey & Hp).
      destruct (lower_lookup key (columns gdf)) as [g|] eqn:Hg; [|discriminate].
      destruct (lower_lookup key (columns df)) as [d|] eqn:Hd; [|discriminate].
      injection Hp as <-.
      apply lower_lookup_found in Hg as [Hg1 Hg2].
      apply lower_lookup_found in Hd as [Hd1 Hd2].
      repeat split; trivial; try congruence; intros k Hk; exact (Hnone k Hk).
    + intros key Hkey. split; [exact (Hnone key Hkey)|].
      pose proof (first_some_none _ _ Hs key Hkey) as Hk. cbn beta in Hk.
      unfold shared_ignoring_case.
      destruct (lower_lookup key (columns gdf)) as [g|] eqn:Hg.
      * destruct (lower_lookup key (columns df)) as [d|] eqn:Hd; [discriminate|].
        rewrite (lower_lookup_absent _ _ Hd). apply andb_false_r.
      * now rewrite (lower_lookup_absent _ _ Hg).
Qed.

(** X23: [detect_join_key] is sound and complete: a key it returns is one of
    the three names and a label of both frames; a pair it returns is a
    label of each frame, the two equal up to case and one of the three
    names in lowercase; and it returns nothing only when none of the three
    names is shared, not even up to case. *)
Theorem detect_join_key_sound gdf df :
  match detect_join_key gdf df with
  | SameKey key =>
      In key ["riding_id"; "riding_name"; "name"]
      /\ has_col gdf key = true /\ has_col df key = true
  | KeyPair gkey dkey =>
      In gkey (columns gdf) /\ In dkey (columns df)
      /\ lower gkey = lower dkey
      /\ In (lower gkey) ["riding_id"; "riding_name"; "name"]
      /\ (forall key, In key ["riding_id"; "riding_name"; "name"] ->
            shared_label gdf df key = false)
  | NoKey =>
      forall key, In key ["riding_id"; "riding_name"; "name"] ->
        shared_label gdf df key = false
        /\ shared_ignoring_case gdf df key = false
  end.
Proof. exact (detect_join_key_cases gdf df). Qed.

Lemma has_col_rename_new old new f :
  has_col f old = true -> has_col (rename old new f) new = true.
Proof.
  rewrite !has_col_In. unfold rename. cbn [columns]. intros H.
  apply in_map_iff. exists old. now rewrite String.eqb_refl.
Qed.

Lemma choose_join_key_cases view_gdf df_fed join_key_hint :
  match choose_join_key view_gdf df_fed join_key_hint with
  | (Some key, df, same) =>
      has_col view_gdf key = true /\ has_col df key = true
      /\ rows df = rows df_fed
      /\ (same = true -> df = df_fed)
  | (None, df, same) =>
      df = df_fed
      /\ forall key, In key (preferred_keys join_key_hint) ->
           shared_label view_gdf df_fed key = false
  end.
Proof.
  unfold choose_join_key.
  destruct (find _ (preferred_keys join_key_hint)) as [key|] eqn:Hf.
  - apply find_some in Hf as [_ Hb]. apply andb_true_iff in Hb. tauto.
  - pose proof (find_none _ _ Hf) as Hnone. cbn beta in Hnone.
    pose proof (detect_join_key_cases view_gdf df_fed) as Hd.
    destruct (detect_join_key view_gdf df_fed) as [|key|gkey dkey].
    + split; [reflexivity | exact Hnone].
    + destruct Hd as (_ & ? & ?). auto.
    + destruct Hd as (Hg & Hdk & _).
      apply has_col_In in Hg. apply has_col_In in Hdk. rewrite Hdk. cbn [andb].
      destruct (String.eqb gkey dkey) eqn:Heq; cbn [negb].
      * apply String.eqb_eq in Heq. subst. auto.
      * repeat split; trivial; [now apply has_col_rename_new | discriminate].
Qed.

(** X24: The key the fallback join settles on (lines 301-315) is a label of
    the geometry view and of the federal frame the join then uses; that
    frame is the caller's own unless a column had to be renamed, and then
    it has the caller's rows. With no key chosen, none of the candidate
    labels is shared. *)
Theorem choose_join_key_sound view_gdf df_fed join_key_hint :
  match choose_join_key view_gdf df_fed join_key_hint with
  | (Some key, df, same) =>
      has_col view_gdf key = true /\ has_col df key = true
      /\ rows df = rows df_fed
      /\ (same = true -> df = df_fed)
  | (None, df, same) =>
      df = df_fed
      /\ forall key, In key (preferred_keys join_key_hint) ->
           shared_label view_gdf df_fed key = false
  end.
Proof. exact (choose_join_key_cases view_gdf df_fed join_key_hint). Qed.

End DetectionFacts.

(** ** The labels of the joined frame *)

Section SuffixFacts.
Context {E : Env}.
Local Open Scope list_scope.

Lemma index_of_nth_error c cols i :
  index_of c cols = Some i -> nth_error cols i = Some c.
Proof.
  revert i; induction cols as [|x cols IH]; intros i; simpl; [discriminate|].
  destruct (String.eqb c x) eqn:Hcx.
  - intros [= <-]. apply String.eqb_eq in Hcx. now subst.
  - destruct (index_of c cols) as [j|]; [|discriminate].
    intros [= <-]. now apply IH.
Qed.

Lemma positions_labels on cols ps p :
  positions on cols = Ok ps -> In p ps ->
  exists k, In k on /\ nth_error cols p = Some k.
Proof.
  revert ps; induction on as [|a on IH]; intros ps; simpl.
  - intros [= <-] [].
  - destruct (index_of a cols) as [i|] eqn:Hi; [|discriminate]. cbn [or_key_error bind].
    destruct (positions on cols) as [qs|]; [|discriminate]. cbn [bind].
    intros [= <-] [<- | Hp].
    + exists a. split; [now left | now apply index_of_nth_error].
    + destruct (IH qs eq_refl Hp) as (k & Hk & Hn). exists k. split; [now right | exact Hn].
Qed.

Lemma In_combine_seq {A} (l : list A) j x start :
  nth_error l j = Some x -> In ((start + j)%nat, x) (combine (seq start (List.length l)) l).
Proof.
  revert j start; induction l as [|y l IH]; intros [|j] start; simpl; try discriminate.
  - intros [= <-]. left. f_equal. lia.
  - intros H. right. replace (start + S j)%nat with (S start + j)%nat by lia. now apply IH.
Qed.

Lemma In_remove_at {A} (ps : list nat) (l : list A) x :
  In x l -> (forall p, In p ps -> nth_error l p <> Some x) -> In x (remove_at ps l).
Proof.
  intros Hin Hps. apply In_nth_error in Hin as [j Hj].
  unfold remove_at. apply in_map_iff. exists (j, x). split; [reflexivity|].
  apply filter_In. split; [exact (In_combine_seq l j x 0 Hj)|].
  cbn [fst]. apply negb_true_iff. destruct (existsb _ ps) eqn:He; [|reflexivity].
  apply existsb_exists in He as [p [Hp Hjp]]. apply Nat.eqb_eq in Hjp. subst p.
  exfalso. exact (Hps j Hp Hj).
Qed.

Lemma In_remove_at_sub {A} (ps : list nat) (l : list A) x :
  In x (remove_at ps l) -> In x l.
Proof.
  unfold remove_at. intros H. apply in_map_iff in H as [[j y] [<- H]].
  apply filter_In in H as [H _]. now apply in_combine_r in H.
Qed.

Lemma mem_In c cs : mem c cs = true <-> In c cs.
Proof.
  unfold mem. rewrite existsb_exists. split.
  - intros [x [Hx He]]. apply String.eqb_eq in He. now subst.
  - intros H. exists c. split; [exact H | apply String.eqb_refl].
Qed.

Lemma has_col_false f c : has_col f c = false <-> ~ In c (columns f).
Proof.
  rewrite <- has_col_In. destruct (has_col f c); split; congruence.
Qed.

(** A label other than a key that both sides of a merge carry is not a
    label of the result: it comes back with [_x] and with [_y]. *)
Lemma merge_left_shared_label on left right merged c :
  merge_left false on left right = Ok merged ->
  ~ In c on -> In c (columns left) -> In c (columns right) ->
  (forall c', (c' ++ "_x")%string <> c) -> (forall c', (c' ++ "_y")%string <> c) ->
  has_col merged c = false
  /\ has_col merged (c ++ "_x") = true /\ has_col merged (c ++ "_y") = true.
Proof.
  intros Hm Hon Hl Hr Hx Hy.
  destruct (merge_left_spec _ _ _ _ Hm) as (lps & rps & _ & Hrps & _ & Hc).
  assert (Hshared : negb (mem c on) && mem c (columns left) && mem c (columns right) = true).
  { apply andb_true_iff. split; [apply andb_true_iff; split|]; try now apply mem_In.
    apply negb_true_iff. destruct (mem c on) eqn:He; [|reflexivity].
    apply mem_In in He. contradiction. }
  split; [|split].
  - apply has_col_false. rewrite Hc. intros H. apply in_app_or in H as [H | H];
      apply in_map_iff in H as [c' [Hc' _]];
      destruct (negb (mem c' on) && mem c' (columns left) && mem c' (columns right))
        eqn:Hs.
    + exact (Hx c' Hc').
    + subst c'. congruence.
    + exact (Hy c' Hc').
    + subst c'. congruence.
  - apply has_col_In. rewrite Hc. apply in_or_app. left.
    apply in_map_iff. exists c. rewrite Hshared. auto.
  - apply has_col_In. rewrite Hc. apply in_or_app. right.
    apply in_map_iff. exists c. rewrite Hshared. split; [reflexivity|].
    apply In_remove_at; [exact Hr|].
    intros p Hp Hn. destruct (positions_labels _ _ _ _ Hrps Hp) as (k & Hk & Hn').
    apply Hon. congruence.
Qed.

Ltac no_suffix c H :=
  repeat (destruct c as [|? c]; [discriminate H | simpl in H; injection H as _ H]);
  destruct c; discriminate H.

Lemma riding_labels_unsuffixed c c' :
  In c ["riding_num"; "riding_name"] ->
  (c' ++ "_x")%string <> c /\ (c' ++ "_y")%string <> c.
Proof.
  intros [<- | [<- | []]]; split; intros H; no_suffix c' H.
Qed.

(** X25: The loaders and the join together, on a year without a repeated key:
    both loaded frames carry [riding_num] (and [riding_name], when the
    results file has one), the merge is on [geo_key] alone, so the frame
    [prepare_map_df] returns has no [riding_num] and no [riding_name]
    column: each is there twice, with [_x] and with [_y]. *)
Theorem loaded_join_suffixes read_gpkg read_csv gdf_all df_fed year hint view keys merged :
  rectangular read_gpkg ->
  load_gpkg read_gpkg = Ok gdf_all ->
  load_federal_csv read_csv = Ok df_fed ->
  filter_eq_int "year" year gdf_all = Some view ->
  is_empty view = false ->
  column view "geo_key" = Some keys ->
  has_duplicates keys = false ->
  result (prepare_map_df gdf_all df_fed year hint) = Ok merged ->
  (has_col merged "riding_num" = false
   /\ has_col merged "riding_num_x" = true /\ has_col merged "riding_num_y" = true)
  /\ (has_col df_fed "riding_name" = true ->
      has_col merged "riding_name" = false
      /\ has_col merged "riding_name_x" = true /\ has_col merged "riding_name_y" = true).
Proof.
  intros Hrect Hg Hd Hv Hem Hk Hdup Hres.
  destruct (prepare_map_df_loaded _ _ _ _ year hint Hrect Hg Hd) as [_ Hpath].
  rewrite (Hpath view Hv Hem) in Hres. unfold preferred_merge in Hres.
  destruct (filter_eq_int "year" year df_fed) as [df_year|] eqn:Hy; [|discriminate].
  cbn [or_key_error bind] in Hres.
  unfold dissolve_duplicates in Hres. rewrite Hk in Hres.
  cbn [or_key_error bind] in Hres. rewrite Hdup in Hres. cbn [bind] in Hres.
  destruct (merge_left false ["geo_key"] view df_year) as [m|] eqn:Hm; [|discriminate].
  cbn [bind] in Hres. injection Hres as <-.
  destruct (load_gpkg_has _ _ Hg) as (_ & Gnum & Gname & _).
  destruct (load_federal_csv_has _ _ Hd) as (_ & Dnum & _).
  pose proof (filter_eq_int_columns _ _ _ _ Hv) as Cv.
  pose proof (filter_eq_int_columns _ _ _ _ Hy) as Cy.
  assert (Hlabel : forall c, In c ["riding_num"; "riding_name"] ->
            has_col gdf_all c = true -> has_col df_fed c = true ->
            has_col (simplify_geometry m) c = false
            /\ has_col (simplify_geometry m) (c ++ "_x") = true
            /\ has_col (simplify_geometry m) (c ++ "_y") = true).
  { intros c Hc Hgc Hdc.
    destruct (simplify_geometry_spec m) as [Hcols _].
    rewrite !(has_col_columns _ m _ Hcols).
    apply (merge_left_shared_label ["geo_key"] view df_year); trivial.
    - intros [<- | []]. destruct Hc as [Hc | [Hc | []]]; discriminate Hc.
    - rewrite Cv. now apply has_col_In.
    - rewrite Cy. now apply has_col_In.
    - intros c'. now destruct (riding_labels_unsuffixed c c' Hc).
    - intros c'. now destruct (riding_labels_unsuffixed c c' Hc). }
  split.
  - apply (Hlabel "riding_num"); simpl; auto.
  - intros Dname. apply (Hlabel "riding_name"); simpl; auto.
Qed.

End SuffixFacts.

(** ** The composite key *)

Section CompositeKeyFacts.
Context {E : Env}.
Local Open Scope list_scope.
Import PyStr.

Lemma string_of_uint_chars d :
  Forall (fun c => c <> "_"%char) (list_ascii_of_string (NilEmpty.string_of_uint d)).
Proof. induction d; simpl; constructor; trivial; discriminate. Qed.

Lemma str_of_Z_chars z :
  Forall (fun c => c <> "_"%char) (list_ascii_of_string (str_of_Z z)).
Proof.
  unfold str_of_Z. destruct (Z.to_int z) as [d|d]; simpl.
  - apply string_of_uint_chars.
  - constructor; [discriminate | apply string_of_uint_chars].
Qed.

Lemma str_of_Z_inj z1 z2 : str_of_Z z1 = str_of_Z z2 -> z1 = z2.
Proof.
  unfold str_of_Z. intros H.
  assert (Hd : Z.to_int z1 = Z.to_int z2).
  { pose proof (NilEmpty.isi (Z.to_int z1)) as H1. rewrite H in H1.
    rewrite NilEmpty.isi in H1. congruence. }
  rewrite <- (DecimalZ.of_to z1), <- (DecimalZ.of_to z2). now rewrite Hd.
Qed.

Lemma str_of_Z_nonempty z : str_of_Z z <> EmptyString.
Proof.
  unfold str_of_Z. destruct z as [|p|p]; simpl; try discriminate.
  pose proof (DecimalPos.Unsigned.to_uint_nonnil p) as Hn.
  destruct (Pos.to_uint p); simpl; try discriminate. now contradiction Hn.
Qed.

(** A text without an underscore before the separator fixes where the
    separator is. *)
Lemma separator_split s1 s2 t1 t2 :
  Forall (fun c => c <> "_"%char) (list_ascii_of_string s1) ->
  Forall (fun c => c <> "_"%char) (list_ascii_of_string s2) ->
  (s1 ++ "__" ++ t1 = s2 ++ "__" ++ t2)%string -> s1 = s2 /\ t1 = t2.
Proof.
  revert s2. induction s1 as [|a s1 IH]; intros [|b s2] H1 H2 H; simpl in *.
  - injection H as H. auto.
  - injection H as Hb _. inversion H2 as [|? ? Hn _]; subst. now contradiction Hn.
  - injection H as Ha _. inversion H1 as [|? ? Hn _]; subst. now contradiction Hn.
  - injection H as -> H. inversion H1; inversion H2; subst.
    destruct (IH s2) as [-> ->]; auto.
Qed.

Lemma loader_year_text y :
  loader_year y ->
  _safe_str y = _safe_str_intlike y
  /\ Forall (fun c => c <> "_"%char) (list_ascii_of_string (_safe_str_intlike y))
  /\ (isna y = true -> _safe_str_intlike y = EmptyString)
  /\ (forall z, y = VInt z -> _safe_str_intlike y = str_of_Z z).
Proof.
  unfold _safe_str, _safe_str_intlike. intros [Hna | [z ->]].
  - rewrite Hna. repeat split; trivial; try constructor.
    intros z ->. discriminate.
  - cbn [isna py_int]. repeat split; trivial; try discriminate.
    + apply str_of_Z_chars.
    + now intros z' [= ->].
Qed.

(** X26: On a year cell as the loaders leave it (an [Int64] or a null)
    the two loaders build the same composite key for the same district
    id, so the keys of the two sources can meet in the join. *)
Theorem geo_key_builders_agree year riding_num :
  loader_year year ->
  geo_key_gpkg year riding_num = geo_key_csv year riding_num.
Proof.
  intros Hy. unfold geo_key_gpkg, geo_key_csv.
  now destruct (loader_year_text _ Hy) as [-> _].
Qed.

(** X27: Two composite keys built from loader years are equal exactly
    when the id parts are the same text, once printed and trimmed, and
    the years are the same, both null or the same integer.  Two ids that
    differ as values but print alike, as [42] and the text [42] with a
    blank, share a key. *)
Theorem geo_key_injective y1 r1 y2 r2 :
  loader_year y1 -> loader_year y2 ->
  geo_key_csv y1 r1 = geo_key_csv y2 r2
  <-> (strip (py_str r1) = strip (py_str r2)
       /\ isna y1 = isna y2
       /\ (forall z1 z2, y1 = VInt z1 -> y2 = VInt z2 -> z1 = z2)).
Proof.
  intros H1 H2. unfold geo_key_csv.
  destruct (loader_year_text _ H1) as (_ & C1 & N1 & I1).
  destruct (loader_year_text _ H2) as (_ & C2 & N2 & I2).
  split.
  - intros Hk. destruct (separator_split _ _ _ _ C1 C2 Hk) as [Hy Hr].
    split; [exact Hr|]. split.
    + destruct H1 as [Hn1 | [z1 ->]], H2 as [Hn2 | [z2 ->]];
        try congruence; try reflexivity.
      * rewrite (N1 Hn1), (I2 z2 eq_refl) in Hy. symmetry in Hy.
        now apply str_of_Z_nonempty in Hy.
      * rewrite (N2 Hn2), (I1 z1 eq_refl) in Hy. now apply str_of_Z_nonempty in Hy.
    + intros z1 z2 -> ->. rewrite (I1 z1 eq_refl), (I2 z2 eq_refl) in Hy.
      now apply str_of_Z_inj.
  - intros (Hr & Hna & Hz). rewrite Hr. f_equal.
    destruct H1 as [Hn1 | [z1 ->]], H2 as [Hn2 | [z2 ->]].
    + now rewrite (N1 Hn1), (N2 Hn2).
    + rewrite Hn1 in Hna. discriminate.
    + rewrite Hn2 in Hna. discriminate.
    + now rewrite (Hz z1 z2 eq_refl eq_refl).
Qed.

End CompositeKeyFacts.

(** ** The write of the fallback join, a second time *)

Section RewriteFacts.
Context {E : Env}.
Local Open Scope list_scope.
Import PyStr.









End RewriteFacts.

(** ** The dash repair *)

Section DashFacts.
Context {E : Env}.
Import PyStr.

Lemma clash_starts q n w : clash q n = true -> starts_with q (n ++ w) = false.
Proof.
  revert n; induction q as [|a q IH]; intros [|b n]; simpl; try discriminate.
  destruct (Ascii.eqb a b); simpl; [apply IH | reflexivity].
Qed.

Lemma contains_app_clash p n w : clash_ends p n = true -> contains p (n ++ w) = contains p w.
Proof.
  induction n as [|b n IH]; [reflexivity|]. cbn [clash_ends]. intros H.
  apply andb_true_iff in H as [Hc Hn]. change ((String b n ++ w)%string)
    with (String b (n ++ w)). cbn [contains].
  change (String b (n ++ w)) with ((String b n ++ w)%string).
  rewrite (clash_starts _ _ w Hc). cbn [orb]. now apply IH.
Qed.

Lemma replace_from_step old new c t :
  replace_from old new 0 (String c t)
  = if starts_with old (String c t)
    then (new ++ replace_from old new (String.length old - 1) t)%string
    else String c (replace_from old new 0 t).
Proof. reflexivity. Qed.

(** What the output of a scan starts with, the input started with,
    unless an insertion could have made it. *)
Lemma replace_from_starts old new q :
  ends_clash q new = true ->
  forall t, starts_with q (replace_from old new 0 t) = true -> starts_with q t = true.
Proof.
  induction q as [|a q IH]; intros Hq t; [reflexivity|].
  cbn [ends_clash] in Hq. apply andb_true_iff in Hq as [Hc Hq].
  destruct t as [|c t]; [simpl; discriminate|].
  rewrite replace_from_step. destruct (starts_with old (String c t)).
  - now rewrite (clash_starts _ _ _ Hc).
  - cbn [starts_with]. intros H. apply andb_true_iff in H as [Hac H].
    rewrite Hac. now apply IH.
Qed.

Lemma guarded_tail old p c s : guarded old p (String c s) = true -> guarded old p s = true.
Proof. cbn [guarded]. intros H. now apply andb_true_iff in H as [_ H]. Qed.

Lemma guarded_head old p s :
  guarded old p s = true -> starts_with old s = false -> starts_with p s = false.
Proof.
  destruct s; cbn [guarded]; intros H Ho; apply andb_true_iff in H as [H _];
    rewrite Ho in H; now apply negb_true_iff in H.
Qed.

(** A scan makes no occurrence of [p] where the input had none outside
    the occurrences of [old]. *)
Lemma replace_from_free old new p :
  p <> EmptyString -> inert new p = true ->
  forall s k, guarded old p s = true -> contains p (replace_from old new k s) = false.
Proof.
  unfold inert. intros Hp Hi. apply andb_true_iff in Hi as [Hq Hn].
  assert (Hempty : contains p EmptyString = false).
  { destruct p as [|a p]; [now contradiction Hp | reflexivity]. }
  induction s as [|c s IH]; intros k Hg.
  - destruct k; exact Hempty.
  - pose proof (guarded_tail _ _ _ _ Hg) as Hg'.
    destruct k as [|k]; [|now apply IH].
    rewrite replace_from_step. destruct (starts_with old (String c s)) eqn:Ho.
    + rewrite (contains_app_clash _ _ _ Hn). now apply IH.
    + assert (Hs : starts_with p (String c (replace_from old new 0 s)) = false).
      { destruct (starts_with p (String c (replace_from old new 0 s))) eqn:Hsp; [|reflexivity].
        assert (Hp' : starts_with p (replace_from old new 0 (String c s)) = true)
          by (now rewrite replace_from_step, Ho).
        apply (replace_from_starts old new p Hq) in Hp'.
        now rewrite (guarded_head _ _ _ Hg Ho) in Hp'. }
      cbn [contains]. rewrite Hs. cbn [orb]. now apply IH.
Qed.

Lemma guarded_self old s : guarded old old s = true.
Proof.
  induction s as [|c s IH]; cbn [guarded]; rewrite ?IH;
    destruct (starts_with old _); reflexivity.
Qed.

Lemma guarded_free old p s : contains p s = false -> guarded old p s = true.
Proof.
  induction s as [|c s IH]; cbn [contains guarded]; intros H;
    apply orb_false_iff in H as [H1 H2]; rewrite H1, orb_true_r; [reflexivity|].
  now apply IH.
Qed.

Lemma replace_from_absent old new s :
  contains old s = false -> replace_from old new 0 s = s.
Proof.
  induction s as [|c s IH]; [reflexivity|]. cbn [contains]. intros H.
  apply orb_false_iff in H as [H1 H2].
  rewrite replace_from_step, H1. f_equal. now apply IH.
Qed.

Lemma lstrip_end s : exists head, s = (head ++ lstrip s)%string.
Proof.
  induction s as [|c s [head IH]]; [now exists EmptyString|]. cbn [lstrip].
  destruct (is_space c).
  - exists (String c head). simpl. now rewrite <- IH.
  - now exists EmptyString.
Qed.

Lemma rstrip_start s : exists tail, s = (rstrip s ++ tail)%string.
Proof.
  induction s as [|c s [tail IH]]; [now exists EmptyString|]. cbn [rstrip].
  destruct (rstrip s) as [|d r] eqn:Hr.
  - destruct (is_space c).
    + now exists (String c s).
    + exists s. reflexivity.
  - exists tail. simpl. simpl in IH. now rewrite <- IH.
Qed.

Lemma append_assoc (a b c : string) : ((a ++ b) ++ c = a ++ (b ++ c))%string.
Proof. induction a as [|x a IH]; simpl; [reflexivity | now rewrite IH]. Qed.

Lemma contains_strip p s : contains p s = false -> contains p (strip s) = false.
Proof.
  intros H. destruct (contains p (strip s)) eqn:Hc; [|reflexivity].
  apply contains_spec in Hc as (b & a & Hs).
  destruct (lstrip_end s) as [head Hh]. destruct (rstrip_start (lstrip s)) as [tail Ht].
  assert (Ho : occurs_in p s).
  { exists (head ++ b)%string, (a ++ tail)%string. rewrite Hh at 1. rewrite Ht at 1.
    unfold strip in Hs. rewrite Hs. now rewrite !append_assoc. }
  apply contains_spec in Ho. congruence.
Qed.

(** The text [clean_dashes] returns has none of the three patterns it
    repairs. *)
Lemma clean_dashes_free s t :
  clean_dashes (VStr s) = VStr t ->
  contains em_dash_garbled t = false
  /\ contains en_dash_garbled t = false
  /\ contains "--" t = false.
Proof.
  cbn [clean_dashes]. intros [= <-].
  unfold replace. cbn iota.
  set (r1 := replace_from em_dash_garbled Provincial.em_dash 0 s).
  set (r2 := replace_from en_dash_garbled Provincial.en_dash 0 r1).
  set (r3 := replace_from "--" Provincial.em_dash 0 r2).
  assert (A1 : contains em_dash_garbled r1 = false).
  { apply replace_from_free; [discriminate | reflexivity | apply guarded_self]. }
  assert (A2 : contains em_dash_garbled r2 = false).
  { apply replace_from_free; [discriminate | reflexivity | now apply guarded_free]. }
  assert (B2 : contains en_dash_garbled r2 = false).
  { apply replace_from_free; [discriminate | reflexivity | apply guarded_self]. }
  assert (A3 : contains em_dash_garbled r3 = false).
  { apply replace_from_free; [discriminate | reflexivity | now apply guarded_free]. }
  assert (B3 : contains en_dash_garbled r3 = false).
  { apply replace_from_free; [discriminate | reflexivity | now apply guarded_free]. }
  assert (C3 : contains "--" r3 = false).
  { apply replace_from_free; [discriminate | reflexivity | apply guarded_self]. }
  repeat split; now apply contains_strip.
Qed.

(** X29: [clean_dashes] is idempotent, on texts and on anything else: a
    second pass finds nothing to repair and nothing to strip. *)
Theorem clean_dashes_idem x : clean_dashes (clean_dashes x) = clean_dashes x.
Proof.
  destruct x as [| | | |s|]; try reflexivity.
  destruct (clean_dashes (VStr s)) as [| | | |t|] eqn:Ht; try discriminate Ht.
  destruct (clean_dashes_free s t Ht) as (F1 & F2 & F3).
  assert (Hstrip : strip t = t).
  { cbn [clean_dashes] in Ht. injection Ht as <-.
    destruct (strip_shape (replace "--" Provincial.em_dash
                (replace en_dash_garbled Provincial.en_dash
                   (replace em_dash_garbled Provincial.em_dash s)))).
    now apply strip_fixed. }
  cbn [clean_dashes]. unfold replace. cbn iota.
  rewrite (replace_from_absent _ _ _ F1), (replace_from_absent _ _ _ F2),
    (replace_from_absent _ _ _ F3), Hstrip. reflexivity.
Qed.

End DashFacts.

(** ** Dashes in district names *)

Section DistrictNameFacts.
Context {E : Env}.
Import PyStr.

(** X30: A name that went through [normalize_one] holds no em dash and
    no en dash any more: both were turned into hyphens, and that cannot
    bring one back. *)
Theorem normalize_one_no_dashes x :
  contains Provincial.em_dash (Provincial.normalize_one x) = false
  /\ contains Provincial.en_dash (Provincial.normalize_one x) = false.
Proof.
  destruct x as [| | | |s|]; try (split; reflexivity).
  cbn [Provincial.normalize_one]. unfold Provincial.normalize_str.
  set (r1 := replace "  " " " (lower (strip s))).
  unfold replace at 1 2. cbn iota.
  assert (A : contains Provincial.em_dash
                (replace_from Provincial.em_dash "-" 0 r1) = false).
  { apply replace_from_free; [discriminate | reflexivity | apply guarded_self]. }
  split.
  - apply replace_from_free; [discriminate | reflexivity | now apply guarded_free].
  - apply replace_from_free; [discriminate | reflexivity | apply guarded_self].
Qed.

End DistrictNameFacts.

(** ** The loaders and tools on concrete sources *)

Module OnSources.
Import Grid Raw.
Local Open Scope list_scope.

Lemma load_gpkg_columns_witness :
  load_gpkg raw_gpkg = Ok loaded_gpkg
  /\ List.length (rows loaded_gpkg) = List.length (rows raw_gpkg)
  /\ has_col loaded_gpkg "riding_num" = true
  /\ has_col loaded_gpkg "riding_name" = true
  /\ has_col loaded_gpkg "geo_key" = true.
Proof.
  split; [reflexivity|]. exact (load_gpkg_columns raw_gpkg loaded_gpkg eq_refl).
Defined.

Lemma load_gpkg_keys_witness :
  rectangular raw_gpkg
  /\ NoDup (columns (normalize_year_naming (normalize_labels raw_gpkg)))
  /\ load_gpkg raw_gpkg = Ok loaded_gpkg
  /\ rectangular loaded_gpkg
  /\ normalize_year_naming loaded_gpkg = loaded_gpkg
  /\ (forall r, In r (rows loaded_gpkg) ->
        exists s, row_get loaded_gpkg r "geo_key" = VStr s /\ occurs_in "__" s)
  /\ (forall year view, filter_eq_int "year" year loaded_gpkg = Some view ->
                         drop_empty_keys view = view)
  /\ (forall ys, column loaded_gpkg "year" = Some ys ->
                  Forall (fun w => w = VNaN \/ exists z, w = VInt z) ys).
Proof.
  assert (Hr : rectangular raw_gpkg) by (repeat constructor).
  assert (Hn : NoDup (columns (normalize_year_naming (normalize_labels raw_gpkg)))).
  { vm_compute. repeat constructor; simpl; intuition discriminate. }
  split; [exact Hr|]. split; [exact Hn|]. split; [reflexivity|].
  exact (load_gpkg_keys raw_gpkg loaded_gpkg Hr Hn eq_refl).
Defined.

Lemma load_federal_csv_needs_riding_column_witness :
  has_col (rename_by (build_col_map (columns raw_csv_unnamed)) raw_csv_unnamed)
    "riding_num" = false
  /\ has_col (rename_by (build_col_map (columns raw_csv_unnamed)) raw_csv_unnamed)
       "riding_name" = false
  /\ exists e, load_federal_csv raw_csv_unnamed = Raise e
       /\ (has_col (rename_by (build_col_map (columns raw_csv_unnamed)) raw_csv_unnamed)
             "year" = false ->
           e = KeyError "riding_num").
Proof.
  split; [reflexivity|]. split; [reflexivity|].
  exact (load_federal_csv_needs_riding_column raw_csv_unnamed eq_refl eq_refl).
Defined.

Lemma load_federal_csv_columns_witness :
  load_federal_csv raw_csv = Ok loaded_csv
  /\ List.length (rows loaded_csv) = List.length (rows raw_csv)
  /\ has_col loaded_csv "riding_num" = true
  /\ has_col loaded_csv "geo_key" = true.
Proof.
  split; [reflexivity|]. exact (load_federal_csv_columns raw_csv loaded_csv eq_refl).
Defined.

Lemma load_federal_csv_cells_witness :
  rectangular raw_csv
  /\ NoDup (columns (rename_by (build_col_map (columns raw_csv)) raw_csv))
  /\ load_federal_csv raw_csv = Ok loaded_csv
  /\ rectangular loaded_csv
  /\ (forall ps, column loaded_csv "voter_participation_pct" = Some ps ->
                 Forall (fun w => w = VNaN \/ exists q, number_of w = Some q) ps)
  /\ (forall ys, column loaded_csv "year" = Some ys ->
                 Forall (fun w => w = VNaN
                                  \/ exists z, w = VInt z /\ in_int64 z = true) ys)
  /\ (forall ks, column loaded_csv "geo_key" = Some ks ->
                 Forall (fun k => exists s, k = VStr s /\ occurs_in "__" s) ks).
Proof.
  assert (Hr : rectangular raw_csv) by (repeat constructor).
  assert (Hn : NoDup (columns (rename_by (build_col_map (columns raw_csv)) raw_csv))).
  { vm_compute. repeat constructor; simpl; intuition discriminate. }
  split; [exact Hr|]. split; [exact Hn|]. split; [reflexivity|].
  exact (load_federal_csv_cells raw_csv loaded_csv Hr Hn eq_refl).
Defined.

Lemma prepare_map_df_on_loaded_witness :
  rectangular raw_gpkg
  /\ load_gpkg raw_gpkg = Ok loaded_gpkg
  /\ load_federal_csv raw_csv = Ok loaded_csv
  /\ df_fed_after (prepare_map_df loaded_gpkg loaded_csv 2015 None) = loaded_csv
  /\ (forall view,
        filter_eq_int "year" 2015 loaded_gpkg = Some view ->
        is_empty view = false ->
        result (prepare_map_df loaded_gpkg loaded_csv 2015 None)
        = preferred_merge view loaded_csv 2015).
Proof.
  assert (Hr : rectangular raw_gpkg) by (repeat constructor).
  split; [exact Hr|]. split; [reflexivity|]. split; [reflexivity|].
  exact (prepare_map_df_on_loaded raw_gpkg raw_csv loaded_gpkg loaded_csv 2015 None
           Hr eq_refl eq_refl).
Defined.

Lemma loaded_join_suffixes_witness :
  rectangular raw_gpkg
  /\ load_gpkg raw_gpkg = Ok loaded_gpkg
  /\ load_federal_csv raw_csv = Ok loaded_csv
  /\ filter_eq_int "year" 2015 loaded_gpkg = Some loaded_view
  /\ is_empty loaded_view = false
  /\ column loaded_view "geo_key" = Some [VStr "2015__42"; VStr "2015__7"]
  /\ has_duplicates [@VStr grid "2015__42"; VStr "2015__7"] = false
  /\ result (prepare_map_df loaded_gpkg loaded_csv 2015 None) = Ok loaded_merged
  /\ (has_col loaded_merged "riding_num" = false
      /\ has_col loaded_merged "riding_num_x" = true
      /\ has_col loaded_merged "riding_num_y" = true)
  /\ (has_col loaded_csv "riding_name" = true ->
      has_col loaded_merged "riding_name" = false
      /\ has_col loaded_merged "riding_name_x" = true
      /\ has_col loaded_merged "riding_name_y" = true).
Proof.
  assert (Hr : rectangular raw_gpkg) by (repeat constructor).
  split; [exact Hr|]. do 7 (split; [reflexivity|]).
  exact (loaded_join_suffixes raw_gpkg raw_csv loaded_gpkg loaded_csv 2015 None
           loaded_view [VStr "2015__42"; VStr "2015__7"] loaded_merged
           Hr eq_refl eq_refl eq_refl eq_refl eq_refl eq_refl eq_refl).
Defined.

Lemma municipal_loaders_need_keys_witness :
  In "Ward" ["Year"; "Ward"; "Sub"]
  /\ has_col raw_mun_wardless "Ward" = false
  /\ exists label,
       load_municipal_geometries raw_mun_wardless = Raise (KeyError label)
       /\ load_municipal_turnout raw_mun_wardless = Raise (KeyError label).
Proof.
  assert (Hin : In "Ward" ["Year"; "Ward"; "Sub"]) by (right; left; reflexivity).
  split; [exact Hin|]. split; [reflexivity|].
  exact (municipal_loaders_need_keys raw_mun_wardless "Ward" Hin eq_refl).
Defined.

Lemma load_municipal_geometries_keys_witness :
  rectangular raw_mun_gpkg
  /\ load_municipal_geometries raw_mun_gpkg = Ok loaded_mun_gpkg
  /\ rectangular loaded_mun_gpkg
  /\ columns loaded_mun_gpkg = columns raw_mun_gpkg
  /\ int_keys loaded_mun_gpkg
  /\ (List.length (rows loaded_mun_gpkg) <= List.length (rows raw_mun_gpkg))%nat.
Proof.
  assert (Hr : rectangular raw_mun_gpkg) by (repeat constructor).
  split; [exact Hr|]. split; [reflexivity|].
  exact (load_municipal_geometries_keys raw_mun_gpkg loaded_mun_gpkg Hr eq_refl).
Defined.

Lemma load_municipal_turnout_keys_witness :
  rectangular raw_mun_csv
  /\ load_municipal_turnout raw_mun_csv = Ok loaded_mun_csv
  /\ rectangular loaded_mun_csv
  /\ columns loaded_mun_csv = columns raw_mun_csv
  /\ int_keys loaded_mun_csv
  /\ (forall series, column loaded_mun_csv "PctVoted" = Some series ->
        Forall (fun v => v = VNaN \/ exists q, number_of v = Some q) series).
Proof.
  assert (Hr : rectangular raw_mun_csv) by (repeat constructor).
  split; [exact Hr|]. split; [reflexivity|].
  exact (load_municipal_turnout_keys raw_mun_csv loaded_mun_csv Hr eq_refl).
Defined.

Lemma prepare_municipal_on_loaded_witness :
  rectangular raw_mun_gpkg /\ rectangular raw_mun_csv
  /\ load_municipal_geometries raw_mun_gpkg = Ok loaded_mun_gpkg
  /\ load_municipal_turnout raw_mun_csv = Ok loaded_mun_csv
  /\ exists g_year t_year,
       filter_eq_int "Year" 2018 loaded_mun_gpkg = Some g_year
       /\ filter_eq_int "Year" 2018 loaded_mun_csv = Some t_year
       /\ prepare_municipal_year_gdf 2018 loaded_mun_gpkg loaded_mun_csv
          = (t_cols <- or_key_error "PctVoted"
                         (select ["Year"; "Ward"; "Sub"; "PctVoted"] t_year) ;;
             merge_left true ["Year"; "Ward"; "Sub"] g_year t_cols).
Proof.
  assert (Hg : rectangular raw_mun_gpkg) by (repeat constructor).
  assert (Ht : rectangular raw_mun_csv) by (repeat constructor).
  split; [exact Hg|]. split; [exact Ht|]. split; [reflexivity|]. split; [reflexivity|].
  exact (prepare_municipal_on_loaded raw_mun_gpkg raw_mun_csv loaded_mun_gpkg
           loaded_mun_csv 2018 Hg Ht eq_refl eq_refl).
Defined.

Lemma get_available_years_increasing_witness :
  get_available_years (Some loaded_mun_csv) (Some loaded_mun_gpkg) = Ok [2014; 2018]%Z
  /\ increasing [2014; 2018]%Z.
Proof.
  split; [reflexivity|].
  exact (get_available_years_increasing (Some loaded_mun_csv) (Some loaded_mun_gpkg)
           [2014; 2018]%Z eq_refl).
Defined.

Lemma get_available_years_turnout_first_witness :
  column loaded_mun_csv "Year" = Some [VInt 2018; VInt 2014]
  /\ get_available_years (Some loaded_mun_csv) (Some loaded_mun_gpkg) = Ok [2014; 2018]%Z
  /\ forall z, In z [2014; 2018]%Z <->
               exists v, In v [@VInt grid 2018; VInt 2014]
                         /\ isna v = false /\ int_cell v = Ok z.
Proof.
  split; [reflexivity|]. split; [reflexivity|].
  exact (get_available_years_turnout_first loaded_mun_csv (Some loaded_mun_gpkg)
           [VInt 2018; VInt 2014] [2014; 2018]%Z eq_refl eq_refl).
Defined.

Lemma get_available_years_on_loaded_witness :
  rectangular raw_mun_csv
  /\ load_municipal_turnout raw_mun_csv = Ok loaded_mun_csv
  /\ exists series years,
       column loaded_mun_csv "Year" = Some series
       /\ get_available_years (Some loaded_mun_csv) None = Ok years
       /\ increasing years
       /\ forall z, In z years <-> In (VInt z) series.
Proof.
  assert (Hr : rectangular raw_mun_csv) by (repeat constructor).
  split; [exact Hr|]. split; [reflexivity|].
  exact (get_available_years_on_loaded raw_mun_csv loaded_mun_csv None Hr eq_refl).
Defined.

Lemma compute_turnout_summary_count_witness :
  compute_turnout_summary mun_df
  = Ok (Summary 2 (Some (5 # 12)) (Some (1 # 3)) (Some (1 # 2)))
  /\ summary_n (Summary 2 (Some (5 # 12)) (Some (1 # 3)) (Some (1 # 2))) = 2%nat
  /\ summary_mean (Summary 2 (Some (5 # 12)) (Some (1 # 3)) (Some (1 # 2))) <> None
  /\ summary_min (Summary 2 (Some (5 # 12)) (Some (1 # 3)) (Some (1 # 2))) <> None
  /\ summary_max (Summary 2 (Some (5 # 12)) (Some (1 # 3)) (Some (1 # 2))) <> None.
Proof.
  split; [reflexivity|].
  exact (compute_turnout_summary_count mun_df
           (Summary 2 (Some (5 # 12)) (Some (1 # 3)) (Some (1 # 2))) eq_refl).
Defined.

Lemma compute_turnout_summary_bounds_witness :
  column mun_df "PctVoted" = Some [VNum (1 # 2); VNum (1 # 3)]
  /\ compute_turnout_summary mun_df
     = Ok (Summary 2 (Some (5 # 12)) (Some (1 # 3)) (Some (1 # 2)))
  /\ (exists v, In v [@VNum grid (1 # 2); VNum (1 # 3)] /\ number_of v = Some (1 # 3))
  /\ (exists v, In v [@VNum grid (1 # 2); VNum (1 # 3)] /\ number_of v = Some (1 # 2))
  /\ forall v q, In v [@VNum grid (1 # 2); VNum (1 # 3)] -> number_of v = Some q ->
                 (1 # 3 <= q /\ q <= 1 # 2)%Q.
Proof.
  split; [reflexivity|]. split; [reflexivity|].
  exact (compute_turnout_summary_bounds mun_df [VNum (1 # 2); VNum (1 # 3)]
           (Summary 2 (Some (5 # 12)) (Some (1 # 3)) (Some (1 # 2))) (1 # 3) (1 # 2)
           eq_refl eq_refl eq_refl eq_refl).
Defined.

Lemma turnout_to_color_range_witness :
  turnout_to_color (@VNum grid (1 # 66)) = Ok [220; 234; 246]%Z
  /\ exists r g b,
       [220; 234; 246]%Z = [r; g; b]
       /\ (49 <= r <= 222)%Z /\ (130 <= g <= 235)%Z /\ (189 <= b <= 247)%Z.
Proof.
  assert (H : turnout_to_color (@VNum grid (1 # 66)) = Ok [220; 234; 246]%Z)
    by (vm_compute; reflexivity).
  split; [exact H|].
  exact (turnout_to_color_range (@VNum grid (1 # 66)) [220; 234; 246]%Z H).
Defined.

Lemma turnout_to_color_darkens_witness :
  number_of (@VNum grid (1 # 4)) = Some (1 # 4)
  /\ number_of (@VNum grid (3 # 4)) = Some (3 # 4)
  /\ (1 # 4 <= 3 # 4)%Q
  /\ exists r g b r' g' b',
       turnout_to_color (@VNum grid (1 # 4)) = Ok [r; g; b]
       /\ turnout_to_color (@VNum grid (3 # 4)) = Ok [r'; g'; b']
       /\ (r' <= r)%Z /\ (g' <= g)%Z /\ (b' <= b)%Z.
Proof.
  assert (Hle : (1 # 4 <= 3 # 4)%Q) by (unfold Qle; simpl; lia).
  split; [reflexivity|]. split; [reflexivity|]. split; [exact Hle|].
  exact (turnout_to_color_darkens (@VNum grid (1 # 4)) (@VNum grid (3 # 4))
           (1 # 4) (3 # 4) eq_refl eq_refl Hle).
Defined.

Lemma get_provincial_map_toronto_witness :
  rectangular prov_shapes
  /\ get_provincial_map prov_results prov_shapes 2022 = Ok prov_map
  /\ exists df shapes li ri,
       year_results prov_results 2022 = Ok df
       /\ toronto_shapes prov_shapes = Ok shapes
       /\ index_of "ED_ID" (columns shapes) = Some li
       /\ index_of "ElectoralDistrictNumber" (columns df) = Some ri
       /\ (forall row, In row (rows prov_map) ->
             In (firstn (List.length (columns shapes)) row) (rows shapes))
       /\ (forall lr, In lr (rows shapes) ->
             exists tail, In (lr ++ tail) (rows prov_map))
       /\ (forall lr rr, In lr (rows shapes) -> In rr (rows df) ->
             cell_eqb (cell ri rr) (cell li lr) = true ->
             exists rr', In (lr ++ rr') (rows prov_map) /\ Forall2 alike rr' rr)
       /\ (forall lr, In lr (rows shapes) ->
             (forall rr, In rr (rows df) -> cell_eqb (cell ri rr) (cell li lr) = false) ->
             In (lr ++ repeat VNaN (List.length (columns df))) (rows prov_map))
       /\ (List.length (rows shapes) <= List.length (rows prov_map))%nat.
Proof.
  assert (Hr : rectangular prov_shapes) by (repeat constructor).
  split; [exact Hr|]. split; [reflexivity|].
  exact (get_provincial_map_toronto prov_results prov_shapes 2022 prov_map Hr eq_refl).
Defined.

Lemma get_provincial_map_names_witness :
  rectangular prov_shapes
  /\ get_provincial_map prov_results prov_shapes 2022 = Ok prov_map
  /\ exists shapes ni,
       toronto_shapes prov_shapes = Ok shapes
       /\ index_of "name_clean" (columns shapes) = Some ni
       /\ forall row, In row (rows prov_map) ->
            exists s, cell ni row = VStr s /\ In s toronto_districts.
Proof.
  assert (Hr : rectangular prov_shapes) by (repeat constructor).
  split; [exact Hr|]. split; [reflexivity|].
  exact (get_provincial_map_names prov_results prov_shapes 2022 prov_map Hr eq_refl).
Defined.

Lemma geo_key_builders_agree_witness :
  loader_year (@VInt grid 2015)
  /\ geo_key_gpkg (@VInt grid 2015) (VStr " 42")
     = geo_key_csv (@VInt grid 2015) (VStr " 42").
Proof.
  assert (Hy : loader_year (@VInt grid 2015)) by (right; exists 2015%Z; reflexivity).
  split; [exact Hy|].
  exact (geo_key_builders_agree (@VInt grid 2015) (VStr " 42") Hy).
Defined.

Lemma geo_key_injective_witness :
  loader_year (@VInt grid 2015)
  /\ geo_key_csv (@VInt grid 2015) (VStr "42")
     = geo_key_csv (@VInt grid 2015) (VStr " 42")
  /\ PyStr.strip (py_str (@VStr grid "42")) = PyStr.strip (py_str (@VStr grid " 42"))
  /\ isna (@VInt grid 2015) = isna (@VInt grid 2015)
  /\ (forall z1 z2, @VInt grid 2015 = VInt z1 -> @VInt grid 2015 = VInt z2 -> z1 = z2).
Proof.
  assert (Hy : loader_year (@VInt grid 2015)) by (right; exists 2015%Z; reflexivity).
  split; [exact Hy|]. split; [reflexivity|].
  exact (proj1 (geo_key_injective (@VInt grid 2015) (VStr "42") (@VInt grid 2015)
                  (VStr " 42") Hy Hy) eq_refl).
Defined.


End OnSources.
